(** * RiotAuthProvider: the token lifecycle of [src/info-providers/RiotAuthProvider.js]

    A shallow embedding of the provider class: the credential fields, the
    cookie jar, the plugin store, the renewal with its silent and interactive
    paths, the derivation of the entitlement and of the player id, and the
    promise that [invoke] shares between concurrent callers.

    JavaScript numbers are modelled as integers plus [NaN]: every number the
    file computes with is a millisecond timestamp or a count of seconds, far
    below 2^53, where double arithmetic is exact.  Where the source turns a
    number into text and back ([parseInt] of a saved expiry) or builds a
    [Date] from a fraction of seconds, the rounding to a double is written
    out. *)

From Stdlib Require Import ZArith QArith List String Ascii Bool Lia.
From stdpp Require Import base option list strings gmap.
Import ListNotations.

Local Open Scope string_scope.
Local Open Scope Z_scope.

(** ** JavaScript numbers *)

Inductive Number :=
| NaN
| Num (z : Z).

(** [a === b] on numbers: [NaN] equals nothing. *)
Definition Number_eqb (a b : Number) : bool :=
  match a, b with
  | Num x, Num y => x =? y
  | _, _ => false
  end.

(** [a <= b]: false as soon as one side is [NaN]. *)
Definition Number_leb (a b : Number) : bool :=
  match a, b with
  | Num x, Num y => x <=? y
  | _, _ => false
  end.

(** [a > b]: false as soon as one side is [NaN]. *)
Definition Number_gtb (a b : Number) : bool :=
  match a, b with
  | Num x, Num y => y <? x
  | _, _ => false
  end.

Definition Number_add (a b : Number) : Number :=
  match a, b with
  | Num x, Num y => Num (x + y)
  | _, _ => NaN
  end.

Definition Number_sub (a b : Number) : Number :=
  match a, b with
  | Num x, Num y => Num (x - y)
  | _, _ => NaN
  end.

Definition Number_mul (a b : Number) : Number :=
  match a, b with
  | Num x, Num y => Num (x * y)
  | _, _ => NaN
  end.

(** *** Rounding to a double

    A double has 53 significant bits; a number between two doubles goes to
    the nearer one, and to the one with the even mantissa when it is half
    way. *)

(** [a / b] rounded to the nearest integer, ties to even ([0 < b]). *)
Definition div_half_even (a b : Z) : Z :=
  let q := a / b in
  let r := a mod b in
  if 2 * r <? b then q
  else if b <? 2 * r then q + 1
  else if Z.even q then q else q + 1.

(** The fraction [(n/d) / 2^k], as a numerator and a denominator. *)
Definition scaled (n d k : Z) : Z * Z :=
  if 0 <=? k then (n, d * 2 ^ k) else (n * 2 ^ (- k), d).

(** The integer part of the binary logarithm of [n/d] ([0 < n], [0 < d]). *)
Definition floor_log2 (n d : Z) : Z :=
  let k := Z.log2 n - Z.log2 d in
  let '(a, b) := scaled n d k in
  if a <? b then k - 1 else k.

(** The integer part of the double nearest to [n/d] ([0 < n], [0 < d]). *)
Definition trunc_of_double (n d : Z) : Z :=
  let e := floor_log2 n d - 52 in
  let '(a, b) := scaled n d e in
  let m := div_half_even a b in
  if 0 <=? e then m * 2 ^ e else m / 2 ^ (- e).

(** The double nearest to the integer [z]; every integer up to 2^53 is a
    double. *)
Definition nearest_double (z : Z) : Z :=
  match z with
  | 0 => 0
  | Zpos _ => trunc_of_double z 1
  | Zneg _ => - trunc_of_double (- z) 1
  end.

(** The doubles end below 2^1024; what rounds beyond them is [Infinity]. *)
Definition overflows (z : Z) : bool := 2 ^ 1024 - 2 ^ 970 <=? Z.abs z.

(** The number of decimal digits of [z] ([0 <= z]). *)
Fixpoint decimal_length_upto (fuel : nat) (z : Z) : Z :=
  match fuel with
  | O => 1
  | S f => if z <? 10 then 1 else 1 + decimal_length_upto f (z / 10)
  end.
Definition decimal_length (z : Z) : Z :=
  decimal_length_upto (Z.to_nat (Z.log2 z)) z.

(** The first decimal digit of [z] ([0 < z]). *)
Definition leading_digit (z : Z) : Z := z / 10 ^ (decimal_length z - 1).

(** [Number::toString] prints the shortest decimal that reads back as the
    same double, and of several the nearest.  For a double [v] of 2^53 or
    more, an integer, this is the first digit of that decimal: [k] digits
    are tried for [k] from 1; a decimal of [k] digits reads back as [v] when
    it lies between the midpoints of [v] and its two neighbours, the
    midpoints included when the mantissa of [v] is even. *)
Fixpoint shortest_from (fuel : nat) (k : Z) (v : Z) : Z :=
  match fuel with
  | O => leading_digit v
  | S f =>
      let e := Z.log2 v - 52 in
      let m := v / 2 ^ e in
      let below := if m =? 2 ^ 52 then 2 ^ (e - 1) else 2 ^ e in
      let inside c :=
        if Z.even m then (2 * v - below <=? 2 * c) && (2 * c <=? 2 * v + 2 ^ e)
        else (2 * v - below <? 2 * c) && (2 * c <? 2 * v + 2 ^ e) in
      let s := 10 ^ (decimal_length v - k) in
      let c1 := v / s * s in
      let c2 := c1 + s in
      if inside c1 && inside c2 then
        leading_digit (if v - c1 <=? c2 - v then c1 else c2)
      else if inside c1 then leading_digit c1
      else if inside c2 then leading_digit c2
      else shortest_from f (k + 1) v
  end.
Definition shortest_leading_digit (v : Z) : Z := shortest_from 17 1 v.

(** ** Characters and strings *)

Definition code (c : ascii) : Z := Z.of_nat (nat_of_ascii c).

Definition is_digit (c : ascii) : bool := (48 <=? code c) && (code c <=? 57).
Definition is_upper (c : ascii) : bool := (65 <=? code c) && (code c <=? 90).
Definition is_lower (c : ascii) : bool := (97 <=? code c) && (code c <=? 122).
Definition is_alpha (c : ascii) : bool := is_upper c || is_lower c.

(** The single-byte members of StrWhiteSpaceChar: TAB, LF, VT, FF, CR, SP. *)
Definition is_space (c : ascii) : bool :=
  ((9 <=? code c) && (code c <=? 13)) || (code c =? 32).

Definition to_lower (c : ascii) : ascii :=
  if is_upper c then ascii_of_nat (nat_of_ascii c + 32) else c.

Definition ascii_eqb (a b : ascii) : bool := code a =? code b.

(** The value of [c] as a digit of the given radix, when it is one. *)
Definition digit_value (radix : Z) (c : ascii) : option Z :=
  let v :=
    if is_digit c then code c - 48
    else if is_lower c then code c - 87
    else if is_upper c then code c - 55
    else 99 in
  if v <? radix then Some v else None.

Fixpoint span {A} (p : A -> bool) (l : list A) : list A * list A :=
  match l with
  | [] => ([], [])
  | x :: r => if p x then let '(a, b) := span p r in (x :: a, b) else ([], l)
  end.

Definition chars (s : string) : list ascii := list_ascii_of_string s.
Definition text (l : list ascii) : string := string_of_list_ascii l.

(** The double quote, which template literals of the source put around
    the offending url. *)
Definition dquote : string := String (ascii_of_nat 34) EmptyString.

(** [s.startsWith(p)] *)
Definition startsWith (s p : string) : bool := String.prefix p s.

(** Horner evaluation of a run of digits. *)
Fixpoint digits_value (radix acc : Z) (l : list ascii) : Z :=
  match l with
  | [] => acc
  | c :: r =>
      match digit_value radix c with
      | Some d => digits_value radix (acc * radix + d) r
      | None => acc
      end
  end.

Definition is_digit_of (radix : Z) (c : ascii) : bool :=
  match digit_value radix c with Some _ => true | None => false end.

(** [parseInt(s)] with no radix argument: leading white space is skipped,
    one sign is read, a [0x] or [0X] prefix selects base sixteen, then the
    longest run of digits is read; no digit at all yields [NaN]. *)
Definition parseInt_string (s : string) : Number :=
  let l := snd (span is_space (chars s)) in
  let '(neg, l) :=
    match l with
    | "-"%char :: r => (true, r)
    | "+"%char :: r => (false, r)
    | _ => (false, l)
    end in
  let '(radix, l) :=
    match l with
    | "0"%char :: "x"%char :: r => (16, r)
    | "0"%char :: "X"%char :: r => (16, r)
    | _ => (10, l)
    end in
  let ds := fst (span (is_digit_of radix) l) in
  match ds with
  | [] => NaN
  | _ => let v := digits_value radix 0 ds in Num (if neg then - v else v)
  end.

(** [StringToNumber] on the integer literals: the trimmed text is empty
    (zero), a decimal integer with an optional sign, or an unsigned
    hexadecimal, octal or binary literal.  Literals with a fraction or an
    exponent and [Infinity] denote numbers outside the integer model; they
    are sent to [NaN] here and no statement below rests on them. *)
Definition trim (l : list ascii) : list ascii :=
  rev (snd (span is_space (rev (snd (span is_space l))))).

Definition all_digits (radix : Z) (l : list ascii) : bool :=
  match l with
  | [] => false
  | _ => forallb (is_digit_of radix) l
  end.

Definition literal (radix : Z) (l : list ascii) : Number :=
  if all_digits radix l then Num (digits_value radix 0 l) else NaN.

Definition StringToNumber (s : string) : Number :=
  match trim (chars s) with
  | [] => Num 0
  | "-"%char :: r =>
      match literal 10 r with Num v => Num (- v) | NaN => NaN end
  | "+"%char :: r => literal 10 r
  | "0"%char :: "x"%char :: r => literal 16 r
  | "0"%char :: "X"%char :: r => literal 16 r
  | "0"%char :: "o"%char :: r => literal 8 r
  | "0"%char :: "O"%char :: r => literal 8 r
  | "0"%char :: "b"%char :: r => literal 2 r
  | "0"%char :: "B"%char :: r => literal 2 r
  | l => literal 10 l
  end.

(** Splitting at every occurrence of a separator. *)
Fixpoint split_on (sep : ascii) (l : list ascii) : list (list ascii) :=
  match l with
  | [] => [[]]
  | c :: r =>
      if ascii_eqb c sep then [] :: split_on sep r
      else match split_on sep r with
           | [] => [[c]]
           | h :: t => (c :: h) :: t
           end
  end.

(** Percent-decoding of a byte sequence: a [%] followed by two hexadecimal
    digits is the byte they spell; anything else stands for itself. *)
Fixpoint percent_decode (l : list ascii) : list ascii :=
  match l with
  | [] => []
  | c :: r =>
      match r with
      | h :: k :: r2 =>
          match ascii_eqb c "%", digit_value 16 h, digit_value 16 k with
          | true, Some a, Some b =>
              ascii_of_nat (Z.to_nat (16 * a + b)) :: percent_decode r2
          | _, _, _ => c :: percent_decode r
          end
      | _ => c :: percent_decode r
      end
  end.

(** ** The WHATWG [URL] and [URLSearchParams] classes, as far as
       [getTokenDataFromURL] uses them

    Of a url the source reads the fragment, and it catches what the
    constructor throws; so the parser is followed as far as it can fail.
    Texts are byte strings.  A host with a byte above 127 or with a label
    that starts with [xn--] goes through the IDNA mapping, which is not
    modelled: such a host is taken as it is written. *)

Definition is_c0_or_space (c : ascii) : bool := code c <=? 32.
Definition is_tab_or_newline (c : ascii) : bool :=
  (code c =? 9) || (code c =? 10) || (code c =? 13).

Definition is_scheme_char (c : ascii) : bool :=
  is_alpha c || is_digit c
  || ascii_eqb c "+" || ascii_eqb c "-" || ascii_eqb c ".".

Definition is_slash (c : ascii) : bool := ascii_eqb c "/" || ascii_eqb c "\".

Definition special_scheme (s : string) : bool :=
  String.eqb s "http" || String.eqb s "https" || String.eqb s "ws"
  || String.eqb s "wss" || String.eqb s "ftp".

(** The part of [l] after its last [@], or [l] itself. *)
Fixpoint after_last_at (l : list ascii) : list ascii :=
  match l with
  | [] => []
  | c :: r =>
      if existsb (ascii_eqb "@") r then after_last_at r
      else if ascii_eqb c "@" then r else l
  end.

Definition is_nil {A} (l : list A) : bool :=
  match l with [] => true | _ => false end.

(** The forbidden host code points, and the forbidden domain code points,
    which are those, the C0 controls, [%] and DEL. *)
Definition is_forbidden_host (c : ascii) : bool :=
  existsb (Z.eqb (code c))
    [0; 9; 10; 13; 32; 35; 47; 58; 60; 62; 63; 64; 91; 92; 93; 94; 124].
Definition is_forbidden_domain (c : ascii) : bool :=
  is_forbidden_host c || (code c <=? 31) || (code c =? 37) || (code c =? 127).

(** The IPv4 number parser: [0x] announces base sixteen, another leading
    [0] base eight; what is left must be digits of the base, none at all
    being zero. *)
Definition ipv4_number (part : list ascii) : option Z :=
  match part with
  | [] => None
  | _ =>
      let '(radix, ds) :=
        match part with
        | "0"%char :: "x"%char :: r => (16, r)
        | "0"%char :: "X"%char :: r => (16, r)
        | "0"%char :: c :: r => (8, c :: r)
        | _ => (10, part)
        end in
      if forallb (is_digit_of radix) ds then Some (digits_value radix 0 ds)
      else None
  end.

(** The parts of a host between its dots, short of one empty last part. *)
Definition ipv4_parts (host : list ascii) : list (list ascii) :=
  let parts := split_on "." host in
  match rev parts with
  | [] :: (p :: r) => rev (p :: r)
  | _ => parts
  end.

(** The ends-in-a-number checker: the last part is made of digits, or reads
    as an IPv4 number. *)
Definition ends_in_number (host : list ascii) : bool :=
  match rev (ipv4_parts host) with
  | [] => false
  | final :: _ =>
      (negb (is_nil final) && forallb is_digit final)
      || match ipv4_number final with Some _ => true | None => false end
  end.

(** The IPv4 parser, as far as it fails: at most four parts, each a number,
    all but the last below 256 and the last below 256 to the power of the
    places left. *)
Definition ipv4_valid (host : list ascii) : bool :=
  let parts := ipv4_parts host in
  (length parts <=? 4)%nat
  && forallb (fun p => match ipv4_number p with Some _ => true | None => false end)
       parts
  && match rev (map (fun p => default 0 (ipv4_number p)) parts) with
     | [] => false
     | final :: others =>
         forallb (fun n => n <=? 255) others
         && (final <? 256 ^ (5 - Z.of_nat (length parts)))
     end.

(** Up to [n] hexadecimal digits at the head of [l]: how many, and the rest. *)
Fixpoint hex_run (n : nat) (l : list ascii) : nat * list ascii :=
  match n, l with
  | S n', c :: r =>
      if is_digit_of 16 c then let '(k, rest) := hex_run n' r in (S k, rest)
      else (O, l)
  | _, _ => (O, l)
  end.

(** The dotted quad that may end an IPv6 address, after [seen] of its
    numbers: decimal, without a leading zero, at most 255 each, four in
    all. *)
Fixpoint ipv4_in_ipv6 (fuel seen : nat) (l : list ascii) : bool :=
  match fuel with
  | O => false
  | S f =>
      match l with
      | [] => Nat.eqb seen 4
      | c :: r =>
          let start :=
            if Nat.eqb seen 0 then Some l
            else if ascii_eqb c "." && (seen <? 4)%nat then Some r
            else None in
          match start with
          | None => false
          | Some l1 =>
              let '(ds, rest) := span is_digit l1 in
              match ds with
              | [] => false
              | d :: more =>
                  if ascii_eqb d "0" && negb (is_nil more) then false
                  else if 255 <? digits_value 10 0 ds then false
                  else ipv4_in_ipv6 f (S seen) rest
              end
          end
      end
  end.

(** The IPv6 parser, as far as it fails, at piece [pieceIndex]: pieces of
    one to four hexadecimal digits between colons, one [::] at most, eight
    pieces unless there is a [::]. *)
Fixpoint ipv6_pieces (fuel pieceIndex : nat) (compressed : bool)
    (l : list ascii) : bool :=
  match fuel with
  | O => false
  | S f =>
      match l with
      | [] => compressed || Nat.eqb pieceIndex 8
      | c :: r =>
          if Nat.eqb pieceIndex 8 then false
          else if ascii_eqb c ":" then
            if compressed then false else ipv6_pieces f (S pieceIndex) true r
          else
            let '(len, rest) := hex_run 4 l in
            match rest with
            | [] => negb (Nat.eqb len 0) && (compressed || Nat.eqb pieceIndex 7)
            | c' :: r' =>
                if ascii_eqb c' "." then
                  negb (Nat.eqb len 0) && (pieceIndex <=? 6)%nat
                  && ipv4_in_ipv6 (S (length l)) 0 l
                  && (compressed || Nat.eqb pieceIndex 6)
                else if ascii_eqb c' ":" then
                  negb (Nat.eqb len 0) && negb (is_nil r')
                  && ipv6_pieces f (S pieceIndex) compressed r'
                else false
            end
      end
  end.

Definition ipv6_valid (l : list ascii) : bool :=
  match l with
  | c :: r =>
      if ascii_eqb c ":" then
        match r with
        | c' :: r' =>
            if ascii_eqb c' ":" then ipv6_pieces (S (length r')) 1 true r'
            else false
        | [] => false
        end
      else ipv6_pieces (S (length l)) 0 false l
  | [] => false
  end.

(** The host parser, as far as it fails.  An address in brackets is an IPv6
    address.  The host of a special scheme is percent-decoded and put in
    lower case; it holds no forbidden domain code point, and when it ends
    in a number it is an IPv4 address.  Another host is opaque and holds no
    forbidden host code point. *)
Definition host_valid (special : bool) (input : list ascii) : bool :=
  match input with
  | "["%char :: r =>
      match rev r with
      | "]"%char :: inner => ipv6_valid (rev inner)
      | _ => false
      end
  | _ =>
      if special then
        let domain := map to_lower (percent_decode input) in
        negb (is_nil domain)
        && negb (existsb is_forbidden_domain domain)
        && (if ends_in_number domain then ipv4_valid domain else true)
      else negb (existsb is_forbidden_host input)
  end.

(** The port: digits that spell at most 65535. *)
Definition port_valid (l : list ascii) : bool :=
  forallb is_digit l && (digits_value 10 0 l <=? 65535).

(** The host ends at the first colon outside square brackets; what follows
    that colon is the port. *)
Fixpoint host_and_port (inside : bool) (l : list ascii)
  : list ascii * option (list ascii) :=
  match l with
  | [] => ([], None)
  | c :: r =>
      if ascii_eqb c ":" && negb inside then ([], Some r)
      else
        let inside' :=
          if ascii_eqb c "[" then true
          else if ascii_eqb c "]" then false
          else inside in
        let '(h, p) := host_and_port inside' r in (c :: h, p)
  end.

(** The authority: credentials up to the last [@], then host and port.
    After an [@] something must follow; before a port there is a host; a
    special scheme has a host. *)
Definition authority_valid (special : bool) (authority : list ascii) : bool :=
  let hostport := after_last_at authority in
  if existsb (ascii_eqb "@") authority && is_nil hostport then false
  else
    let '(host, port) := host_and_port false hostport in
    match port with
    | Some p => negb (is_nil host) && host_valid special host && port_valid p
    | None => (negb special || negb (is_nil host)) && host_valid special host
    end.

(** What follows [file:] up to the fragment: after two slashes comes a host,
    which may be empty or a drive letter. *)
Definition file_valid (front : list ascii) : bool :=
  match front with
  | s1 :: s2 :: r =>
      if is_slash s1 && is_slash s2 then
        let buffer :=
          fst (span (fun c => negb (is_slash c || ascii_eqb c "?")) r) in
        match buffer with
        | [] => true
        | [d; s] =>
            (is_alpha d && (ascii_eqb s ":" || ascii_eqb s "|"))
            || host_valid true buffer
        | _ => host_valid true buffer
        end
      else true
  | _ => true
  end.

(** [new URL(input).hash.slice(1)], or [None] where the constructor throws
    [TypeError].  There is no base url, so the input needs a scheme.  A
    special scheme is followed by any number of slashes and an authority;
    [file:] by a path or, after two slashes, a host; another scheme by an
    authority after [//], or else by a path, which never fails.  The
    fragment is what follows the first [#]; the percent-encoding that the
    [hash] getter adds is the one [URLSearchParams] undoes, so it is left
    out on both sides. *)
Definition URL_hash_slice1 (input : string) : option string :=
  let l := chars input in
  let l := rev (snd (span is_c0_or_space (rev (snd (span is_c0_or_space l))))) in
  let l := List.filter (fun c => negb (is_tab_or_newline c)) l in
  match l with
  | [] => None
  | c :: _ =>
      if is_alpha c then
        let '(scheme, rest) := span is_scheme_char l in
        match rest with
        | ":"%char :: rest =>
            let '(front, back) := span (fun c => negb (ascii_eqb c "#")) rest in
            let fragment := match back with [] => [] | _ :: f => f end in
            let scheme := text (map to_lower scheme) in
            let valid :=
              if String.eqb scheme "file" then file_valid front
              else if special_scheme scheme then
                authority_valid true
                  (fst (span (fun c => negb (is_slash c || ascii_eqb c "?"))
                          (snd (span is_slash front))))
              else
                match front with
                | "/"%char :: "/"%char :: r =>
                    authority_valid false
                      (fst (span (fun c => negb (ascii_eqb c "/" || ascii_eqb c "?"))
                              r))
                | _ => true
                end in
            if valid then Some (text fragment) else None
        | _ => None
        end
      else None
  end.

(** ** JavaScript values that reach the provider *)

(** tough-cookie's [cookie.expiryTime()]: [Infinity] for a cookie that never
    expires, otherwise a time value, [NaN] for an invalid date. *)
Inductive Expiry :=
| Infinity
| Time (ms : Number).

(** A cookie of the tough-cookie jar. *)
Record Cookie := mkCookie {
  key : string;
  value : string;
  expiryTime : Expiry;
  domain : string;
  path : string;
  secure : bool;
  httpOnly : bool;
  hostOnly : bool
}.

(** What a store item, a token field or a url parameter can hold.  [JarText cs]
    is the text [JSON.stringify(jar.serializeSync())] of a jar holding [cs];
    every other text is a [Str]. *)
Inductive Value :=
| Null
| Undefined
| Str (s : string)
| Numeric (n : Number)
| JarText (cs : list Cookie).

(** [parseInt(v)]: the argument is first turned into a string.  The texts of
    [null] and [undefined] carry no digit and a jar's text starts with a
    brace.  A number prints as the double it is: below 10^21 with all its
    digits, which [parseInt] reads back; from 10^21 on in exponent form,
    of which [parseInt] reads the digit before the point; beyond the
    doubles as [Infinity], which has no digit. *)
Definition parseInt (v : Value) : Number :=
  match v with
  | Str s => parseInt_string s
  | Numeric NaN => NaN
  | Numeric (Num z) =>
      if overflows z then NaN
      else
        let d := nearest_double z in
        if Z.abs d <? 10 ^ 21 then Num d
        else Num (Z.sgn d * shortest_leading_digit (Z.abs d))
  | Null | Undefined | JarText _ => NaN
  end.

(** [ToNumber(v)], which the product [tokenData.expiresIn * 1000] applies. *)
Definition ToNumber (v : Value) : Number :=
  match v with
  | Null => Num 0
  | Undefined => NaN
  | Str s => StringToNumber s
  | Numeric n => n
  | JarText _ => NaN
  end.

(** What is thrown or passed to [reject]. *)
Inductive Exn :=
| Error (message : string)        (* [new Error(message)] *)
| TypeError (message : string)    (* raised by the runtime or a library *)
| RangeError (message : string)   (* raised by the runtime *)
| FetchError (message : string)   (* a rejected [fetch] or [json()] *)
| Reason (s : string).            (* [reject(s)] with a bare string *)

(** [new URLSearchParams(init)]: a leading [?] is dropped, the rest is cut at
    every [&]; an empty piece is skipped, a piece is cut at its first [=],
    [+] becomes a space and both halves are percent-decoded. *)
Definition plus_to_space (c : ascii) : ascii :=
  if ascii_eqb c "+" then " "%char else c.

Definition parse_pair (piece : list ascii) : string * string :=
  let '(name, rest) := span (fun c => negb (ascii_eqb c "=")) piece in
  let v := match rest with [] => [] | _ :: v => v end in
  (text (percent_decode (map plus_to_space name)),
   text (percent_decode (map plus_to_space v))).

Definition URLSearchParams (init : string) : list (string * string) :=
  let l := match chars init with "?"%char :: r => r | l => l end in
  map parse_pair
    (List.filter (fun p => match p with [] => false | _ => true end)
       (split_on "&" l)).

(** [searchParams.get(name)]: the first value under [name], or [null]. *)
Fixpoint searchParams_get (params : list (string * string)) (name : string)
  : Value :=
  match params with
  | [] => Null
  | (n, v) :: r => if String.eqb n name then Str v else searchParams_get r name
  end.

(** ** [getTokenDataFromURL] (lines 9-23) *)

Record TokenData := mkTokenData {
  accessToken : Value;
  expiresIn : Value
}.

(** The argument as a template literal or the [URL] constructor reads it:
    [headers.get('location')] yields [null] when the header is missing. *)
Definition url_text (url : option string) : string :=
  match url with
  | Some s => s
  | None => "null"
  end.

Definition getTokenDataFromURL (url : option string) : Exn + TokenData :=
  match URL_hash_slice1 (url_text url) with
  | Some fragment =>
      let searchParams := URLSearchParams fragment in
      inr {| accessToken := searchParams_get searchParams "access_token";
             expiresIn := searchParams_get searchParams "expires_in" |}
  | None => inl (Error ("Bad url: " ++ dquote ++ url_text url ++ dquote))
  end.

(** ** The tough-cookie jar, as far as the provider uses it

    The jar keeps its cookies in a store indexed by the domain and the path
    they were put under, as written.  A lookup and an insertion are made for
    a url, of which the host and the path count; every url of the source is
    an [https] url, and the jar is asked as for a request that is not made
    by a script, so no cookie is held back for being [secure] or
    [httpOnly]. *)

Record Site := mkSite {
  hostname : string;
  pathname : string
}.

Definition authHost : string := "auth.riotgames.com".

(** [https://auth.riotgames.com/], the url of lines 139 and 146. *)
Definition authSite : Site := mkSite authHost "/".
(** The url of [reauthToken] (line 7). *)
Definition signInSite : Site := mkSite authHost "/authorize".
(** The url of [getEntitlement] (line 164). *)
Definition entitlementsSite : Site :=
  mkSite "entitlements.auth.riotgames.com" "/api/token/v1".
(** The url of [getPUUID] (line 176). *)
Definition userinfoSite : Site := mkSite authHost "/userinfo".

Definition endsWith (s suffix : string) : bool :=
  String.prefix (text (rev (chars suffix))) (text (rev (chars s))).

(** tough-cookie's [canonicalDomain]: trimmed, one leading dot dropped,
    lower case. *)
Definition canonicalDomain (d : string) : string :=
  let l := trim (chars d) in
  text (map to_lower (match l with "."%char :: r => r | _ => l end)).

(** RFC 6265 domain matching of the request host against a cookie domain.
    The hosts of the source are names, not addresses. *)
Definition domainMatch (host cdomain : string) : bool :=
  String.eqb host cdomain || endsWith host ("." ++ cdomain).

(** RFC 6265 path matching. *)
Definition pathMatch (reqPath cookiePath : string) : bool :=
  String.eqb cookiePath reqPath
  || (String.prefix cookiePath reqPath
      && (endsWith cookiePath "/"
          || String.prefix "/"
               (String.substring (String.length cookiePath) 1 reqPath))).

(** RFC 6265 default path of a request path: up to its last slash, the
    slash left out, and [/] when that leaves nothing. *)
Definition defaultPath (reqPath : string) : string :=
  match chars reqPath with
  | "/"%char :: _ =>
      match snd (span (fun c => negb (ascii_eqb c "/")) (rev (chars reqPath))) with
      | _ :: (c :: r) => text (rev (c :: r))
      | _ => "/"
      end
  | _ => "/"
  end.

(** The public suffixes that matter to the hosts of the source: a domain
    of one label.  The list of the longer ones is not modelled. *)
Definition isPublicSuffix (d : string) : bool :=
  negb (existsb (ascii_eqb ".") (chars d)).

(** The store is searched under the domains [permuteDomain] lists for the
    host: the host itself and its parents down to the registrable domain.
    A cookie is found there when its domain, as written, is one of them. *)
Definition permuted (host d : string) : bool :=
  domainMatch host d && negb (isPublicSuffix d).

(** The cookie is one the jar sends to a url of the site. *)
Definition matches (site : Site) (c : Cookie) : bool :=
  permuted (hostname site) (domain c)
  && pathMatch (pathname site) (path c)
  && (if hostOnly c then String.eqb (domain c) (hostname site)
      else domainMatch (hostname site) (domain c)).

(** The cookie is one the jar sends to the authorization url. *)
Definition matchesAuthUrl (c : Cookie) : bool := matches authSite c.

(** [c.expiryTime() <= now] *)
Definition expiredAt (now : Z) (c : Cookie) : bool :=
  match expiryTime c with
  | Infinity => false
  | Time t => Number_leb t (Num now)
  end.

(** [c.expiryTime() > now] *)
Definition expiresAfter (now : Z) (c : Cookie) : bool :=
  match expiryTime c with
  | Infinity => true
  | Time t => Number_gtb t (Num now)
  end.

(** [jar.getCookies(url)] at time [now]: the matching cookies that have not
    expired.  The lookup also drops from the jar the matching cookies it
    finds expired. *)
Definition getCookies (now : Z) (site : Site) (jar : list Cookie)
  : list Cookie * list Cookie :=
  (List.filter (fun c => matches site c && negb (expiredAt now c)) jar,
   List.filter (fun c => negb (matches site c && expiredAt now c)) jar).

(** [jar.getCookiesSync('https://auth.riotgames.com/')] *)
Definition getCookiesSync (now : Z) (jar : list Cookie) : list Cookie * list Cookie :=
  getCookies now authSite jar.

Definition same_cookie (a b : Cookie) : bool :=
  String.eqb (domain a) (domain b) && String.eqb (path a) (path b)
  && String.eqb (key a) (key b).

Fixpoint putCookie (c : Cookie) (jar : list Cookie) : list Cookie :=
  match jar with
  | [] => [c]
  | x :: r => if same_cookie x c then c :: r else x :: putCookie c r
  end.

(** The rules of the [__Secure-] and [__Host-] name prefixes, which the jar
    enforces without a word: a cookie that breaks them is not stored. *)
Definition prefixRulesMet (c : Cookie) : bool :=
  (negb (String.prefix "__Secure-" (key c)) || secure c)
  && (negb (String.prefix "__Host-" (key c))
      || (secure c && hostOnly c && String.eqb (path c) "/")).

(** [jar.setCookie(cookie, url)]: the domain of a cookie that names one is
    not a public suffix and, in canonical form, domain-matches the host,
    otherwise the call throws; a cookie without a domain becomes a
    host-only cookie of the host.  A path that does not start with a slash
    is replaced by the default path of the url.  The cookies handed to the
    jar are new ones, made by the source or read from a response, whose
    [hostOnly] is not set yet: the jar sets it.  The cookie replaces the
    one stored under the same domain, path and name. *)
Definition setCookie (site : Site) (c : Cookie) (jar : list Cookie)
  : Exn + list Cookie :=
  let named := negb (String.eqb (domain c) EmptyString) in
  if named && isPublicSuffix (canonicalDomain (domain c)) then
    inl (Error "Cookie has domain set to a public suffix")
  else if named
          && negb (domainMatch (hostname site) (canonicalDomain (domain c))) then
    inl (Error ("Cookie not in this host's domain. Cookie:"
                ++ canonicalDomain (domain c) ++ " Request:" ++ hostname site))
  else
    let c' :=
      mkCookie (key c) (value c) (expiryTime c)
        (if named then domain c else hostname site)
        (if String.prefix "/" (path c) then path c
         else defaultPath (pathname site))
        (secure c) (httpOnly c) (negb named) in
    if prefixRulesMet c' then inr (putCookie c' jar) else inr jar.

(** [jar.setCookieSync(cookie, 'https://auth.riotgames.com/')] *)
Definition setCookieSync (c : Cookie) (jar : list Cookie) : Exn + list Cookie :=
  setCookie authSite c jar.

(** fetch-cookie stores the cookies of a response for the url of the
    request, with [ignoreError]. *)
Definition storeResponseCookies (site : Site) (cs : list Cookie)
    (jar : list Cookie) : list Cookie :=
  fold_left (fun j c => match setCookie site c j with inr j' => j' | inl _ => j end)
    cs jar.

(** [jar.serializeSync()], as [JSON.stringify] prints it: every cookie is
    written with its expiry in ISO form, which a cookie whose expiry is an
    invalid date does not have. *)
Definition serializeSync (jar : list Cookie) : Exn + Value :=
  if existsb (fun c => match expiryTime c with
                       | Time NaN => true
                       | _ => false
                       end) jar
  then inl (RangeError "Invalid time value")
  else inr (JarText jar).

(** [tough.CookieJar.deserializeSync(v)]: the text of a jar gives the jar
    back.  Anything else makes the call throw; the messages, which vary
    with the runtime, are given in short, and a [Str] stands for a text
    that is not the text of a jar. *)
Definition deserializeSync (v : Value) : Exn + list Cookie :=
  match v with
  | JarText cs => inr cs
  | Str _ => inl (Error "Unexpected token in JSON")
  | Null | Undefined | Numeric _ => inl (TypeError "Cannot read properties of the serialized jar")
  end.

(** ** Electron's session cookies *)

Module Electron.
Record Cookie := mkCookie {
  name : string;
  value : string;
  domain : string;
  path : string;
  secure : bool;
  httpOnly : bool;
  session : bool;
  expirationDate : Q     (* seconds since the epoch, with a fraction *)
}.
End Electron.

(** [new Date(seconds * 1000)]: the product is a double, the time value is
    its integer part, and the date is invalid beyond the range of [Date]. *)
Definition Date_of_seconds (seconds : Q) : Number :=
  let ms :=
    match Qnum seconds with
    | 0 => 0
    | Zpos n => trunc_of_double (Zpos n * 1000) (Zpos (Qden seconds))
    | Zneg n => - trunc_of_double (Zpos n * 1000) (Zpos (Qden seconds))
    end in
  if Z.abs ms <=? 8640000000000000 then Num ms else NaN.

(** The [tough.Cookie] that [logIn] builds from a cookie of the login
    window (lines 131-139); [hostOnly] is left unset, and [setCookieSync]
    sets it. *)
Definition toughCookie (cookie : Electron.Cookie) : Cookie :=
  {| key := Electron.name cookie;
     value := Electron.value cookie;
     expiryTime := Time (Date_of_seconds (Electron.expirationDate cookie));
     domain := Electron.domain cookie;
     path := Electron.path cookie;
     secure := Electron.secure cookie;
     httpOnly := Electron.httpOnly cookie;
     hostOnly := false |}.

(** ** The provider instance and its surroundings *)

(** A store handle: [context.store] of an Insomnia context. *)
Definition StoreId := nat.

Record Context := mkContext {
  ctx_store : StoreId
}.

(** The fields the constructor sets (lines 72-83), except [pending], which
    lives with the promises below, and [fetch], which is bound to [jar] at
    every assignment of [jar] and so never differs from it. *)
Record Provider := mkProvider {
  jar : list Cookie;
  expiresAt : Number;
  token : Value;
  entitlement : Value;
  puuid : Value;
  store : option StoreId
}.

(** [new RiotAuthProvider()] *)
Definition constructor : Provider :=
  {| jar := []; expiresAt := Num 0; token := Null; entitlement := Null;
     puuid := Null; store := None |}.

(** The object [_newInvoke] returns. *)
Module Result.
Record t := mk {
  entitlement : Value;
  token : Value;
  puuid : Value
}.
End Result.

Definition signInUrl : string :=
  "https://auth.riotgames.com/authorize?redirect_uri=https%3A%2F%2Fplayvalorant.com%2Fopt_in&client_id=play-valorant-web-prod&response_type=token%20id_token&nonce=1&scope=account%20openid".
Definition entitlementsUrl : string :=
  "https://entitlements.auth.riotgames.com/api/token/v1".
Definition userinfoUrl : string := "https://auth.riotgames.com/userinfo".

(** What the program does to the outside, in the order it does it. *)
Inductive Event :=
| Info (message : string)                    (* [logger.info] *)
| LoggedError (message : string) (cause : Exn)   (* [logger.error] *)
| HasItem (s : StoreId) (k : string)
| GetItem (s : StoreId) (k : string)
| SetItem (s : StoreId) (k : string) (v : Value)
| RemoveItem (s : StoreId) (k : string)
| Fetch (url : string) (bearer : option Value)
| LoadURL (url : string).                    (* the login window is opened *)

Record World := mkWorld {
  this : Provider;
  stores : gmap StoreId (gmap string Value);
  session : list Electron.Cookie;   (* the session's cookies of the auth domain *)
  trace : list Event
}.

(** How an asynchronous operation ends: it fulfils, it rejects, or it stays
    pending for ever (a login window nobody closes, a request nobody
    answers). *)
Inductive Outcome (A : Type) :=
| Return (a : A)
| Throw (e : Exn)
| Never.
Arguments Return {A} a.
Arguments Throw {A} e.
Arguments Never {A}.

(** Computations over the world. *)
Definition M (A : Type) : Type := World -> Outcome A * World.

Definition ret {A} (a : A) : M A := fun w => (Return a, w).
Definition throw {A} (e : Exn) : M A := fun w => (Throw e, w).
Definition bind {A B} (m : M A) (k : A -> M B) : M B :=
  fun w =>
    match m w with
    | (Return a, w') => k a w'
    | (Throw e, w') => (Throw e, w')
    | (Never, w') => (Never, w')
    end.

(** [try { m } catch(e) { handler e }] *)
Definition try_catch {A} (m : M A) (handler : Exn -> M A) : M A :=
  fun w =>
    match m w with
    | (Throw e, w') => handler e w'
    | r => r
    end.

Declare Scope M_scope.
Delimit Scope M_scope with M.
Notation "x <- m ;; k" := (bind m (fun x => k))
  (at level 100, m at next level, right associativity) : M_scope.
Notation "m ;; k" := (bind m (fun _ => k))
  (at level 100, right associativity) : M_scope.
Local Open Scope M_scope.

Definition lift {A} (r : Exn + A) : M A :=
  match r with
  | inr a => ret a
  | inl e => throw e
  end.

Definition emit (e : Event) : M unit :=
  fun w => (Return tt, mkWorld (this w) (stores w) (session w) (trace w ++ [e])%list).

Definition logger_info (message : string) : M unit := emit (Info message).
Definition logger_error (message : string) (cause : Exn) : M unit :=
  emit (LoggedError message cause).

Definition get_this : M Provider := fun w => (Return (this w), w).
Definition set_this (f : Provider -> Provider) : M unit :=
  fun w => (Return tt, mkWorld (f (this w)) (stores w) (session w) (trace w)).

Definition with_jar (j : list Cookie) (p : Provider) : Provider :=
  mkProvider j (expiresAt p) (token p) (entitlement p) (puuid p) (store p).
Definition with_expiresAt (n : Number) (p : Provider) : Provider :=
  mkProvider (jar p) n (token p) (entitlement p) (puuid p) (store p).
Definition with_token (v : Value) (p : Provider) : Provider :=
  mkProvider (jar p) (expiresAt p) v (entitlement p) (puuid p) (store p).
Definition with_entitlement (v : Value) (p : Provider) : Provider :=
  mkProvider (jar p) (expiresAt p) (token p) v (puuid p) (store p).
Definition with_puuid (v : Value) (p : Provider) : Provider :=
  mkProvider (jar p) (expiresAt p) (token p) (entitlement p) v (store p).
Definition with_store (s : option StoreId) (p : Provider) : Provider :=
  mkProvider (jar p) (expiresAt p) (token p) (entitlement p) (puuid p) s.

(** *** The plugin store: [hasItem], [getItem], [setItem], [removeItem]

    An item holds what was put under its key; a missing key reads as
    [null].  The store's own operations are taken not to fail. *)

Definition items (s : StoreId) (w : World) : gmap string Value :=
  default ∅ (stores w !! s).

Definition hasItem (s : StoreId) (k : string) : M bool :=
  emit (HasItem s k) ;;
  fun w => (Return (bool_decide (is_Some (items s w !! k))), w).

Definition getItem (s : StoreId) (k : string) : M Value :=
  emit (GetItem s k) ;;
  fun w => (Return (default Null (items s w !! k)), w).

Definition setItem (s : StoreId) (k : string) (v : Value) : M unit :=
  emit (SetItem s k v) ;;
  fun w => (Return tt,
            mkWorld (this w) (<[s := <[k := v]> (items s w)]> (stores w))
              (session w) (trace w)).

Definition removeItem (s : StoreId) (k : string) : M unit :=
  emit (RemoveItem s k) ;;
  fun w => (Return tt,
            mkWorld (this w) (<[s := delete k (items s w)]> (stores w))
              (session w) (trace w)).

(** *** What the outside answers during one run of [_newInvoke]

    Each question is asked at most once in a run, so one answer each is
    enough. *)

(** A response of the cookie-aware [fetch]: the cookies it sets go into the
    jar, then the caller gets the answer. *)
Record Reply (A : Type) := mkReply {
  set_cookies : list Cookie;
  answer : Outcome A
}.
Arguments mkReply {A} _ _.
Arguments set_cookies {A} _.
Arguments answer {A} _.

(** What the login window reports. *)
Inductive WindowEvent :=
| WillRedirect (url : string)
| Close.

Record Env := mkEnv {
  currentTime : Z;          (* [(new Date()).getTime()] at line 205 *)
  cookieTime : Z;           (* the clock when [hasLoginCookie] looks (line 146) *)
  authorizeTime : Z;        (* the clock when [reauthToken] sends its request *)
  entitlementsTime : Z;     (* the clock when [getEntitlement] sends its request *)
  userinfoTime : Z;         (* the clock when [getPUUID] sends its request *)
  renewedTime : Z;          (* [(new Date()).getTime()] at line 243 *)
  authorize : Reply (option string);
      (* [fetch(signInUrl)] and the [location] header of its response *)
  window : list WindowEvent;        (* the events of the login window *)
  windowCookies : list Electron.Cookie;
      (* the cookies the login flow leaves in the session *)
  entitlements : Value -> Reply Value;
      (* the [entitlements_token] of the reply to a request bearing the token *)
  userinfo : Value -> Reply Value
      (* the [sub] of the reply to a request bearing the token *)
}.

(** [this.fetch(url, ...)] at time [now]: fetch-cookie asks the jar for the
    cookies of the url, which drops the expired ones among them, sends the
    request, and stores the cookies of the response for that url.  No
    redirect is followed: [reauthToken] forbids it and the two lookups are
    taken to be answered at their own urls. *)
Definition fetch {A} (now : Z) (site : Site) (r : Reply A) : M A :=
  set_this (fun p =>
              with_jar (storeResponseCookies site (set_cookies r)
                          (snd (getCookies now site (jar p)))) p) ;;
  fun w => (answer r, w).

(** ** [showSignIn] (lines 25-68)

    The promise settles at the first of: a redirect to the callback url
    whose token data can be read, which resolves it with that data and the
    session's cookies of the auth domain (removed from the session on the
    way), and the window's [close], which rejects it.  A handler that throws
    leaves [foundToken] false and the promise pending.  With no such event
    the promise stays pending.  Electron's cookie calls are taken to
    succeed before the window reports anything further. *)

Definition callbackUrl : string := "https://playvalorant.com/opt_in".

Record SignIn := mkSignIn {
  tokenData : TokenData;
  cookies : list Electron.Cookie
}.

Definition takeSessionCookies (flow : list Electron.Cookie)
  : M (list Electron.Cookie) :=
  fun w =>
    (Return (session w ++ flow)%list, mkWorld (this w) (stores w) [] (trace w)).

Fixpoint windowEvents (events : list WindowEvent) (env : Env) : M SignIn :=
  match events with
  | [] => fun w => (Never, w)
  | WillRedirect url :: rest =>
      logger_info "Login window redirecting..." ;;
      if startsWith url callbackUrl then
        logger_info "Redirecting to url with tokens" ;;
        match getTokenDataFromURL (Some url) with
        | inr td =>
            cs <- takeSessionCookies (windowCookies env) ;;
            ret {| tokenData := td; cookies := cs |}
        | inl _ => windowEvents rest env
        end
      else windowEvents rest env
  | Close :: _ =>
      logger_info "Login window was closed" ;;
      throw (Reason "window closed")
  end.

Definition showSignIn (env : Env) : M SignIn :=
  emit (LoadURL signInUrl) ;;
  windowEvents (window env) env.

(** ** The methods of [RiotAuthProvider] *)

(** [checkStore] (lines 85-91) *)
Definition checkStore (s : StoreId) : M unit :=
  p <- get_this ;;
  match store p with
  | None => set_this (with_store (Some s))
  | Some _ => ret tt
  end.

(** [clearAccount] (lines 93-121) *)
Definition clearAccount : M unit :=
  logger_info "Clearing account" ;;
  (fun w => (Return tt, mkWorld (this w) (stores w) [] (trace w))) ;;
  p <- get_this ;;
  match store p with
  | Some s =>
      logger_info "Clearing saved store items" ;;
      removeItem s "expiresAt" ;;
      removeItem s "token" ;;
      removeItem s "entitlement" ;;
      removeItem s "puuid" ;;
      removeItem s "cookies"
  | None => ret tt
  end ;;
  set_this (with_jar []) ;;
  set_this (with_expiresAt (Num 0)) ;;
  set_this (with_token Null) ;;
  set_this (with_entitlement Null) ;;
  set_this (with_puuid Null).

(** The loop of [logIn] over the harvested cookies (lines 127-140). *)
Fixpoint keepCookies (cs : list Electron.Cookie) : M unit :=
  match cs with
  | [] => ret tt
  | cookie :: rest =>
      if Electron.session cookie then keepCookies rest
      else
        p <- get_this ;;
        j <- lift (setCookieSync (toughCookie cookie) (jar p)) ;;
        set_this (with_jar j) ;;
        keepCookies rest
  end.

(** [logIn] (lines 123-142) *)
Definition logIn (env : Env) : M TokenData :=
  logger_info "Signing in..." ;;
  data <- showSignIn env ;;
  keepCookies (cookies data) ;;
  ret (tokenData data).

(** [hasLoginCookie] (lines 144-147).  The jar's expiry check and the test
    of line 146 read the clock within one synchronous call; one reading
    stands for both. *)
Definition hasLoginCookie (env : Env) : M bool :=
  p <- get_this ;;
  let '(found, kept) := getCookiesSync (cookieTime env) (jar p) in
  set_this (with_jar kept) ;;
  ret (existsb (fun cookie => String.eqb (key cookie) "ssid"
                              && expiresAfter (cookieTime env) cookie) found).

(** [reauthToken] (lines 149-160) *)
Definition reauthToken (env : Env) : M TokenData :=
  emit (Fetch signInUrl None) ;;
  redirectUri <- fetch (authorizeTime env) signInSite (authorize env) ;;
  lift (getTokenDataFromURL redirectUri).

(** [getEntitlement] (lines 162-172) *)
Definition getEntitlement (env : Env) : M Value :=
  p <- get_this ;;
  emit (Fetch entitlementsUrl (Some (token p))) ;;
  fetch (entitlementsTime env) entitlementsSite (entitlements env (token p)).

(** [getPUUID] (lines 174-184) *)
Definition getPUUID (env : Env) : M Value :=
  p <- get_this ;;
  emit (Fetch userinfoUrl (Some (token p))) ;;
  fetch (userinfoTime env) userinfoSite (userinfo env (token p)).

(** *** [_newInvoke] (lines 186-259), block by block *)

(** Lines 190-203: the saved record is read when [expiresAt] is still 0 and
    the store has an [expiresAt] item. *)
Definition loadSaved (context : Context) : M unit :=
  p <- get_this ;;
  if Number_eqb (expiresAt p) (Num 0) then
    saved <- hasItem (ctx_store context) "expiresAt" ;;
    if saved : bool then
      logger_info "Loading saved Riot data from store" ;;
      v <- getItem (ctx_store context) "expiresAt" ;;
      set_this (with_expiresAt (parseInt v)) ;;
      v <- getItem (ctx_store context) "token" ;;
      set_this (with_token v) ;;
      v <- getItem (ctx_store context) "entitlement" ;;
      set_this (with_entitlement v) ;;
      v <- getItem (ctx_store context) "puuid" ;;
      set_this (with_puuid v) ;;
      v <- getItem (ctx_store context) "cookies" ;;
      j <- lift (deserializeSync v) ;;
      set_this (with_jar j)
    else ret tt
  else ret tt.

(** Lines 213-229: the body of the outer [try]. *)
Definition obtainToken (env : Env) : M TokenData :=
  cookie <- hasLoginCookie env ;;
  if cookie : bool then
    logger_info "Trying to re-auth with login cookie" ;;
    try_catch (reauthToken env) (fun _ => logIn env)
  else
    logger_info "Requesting login" ;;
    logIn env.

(** Lines 237-251: the credentials are derived from the new token, the
    expiry is computed and the five items are saved.  The arguments of
    [Promise.all] are evaluated in order: [setItem('expiresAt')] is called
    before the jar is serialized, the other three after it. *)
Definition derive (context : Context) (env : Env) (tokenData : TokenData)
  : M unit :=
  set_this (with_token (accessToken tokenData)) ;;
  logger_info "Loading entitlement and puuid" ;;
  v <- getEntitlement env ;;
  set_this (with_entitlement v) ;;
  v <- getPUUID env ;;
  set_this (with_puuid v) ;;
  set_this (with_expiresAt
              (Number_sub
                 (Number_add (Num (renewedTime env))
                    (Number_mul (ToNumber (expiresIn tokenData)) (Num 1000)))
                 (Num (5 * 60 * 1000)))) ;;
  p <- get_this ;;
  setItem (ctx_store context) "expiresAt" (Numeric (expiresAt p)) ;;
  serialized <- lift (serializeSync (jar p)) ;;
  setItem (ctx_store context) "cookies" serialized ;;
  setItem (ctx_store context) "token" (token p) ;;
  setItem (ctx_store context) "entitlement" (entitlement p) ;;
  setItem (ctx_store context) "puuid" (puuid p).

(** Lines 209-251: the renewal. *)
Definition renew (context : Context) (env : Env) : M unit :=
  logger_info "Token has expired" ;;
  tokenData <- try_catch (obtainToken env)
                 (fun e =>
                    logger_error "Error while refreshing token" e ;;
                    throw (Error "Riot login failed")) ;;
  derive context env tokenData.

(** Lines 254-258. *)
Definition snapshot : M Result.t :=
  p <- get_this ;;
  ret {| Result.entitlement := entitlement p;
         Result.token := token p;
         Result.puuid := puuid p |}.

Definition _newInvoke (context : Context) (env : Env) : M Result.t :=
  checkStore (ctx_store context) ;;
  loadSaved context ;;
  p <- get_this ;;
  (if Number_leb (expiresAt p) (Num (currentTime env))
   then renew context env
   else ret tt) ;;
  snapshot.

(** *** What else runs while the renewal waits

    A run of [_newInvoke] gives way at every [await], and other code may
    then work on the same instance.  The two lookups of lines 239 and 240
    wait for the network: [meanwhile] says what runs on the instance
    between the request of each and its response.  What runs there is
    another call of the program; its own outcome does not reach the run. *)

Inductive Await :=
| AwaitEntitlement      (* line 239 *)
| AwaitPUUID.           (* line 240 *)

Definition aside (m : M unit) : M unit :=
  fun w => (Return tt, snd (m w)).

Definition fetchDuring {A} (now : Z) (site : Site) (r : Reply A)
    (meanwhile : M unit) : M A :=
  set_this (fun p => with_jar (snd (getCookies now site (jar p))) p) ;;
  aside meanwhile ;;
  set_this (fun p =>
              with_jar (storeResponseCookies site (set_cookies r) (jar p)) p) ;;
  fun w => (answer r, w).

Definition deriveDuring (context : Context) (env : Env) (tokenData : TokenData)
    (meanwhile : Await -> M unit) : M unit :=
  set_this (with_token (accessToken tokenData)) ;;
  logger_info "Loading entitlement and puuid" ;;
  p <- get_this ;;
  emit (Fetch entitlementsUrl (Some (token p))) ;;
  v <- fetchDuring (entitlementsTime env) entitlementsSite
         (entitlements env (token p)) (meanwhile AwaitEntitlement) ;;
  set_this (with_entitlement v) ;;
  p <- get_this ;;
  emit (Fetch userinfoUrl (Some (token p))) ;;
  v <- fetchDuring (userinfoTime env) userinfoSite
         (userinfo env (token p)) (meanwhile AwaitPUUID) ;;
  set_this (with_puuid v) ;;
  set_this (with_expiresAt
              (Number_sub
                 (Number_add (Num (renewedTime env))
                    (Number_mul (ToNumber (expiresIn tokenData)) (Num 1000)))
                 (Num (5 * 60 * 1000)))) ;;
  p <- get_this ;;
  setItem (ctx_store context) "expiresAt" (Numeric (expiresAt p)) ;;
  serialized <- lift (serializeSync (jar p)) ;;
  setItem (ctx_store context) "cookies" serialized ;;
  setItem (ctx_store context) "token" (token p) ;;
  setItem (ctx_store context) "entitlement" (entitlement p) ;;
  setItem (ctx_store context) "puuid" (puuid p).

Definition _newInvokeDuring (context : Context) (env : Env)
    (meanwhile : Await -> M unit) : M Result.t :=
  checkStore (ctx_store context) ;;
  loadSaved context ;;
  p <- get_this ;;
  (if Number_leb (expiresAt p) (Num (currentTime env))
   then
     logger_info "Token has expired" ;;
     tokenData <- try_catch (obtainToken env)
                    (fun e =>
                       logger_error "Error while refreshing token" e ;;
                       throw (Error "Riot login failed")) ;;
     deriveDuring context env tokenData meanwhile
   else ret tt) ;;
  snapshot.

(** Nothing else runs. *)
Definition alone : Await -> M unit := fun _ => ret tt.

(** ** [invoke] (lines 261-279) and the promise it shares

    [this.pending] refers to the promise [_newInvoke(context)] returned.  A
    call of [invoke] runs to its [await] (lines 263-269); when the promise
    has settled the caller is resumed, gets the promise's outcome and, in
    the [finally] block, sets [this.pending] to null.  The effects of a run
    of [_newInvoke] are applied where its promise settles: between the call
    and that point other calls of [invoke] read nothing but [this.pending].
    The operations below are issued one after the other; a call that works
    on the instance while a run waits is what [_newInvokeDuring] is for. *)

Definition Caller := nat.

Inductive PromiseState :=
| Running (context : Context)       (* [_newInvoke(context)], not settled *)
| Stalled                           (* waiting for an answer that never comes *)
| Settled (o : Exn + Result.t).     (* rejected or fulfilled *)

Record Loop := mkLoop {
  world : World;
  pending : option nat;                     (* [this.pending] *)
  promises : list PromiseState;             (* the promises made so far *)
  awaiting : list (Caller * nat);           (* callers at [await this.pending] *)
  delivered : list (Caller * (Exn + Result.t))   (* what [invoke] gave each caller *)
}.

(** Lines 263-269, up to the suspension. *)
Definition call (c : Caller) (context : Context) (l : Loop) : Loop :=
  let '(p, ps) :=
    match pending l with
    | None => (length (promises l), (promises l ++ [Running context])%list)
    | Some p => (p, promises l)
    end in
  mkLoop (world l) (Some p) ps (awaiting l ++ [(c, p)])%list (delivered l).

(** The promise [p] settles under the answers [env]. *)
Definition settle (p : nat) (env : Env) (l : Loop) : Loop :=
  match promises l !! p with
  | Some (Running context) =>
      let '(o, w) := _newInvoke context env (world l) in
      let s :=
        match o with
        | Return r => Settled (inr r)
        | Throw e => Settled (inl e)
        | Never => Stalled
        end in
      mkLoop w (pending l) (<[p := s]> (promises l)) (awaiting l) (delivered l)
  | _ => l
  end.

(** The first suspension of caller [c], and the list without it. *)
Fixpoint suspension (c : Caller) (a : list (Caller * nat))
  : option (nat * list (Caller * nat)) :=
  match a with
  | [] => None
  | (c', p) :: r =>
      if Nat.eqb c' c then Some (p, r)
      else match suspension c r with
           | Some (q, r') => Some (q, (c', p) :: r')
           | None => None
           end
  end.

(** Lines 269-278 after the suspension: the caller gets the outcome and
    clears [this.pending]. *)
Definition resume (c : Caller) (l : Loop) : Loop :=
  match suspension c (awaiting l) with
  | Some (p, rest) =>
      match promises l !! p with
      | Some (Settled o) =>
          mkLoop (world l) None (promises l) rest (delivered l ++ [(c, o)])%list
      | _ => l
      end
  | None => l
  end.

(** One call of [invoke] with nothing else going on meanwhile. *)
Definition invoke (c : Caller) (context : Context) (env : Env) (l : Loop) : Loop :=
  let l1 := call c context l in
  match pending l1 with
  | Some p => resume c (settle p env l1)
  | None => l1
  end.

(** A fresh instance in a given outside world. *)
Definition boot (saved : gmap StoreId (gmap string Value))
    (cookies : list Electron.Cookie) : Loop :=
  mkLoop (mkWorld constructor saved cookies []) None [] [] [].

(** Operations issued one after the other, each over before the next
    begins. *)
Inductive Op :=
| Invoke (c : Caller) (context : Context) (env : Env)
| ClearAccount.

Definition perform (l : Loop) (op : Op) : Loop :=
  match op with
  | Invoke c context env => invoke c context env l
  | ClearAccount =>
      mkLoop (snd (clearAccount (world l))) (pending l) (promises l)
        (awaiting l) (delivered l)
  end.

Definition run (ops : list Op) (l : Loop) : Loop := fold_left perform ops l.

(** *** Counting in a trace *)

Definition is_info (m : string) (e : Event) : bool :=
  match e with Info m' => String.eqb m m' | _ => false end.
Definition is_fetch (url : string) (e : Event) : bool :=
  match e with Fetch u _ => String.eqb url u | _ => false end.
Definition is_store_read (e : Event) : bool :=
  match e with HasItem _ _ | GetItem _ _ => true | _ => false end.
Definition is_store_write (e : Event) : bool :=
  match e with SetItem _ _ _ | RemoveItem _ _ => true | _ => false end.
Definition is_get (k : string) (e : Event) : bool :=
  match e with GetItem _ k' => String.eqb k k' | _ => false end.

Definition count (p : Event -> bool) (t : list Event) : nat :=
  length (List.filter p t).

(** Entries into the renewal's fallback chain (line 209). *)
Definition renewals : list Event -> nat := count (is_info "Token has expired").
(** Silent attempts: requests of [reauthToken]. *)
Definition silentAttempts : list Event -> nat := count (is_fetch signInUrl).
(** Interactive logins: calls of [logIn]. *)
Definition logins : list Event -> nat := count (is_info "Signing in...").
(** Calls of [getEntitlement] and of [getPUUID]. *)
Definition entitlementLookups : list Event -> nat := count (is_fetch entitlementsUrl).
Definition puuidLookups : list Event -> nat := count (is_fetch userinfoUrl).
(** Loads of the saved record (line 194). *)
Definition loads : list Event -> nat :=
  count (is_info "Loading saved Riot data from store").

(** *** Relating the world before and after a computation *)

Definition respects (R : World -> World -> Prop) {A} (m : M A) : Prop :=
  forall w, R w (snd (m w)).

(** Nothing changed but the jar, the session's cookies and the trace. *)
Definition SameCredentials (w w' : World) : Prop :=
  stores w' = stores w
  /\ expiresAt (this w') = expiresAt (this w)
  /\ token (this w') = token (this w)
  /\ entitlement (this w') = entitlement (this w)
  /\ puuid (this w') = puuid (this w)
  /\ store (this w') = store (this w).

(** The trace grew by events that all satisfy [p]. *)
Definition Adds (p : Event -> bool) (w w' : World) : Prop :=
  exists d, trace w' = (trace w ++ d)%list /\ forallb p d = true.

(** The events of the login window ([showSignIn]). *)
Definition window_event (e : Event) : bool :=
  match e with
  | Info m =>
      String.eqb m "Login window redirecting..."
      || String.eqb m "Redirecting to url with tokens"
      || String.eqb m "Login window was closed"
  | LoadURL u => String.eqb u signInUrl
  | _ => false
  end.

(** The events of an interactive login ([logIn]). *)
Definition login_event (e : Event) : bool :=
  window_event e || is_info "Signing in..." e.

(** The events of token acquisition (lines 213-229 and what they call). *)
Definition acquisition_event (e : Event) : bool :=
  login_event e
  || match e with
     | Info m =>
         String.eqb m "Trying to re-auth with login cookie"
         || String.eqb m "Requesting login"
     | Fetch u None => String.eqb u signInUrl
     | _ => false
     end.

(** The events of a renewal (lines 209-251 and what they call): anything
    but reading the store, removing from it, or announcing a load. *)
Definition renewal_event (e : Event) : bool :=
  match e with
  | Info m => negb (String.eqb m "Loading saved Riot data from store")
  | HasItem _ _ | GetItem _ _ | RemoveItem _ _ => false
  | _ => true
  end.

(** The events of reading the saved record (lines 190-203). *)
Definition load_event (e : Event) : bool :=
  match e with
  | Info m => String.eqb m "Loading saved Riot data from store"
  | HasItem _ _ | GetItem _ _ => true
  | _ => false
  end.

Definition is_logged_error (e : Event) : bool :=
  match e with LoggedError _ _ => true | _ => false end.

(** The session jar holds a login cookie whose own expiry is in the
    future: an [ssid] cookie for the authorization url that expires after
    [now]. *)
Definition validLoginCookie (now : Z) (cookie : Cookie) : bool :=
  String.eqb (key cookie) "ssid" && matchesAuthUrl cookie
  && expiresAfter now cookie.

Definition holdsLoginCookie (now : Z) (j : list Cookie) : bool :=
  existsb (validLoginCookie now) j.

(** The world after [hasLoginCookie] has looked at time [now]. *)
Definition pruned (now : Z) (w : World) : World :=
  mkWorld (with_jar (snd (getCookiesSync now (jar (this w)))) (this w))
    (stores w) (session w) (trace w).

(** What [reauthToken] yields for an answer of the authorization endpoint. *)
Definition reauthOutcome (r : Reply (option string)) : Outcome TokenData :=
  match answer r with
  | Return location =>
      match getTokenDataFromURL location with
      | inr td => Return td
      | inl e => Throw e
      end
  | Throw e => Throw e
  | Never => Never
  end.

(** The world with one more event in its trace. *)
Definition logged (e : Event) (w : World) : World :=
  mkWorld (this w) (stores w) (session w) (trace w ++ [e])%list.

(** The world with another provider state. *)
Definition updated (f : Provider -> Provider) (w : World) : World :=
  mkWorld (f (this w)) (stores w) (session w) (trace w).

(** The object line 254 builds from the fields. *)
Definition credentials (p : Provider) : Result.t :=
  {| Result.entitlement := entitlement p;
     Result.token := token p;
     Result.puuid := puuid p |}.

(** Lines 188-203: what [_newInvoke] does before it reads the clock. *)
Definition prelude (context : Context) : M unit :=
  checkStore (ctx_store context) ;; loadSaved context.

(** The provider after [checkStore(s)]. *)
Definition checked (s : StoreId) (p : Provider) : Provider :=
  match store p with
  | None => with_store (Some s) p
  | Some _ => p
  end.

(** The provider after lines 195-198 have read the saved record of store
    [s], short of the jar. *)
Definition restored (s : StoreId) (w : World) : Provider :=
  let item k := default Null (items s w !! k) in
  with_puuid (item "puuid")
    (with_entitlement (item "entitlement")
       (with_token (item "token")
          (with_expiresAt (parseInt (item "expiresAt"))
             (checked s (this w))))).

(** The events of lines 192-200. *)
Definition loading (s : StoreId) : list Event :=
  [HasItem s "expiresAt"; Info "Loading saved Riot data from store";
   GetItem s "expiresAt"; GetItem s "token"; GetItem s "entitlement";
   GetItem s "puuid"; GetItem s "cookies"].

(** The expiry line 243 computes. *)
Definition newExpiry (env : Env) (tokenData : TokenData) : Number :=
  Number_sub
    (Number_add (Num (renewedTime env))
       (Number_mul (ToNumber (expiresIn tokenData)) (Num 1000)))
    (Num 300000).

(** The jar after a request of the cookie-aware [fetch] at time [now] and
    its response. *)
Definition received {A} (now : Z) (site : Site) (r : Reply A) (p : Provider)
  : Provider :=
  with_jar (storeResponseCookies site (set_cookies r)
              (snd (getCookies now site (jar p)))) p.

(** The store after lines 245-251 have saved the fields of [p]. *)
Definition saved (s : StoreId) (p : Provider)
    (st : gmap StoreId (gmap string Value)) : gmap StoreId (gmap string Value) :=
  <[s := <["puuid" := puuid p]>
           (<["entitlement" := entitlement p]>
              (<["token" := token p]>
                 (<["cookies" := JarText (jar p)]>
                    (<["expiresAt" := Numeric (expiresAt p)]>
                       (default ∅ (st !! s))))))]> st.

(** The provider after the two lookups answered [e] and [u]. *)
Definition derived (env : Env) (tokenData : TokenData) (e u : Value)
    (p : Provider) : Provider :=
  let tok := accessToken tokenData in
  with_expiresAt (newExpiry env tokenData)
    (with_puuid u
       (received (userinfoTime env) userinfoSite (userinfo env tok)
          (with_entitlement e
             (received (entitlementsTime env) entitlementsSite
                (entitlements env tok) (with_token tok p))))).

(** The events of the derivation, by how far it gets. *)
Definition lookup1 (tok : Value) : list Event :=
  [Info "Loading entitlement and puuid"; Fetch entitlementsUrl (Some tok)].
Definition lookup2 (tok : Value) : list Event :=
  [Info "Loading entitlement and puuid"; Fetch entitlementsUrl (Some tok);
   Fetch userinfoUrl (Some tok)].
Definition saving (s : StoreId) (p : Provider) : list Event :=
  [Info "Loading entitlement and puuid";
   Fetch entitlementsUrl (Some (token p));
   Fetch userinfoUrl (Some (token p));
   SetItem s "expiresAt" (Numeric (expiresAt p));
   SetItem s "cookies" (JarText (jar p));
   SetItem s "token" (token p);
   SetItem s "entitlement" (entitlement p);
   SetItem s "puuid" (puuid p)].

Definition savingExpiry (s : StoreId) (env : Env) (td : TokenData) : list Event :=
  [Info "Loading entitlement and puuid";
   Fetch entitlementsUrl (Some (accessToken td));
   Fetch userinfoUrl (Some (accessToken td));
   SetItem s "expiresAt" (Numeric (newExpiry env td))].

(** The world where the first lookup stops, and where the second does. *)
Definition afterLookup1 (env : Env) (td : TokenData) (w : World) : World :=
  mkWorld (received (entitlementsTime env) entitlementsSite
             (entitlements env (accessToken td))
             (with_token (accessToken td) (this w)))
    (stores w) (session w) (trace w ++ lookup1 (accessToken td))%list.
Definition afterLookup2 (env : Env) (td : TokenData) (v : Value) (w : World)
  : World :=
  mkWorld (received (userinfoTime env) userinfoSite
             (userinfo env (accessToken td))
             (with_entitlement v
                (received (entitlementsTime env) entitlementsSite
                   (entitlements env (accessToken td))
                   (with_token (accessToken td) (this w)))))
    (stores w) (session w) (trace w ++ lookup2 (accessToken td))%list.
Definition afterSaving (context : Context) (env : Env) (td : TokenData)
    (v u : Value) (w : World) : World :=
  mkWorld (derived env td v u (this w))
    (saved (ctx_store context) (derived env td v u (this w)) (stores w))
    (session w)
    (trace w ++ saving (ctx_store context) (derived env td v u (this w)))%list.

(** The world where the save stops when the jar cannot be serialized: the
    fields are set and the [expiresAt] item is written, nothing more. *)
Definition afterExpiry (context : Context) (env : Env) (td : TokenData)
    (v u : Value) (w : World) : World :=
  mkWorld (derived env td v u (this w))
    (<[ctx_store context :=
         <["expiresAt" := Numeric (newExpiry env td)]>
           (default ∅ (stores w !! ctx_store context))]> (stores w))
    (session w)
    (trace w ++ savingExpiry (ctx_store context) env td)%list.

(** The world after [clearAccount]. *)
Definition cleared (w : World) : World :=
  mkWorld (mkProvider [] (Num 0) Null Null Null (store (this w)))
    (match store (this w) with
     | Some s =>
         <[s := delete "cookies"
                  (delete "puuid"
                     (delete "entitlement"
                        (delete "token"
                           (delete "expiresAt" (default ∅ (stores w !! s))))))]>
           (stores w)
     | None => stores w
     end)
    []
    (trace w
     ++ Info "Clearing account"
        :: match store (this w) with
           | Some s =>
               [Info "Clearing saved store items";
                RemoveItem s "expiresAt"; RemoveItem s "token";
                RemoveItem s "entitlement"; RemoveItem s "puuid";
                RemoveItem s "cookies"]
           | None => []
           end)%list.

(** *** Several callers of [invoke] at once *)

Definition calls (cs : list (Caller * Context)) (l : Loop) : Loop :=
  fold_left (fun l cc => call (fst cc) (snd cc) l) cs l.

Definition resumes (cs : list Caller) (l : Loop) : Loop :=
  fold_left (fun l c => resume c l) cs l.

Arguments calls : simpl never.
Arguments resumes : simpl never.

(** Nobody is inside [invoke]. *)
Definition quiescent (l : Loop) : Prop :=
  pending l = None /\ awaiting l = [].

(** Caller [c] starts [invoke]; the [others] call while its promise is
    pending; the promise settles under [env]; the callers resume in the
    order in which they suspended. *)
Definition concurrently (c : Caller) (context : Context)
    (others : list (Caller * Context)) (env : Env) (l : Loop) : Loop :=
  resumes (c :: map fst others)
    (settle (length (promises l)) env (calls others (call c context l))).


(** How many of the invocations start while [expiresAt] is 0. *)
Fixpoint startsAtZero (ops : list Op) (l : Loop) : nat :=
  match ops with
  | [] => 0
  | op :: rest =>
      (match op with
       | Invoke _ _ _ =>
           if Number_eqb (expiresAt (this (world l))) (Num 0) then 1 else 0
       | ClearAccount => 0
       end + startsAtZero rest (perform l op))%nat
  end.

(** What [invoke] hands a caller for an outcome of the shared promise. *)
Definition handed (o : Outcome Result.t) : option (Exn + Result.t) :=
  match o with
  | Return r => Some (inr r)
  | Throw e => Some (inl e)
  | Never => None
  end.

(** *** Generations of credentials

    [issuedE t e] says that the entitlements endpoint has answered [e] to a
    request bearing the token [t], and [issuedP t u] that the user-info
    endpoint has answered [u]: credentials are of one generation when the
    entitlement and the player id were issued for the token they stand
    next to.  Three nulls, the state of a new or cleared instance, count
    as one generation too. *)

Section Generations.

Variables issuedE issuedP : Value -> Value -> Prop.

Definition sameGeneration (t e u : Value) : Prop :=
  (t = Null /\ e = Null /\ u = Null) \/ (issuedE t e /\ issuedP t u).

Definition providerGeneration (p : Provider) : Prop :=
  sameGeneration (token p) (entitlement p) (puuid p).

Definition resultGeneration (r : Result.t) : Prop :=
  sameGeneration (Result.token r) (Result.entitlement r) (Result.puuid r).

(** Every saved record is of one generation. *)
Definition savedGeneration (st : gmap StoreId (gmap string Value)) : Prop :=
  forall s m, st !! s = Some m ->
    sameGeneration (default Null (m !! "token"))
      (default Null (m !! "entitlement")) (default Null (m !! "puuid")).

(** The answers of [env] are answers the provider has issued. *)
Definition honest (env : Env) : Prop :=
  (forall t v, answer (entitlements env t) = Return v -> issuedE t v)
  /\ (forall t v, answer (userinfo env t) = Return v -> issuedP t v).

Definition honestOp (op : Op) : Prop :=
  match op with
  | Invoke _ _ env => honest env
  | ClearAccount => True
  end.

(** The instance is of one generation, or else its [expiresAt] is not
    later than [T]. *)
Definition settledGeneration (T : Z) (w : World) : Prop :=
  savedGeneration (stores w)
  /\ (providerGeneration (this w)
      \/ Number_leb (expiresAt (this w)) (Num T) = true).

Definition fulfilledGeneration (s : PromiseState) : Prop :=
  match s with
  | Settled (inr r) => resultGeneration r
  | _ => True
  end.

Definition deliveredGeneration (d : Caller * (Exn + Result.t)) : Prop :=
  match snd d with
  | inr r => resultGeneration r
  | inl _ => True
  end.

(** What holds of the loop between operations. *)
Definition consistent (T : Z) (l : Loop) : Prop :=
  settledGeneration T (world l)
  /\ Forall fulfilledGeneration (promises l)
  /\ Forall deliveredGeneration (delivered l).

End Generations.

(** The clock readings of the invocations do not go backwards from [T]. *)
Fixpoint chronological (T : Z) (ops : list Op) : Prop :=
  match ops with
  | [] => True
  | Invoke _ _ env :: rest => T <= currentTime env /\ chronological (currentTime env) rest
  | ClearAccount :: rest => chronological T rest
  end.

(** The last clock reading. *)
Fixpoint clockAfter (T : Z) (ops : list Op) : Z :=
  match ops with
  | [] => T
  | Invoke _ _ env :: rest => clockAfter (currentTime env) rest
  | ClearAccount :: rest => clockAfter T rest
  end.

(** ** Scenarios

    Concrete runs on which the statements below are evaluated. *)

Definition context0 : Context := mkContext 0%nat.

(** An endpoint that is down. *)
Definition down : Value -> Reply Value :=
  fun _ => mkReply [] (Throw (FetchError "ECONNRESET")).

(** The provider's two endpoints: what they answer to the two tokens of
    the scenarios, and to anything else. *)
Definition riotEntitlements (t : Value) : Reply Value :=
  mkReply []
    (Return match t with
            | Str s =>
                if String.eqb s "tok1" then Str "ent1"
                else if String.eqb s "tok2" then Str "ent2"
                else Undefined
            | _ => Undefined
            end).
Definition riotUserinfo (t : Value) : Reply Value :=
  mkReply []
    (Return match t with
            | Str s =>
                if String.eqb s "tok1" || String.eqb s "tok2" then Str "u1"
                else Undefined
            | _ => Undefined
            end).
Definition riotIssuedE (t e : Value) : Prop :=
  answer (riotEntitlements t) = Return e.
Definition riotIssuedP (t u : Value) : Prop :=
  answer (riotUserinfo t) = Return u.

(** The [ssid] cookie the login flow leaves behind, expiring [seconds]
    after the epoch. *)
Definition ssidCookie (seconds : Z) : Electron.Cookie :=
  Electron.mkCookie "ssid" "s1" "auth.riotgames.com" "/" true true false
    (seconds # 1).

(** A first login: the clock reads 1000000 when the expiry is checked and
    1060000 when the login is over; the window is redirected to the callback
    with [tok1], valid for 3600 seconds; both lookups answer. *)
Definition firstLogin : Env :=
  {| currentTime := 1000000;
     cookieTime := 1000000;
     authorizeTime := 1000000;
     entitlementsTime := 1060000;
     userinfoTime := 1060000;
     renewedTime := 1060000;
     authorize := mkReply [] (Throw (FetchError "ECONNRESET"));
     window :=
       [WillRedirect "https://auth.riotgames.com/login";
        WillRedirect "https://playvalorant.com/opt_in#access_token=tok1&scope=openid&token_type=Bearer&expires_in=3600"];
     windowCookies := [ssidCookie 9000];
     entitlements := riotEntitlements;
     userinfo := riotUserinfo |}.

(** The same login, but the [ssid] cookie of the window carries an
    expiration date beyond the range of [Date]. *)
Definition invalidCookieDate : Env :=
  {| currentTime := 1000000;
     cookieTime := 1000000;
     authorizeTime := 1000000;
     entitlementsTime := 1060000;
     userinfoTime := 1060000;
     renewedTime := 1060000;
     authorize := mkReply [] (Throw (FetchError "ECONNRESET"));
     window :=
       [WillRedirect "https://playvalorant.com/opt_in#access_token=tok1&scope=openid&token_type=Bearer&expires_in=3600"];
     windowCookies := [ssidCookie 10000000000000000];
     entitlements := riotEntitlements;
     userinfo := riotUserinfo |}.

(** The instance after that first login, from an empty store. *)
Definition loggedIn : Loop := invoke 1%nat context0 firstLogin (boot ∅ []).

(** Later the token has expired and so has the cookie: the user logs in
    again and gets [tok2], but the entitlements endpoint is down. *)
Definition entitlementsDown : Env :=
  {| currentTime := 9500000;
     cookieTime := 9500000;
     authorizeTime := 9500000;
     entitlementsTime := 9560000;
     userinfoTime := 9560000;
     renewedTime := 9560000;
     authorize := mkReply [] (Throw (FetchError "ECONNRESET"));
     window :=
       [WillRedirect "https://playvalorant.com/opt_in#access_token=tok2&scope=openid&token_type=Bearer&expires_in=3600"];
     windowCookies := [ssidCookie 18000];
     entitlements := down;
     userinfo := riotUserinfo |}.

(** The user closes the login window. *)
Definition windowClosed : Env :=
  {| currentTime := 1000000;
     cookieTime := 1000000;
     authorizeTime := 1000000;
     entitlementsTime := 1060000;
     userinfoTime := 1060000;
     renewedTime := 1060000;
     authorize := mkReply [] (Throw (FetchError "ECONNRESET"));
     window := [WillRedirect "https://auth.riotgames.com/login"; Close];
     windowCookies := [];
     entitlements := riotEntitlements;
     userinfo := riotUserinfo |}.

(** The token has expired while the login cookie is still good; the
    authorization endpoint redirects to the callback without a token. *)
Definition loginRequired : Env :=
  {| currentTime := 5000000;
     cookieTime := 5000000;
     authorizeTime := 5000000;
     entitlementsTime := 5000200;
     userinfoTime := 5000200;
     renewedTime := 5000200;
     authorize :=
       mkReply [] (Return (Some "https://playvalorant.com/opt_in#error=login_required"));
     window := [Close];
     windowCookies := [];
     entitlements := riotEntitlements;
     userinfo := riotUserinfo |}.

(** The same moment, with a redirect whose url has no fragment at all. *)
Definition fragmentMissing : Env :=
  {| currentTime := 5000000;
     cookieTime := 5000000;
     authorizeTime := 5000000;
     entitlementsTime := 5000200;
     userinfoTime := 5000200;
     renewedTime := 5000200;
     authorize := mkReply [] (Return (Some "https://playvalorant.com/opt_in"));
     window := [Close];
     windowCookies := [];
     entitlements := riotEntitlements;
     userinfo := riotUserinfo |}.

(** The same moment, with no [location] header in the response. *)
Definition notRedirected : Env :=
  {| currentTime := 5000000;
     cookieTime := 5000000;
     authorizeTime := 5000000;
     entitlementsTime := 5060000;
     userinfoTime := 5060000;
     renewedTime := 5060000;
     authorize := mkReply [] (Return None);
     window :=
       [WillRedirect "https://playvalorant.com/opt_in#access_token=tok2&scope=openid&token_type=Bearer&expires_in=3600"];
     windowCookies := [ssidCookie 18000];
     entitlements := riotEntitlements;
     userinfo := riotUserinfo |}.

(** A saved record whose [expiresAt] item reads as zero. *)
Definition zeroRecord : gmap StoreId (gmap string Value) :=
  {[ 0%nat := {[ "expiresAt" := Str "0"; "token" := Str "tok0";
                 "entitlement" := Str "ent0"; "puuid" := Str "u0";
                 "cookies" := JarText [] ]} ]}.


(** A saved record that is still good at 1000000. *)
Definition freshRecord : gmap StoreId (gmap string Value) :=
  {[ 0%nat := {[ "expiresAt" := Str "1100000"; "token" := Str "tok0";
                 "entitlement" := Str "ent0"; "puuid" := Str "u0";
                 "cookies" := JarText [] ]} ]}.

(** The user signs out while the run waits for the entitlement. *)
Definition signOutDuringLookup : Await -> M unit :=
  fun a =>
    match a with
    | AwaitEntitlement => clearAccount
    | AwaitPUUID => ret tt
    end.

(** ** Notions for the properties of the single methods *)

(** The keys of the saved record (lines 108-112 and 246-250). *)
Definition recordKeys : list string :=
  ["expiresAt"; "token"; "entitlement"; "puuid"; "cookies"].

(** The events of the derivation and of what follows it (lines 233-251). *)
Definition derivation_event (e : Event) : bool :=
  match e with
  | Info m => String.eqb m "Loading entitlement and puuid"
  | LoggedError _ _ | SetItem _ _ _ => true
  | Fetch u (Some _) => String.eqb u entitlementsUrl || String.eqb u userinfoUrl
  | _ => false
  end.

(** The event of the login window that settles the promise of
    [showSignIn]: the first redirect to the callback url or the first
    [close], whichever the window reports first. *)
Fixpoint decisive (events : list WindowEvent) : option WindowEvent :=
  match events with
  | [] => None
  | WillRedirect url :: rest =>
      if startsWith url callbackUrl then Some (WillRedirect url)
      else decisive rest
  | Close :: _ => Some Close
  end.

(** What the [URL] parser makes of its input before it reads it: leading
    and trailing C0 control characters and spaces are stripped, then every
    tab and newline is removed. *)
Definition cleaned (l : list ascii) : list ascii :=
  List.filter (fun c => negb (is_tab_or_newline c))
    (rev (snd (span is_c0_or_space (rev (snd (span is_c0_or_space l)))))).

(** The unreserved characters of RFC 3986: letters, digits, [-], [.], [_]
    and [~].  Tokens and counts of seconds are written with them. *)
Definition is_unreserved (c : ascii) : bool :=
  is_alpha c || is_digit c
  || ascii_eqb c "-" || ascii_eqb c "." || ascii_eqb c "_" || ascii_eqb c "~".

(** The characters of a run of parameters written with them. *)
Definition is_param_char (c : ascii) : bool :=
  is_unreserved c || ascii_eqb c "=" || ascii_eqb c "&".

(** The login window is opened and nobody ever uses or closes it. *)
Definition windowLeftOpen : Env :=
  {| currentTime := 1000000;
     cookieTime := 1000000;
     authorizeTime := 1000000;
     entitlementsTime := 1060000;
     userinfoTime := 1060000;
     renewedTime := 1060000;
     authorize := mkReply [] (Throw (FetchError "ECONNRESET"));
     window := [WillRedirect "https://auth.riotgames.com/login"];
     windowCookies := [];
     entitlements := riotEntitlements;
     userinfo := riotUserinfo |}.

(** A saved record without its [cookies] item. *)
Definition recordWithoutCookies : gmap StoreId (gmap string Value) :=
  {[ 0%nat := {[ "expiresAt" := Str "1100000"; "token" := Str "tok0";
                 "entitlement" := Str "ent0"; "puuid" := Str "u0" ]} ]}.

(** A store that also holds an item of somebody else. *)
Definition sharedStore : gmap StoreId (gmap string Value) :=
  {[ 0%nat := {[ "theme" := Str "dark" ]} ]}.

(** A schedule of four steps around one run of [_newInvoke]: [c1] calls
    [invoke] and its run settles; [c2] calls [invoke] before [c1] has
    resumed, and so awaits the settled promise; [c1] resumes; [c3] calls
    [invoke], which starts a new run; then [c2] resumes. *)
Definition lateJoin (c1 c2 c3 : Caller) (context1 context2 context3 : Context)
    (env : Env) (l : Loop) : Loop :=
  resume c2
    (call c3 context3
       (resume c1
          (call c2 context2
             (settle (length (promises l)) env (call c1 context1 l))))).

(** The integers a double holds exactly, and prints with all their digits:
    those up to 2^53 either way. *)
Definition safeInteger (n : Number) : bool :=
  match n with
  | Num z => Z.abs z <=? 2 ^ 53
  | NaN => false
  end.

(** The cookie the jar holds for a persistent [ssid] cookie of the login
    window that is one of [auth.riotgames.com] with path [/] and expires
    at [t]. *)
Definition keptLoginCookie (e : Electron.Cookie) (t : Z) : Cookie :=
  mkCookie "ssid" (Electron.value e) (Time (Num t)) authHost "/"
    (Electron.secure e) (Electron.httpOnly e) false.

(** The text [p] occurs in [s]. *)
Fixpoint occurs (p s : string) : bool :=
  String.prefix p s
  || match s with
     | EmptyString => false
     | String _ r => occurs p r
     end.

(** A url whose part before the fragment is written in ASCII, without a
    percent sign and without the mark [xn--] of an encoded label: its host
    is what is written, in lower case. *)
Definition plainUrl (url : string) : bool :=
  let front := fst (span (fun c => negb (ascii_eqb c "#")) (chars url)) in
  forallb (fun c => code c <? 128) front
  && negb (existsb (ascii_eqb "%") front)
  && negb (occurs "xn--" (text (map to_lower front))).

(** * Properties *)

(** ** Running computations *)

Lemma bind_Return {A B} (m : M A) (k : A -> M B) w a w' :
  m w = (Return a, w') -> bind m k w = k a w'.
Proof. intros H. unfold bind. now rewrite H. Qed.

Lemma bind_Throw {A B} (m : M A) (k : A -> M B) w e w' :
  m w = (Throw e, w') -> bind m k w = (Throw e, w').
Proof. intros H. unfold bind. now rewrite H. Qed.

Lemma bind_Never {A B} (m : M A) (k : A -> M B) w w' :
  m w = (Never, w') -> bind m k w = (Never, w').
Proof. intros H. unfold bind. now rewrite H. Qed.

Lemma try_catch_Return {A} (m : M A) h w a w' :
  m w = (Return a, w') -> try_catch m h w = (Return a, w').
Proof. intros H. unfold try_catch. now rewrite H. Qed.

Lemma try_catch_Throw {A} (m : M A) h w e w' :
  m w = (Throw e, w') -> try_catch m h w = h e w'.
Proof. intros H. unfold try_catch. now rewrite H. Qed.

Lemma try_catch_Never {A} (m : M A) h w w' :
  m w = (Never, w') -> try_catch m h w = (Never, w').
Proof. intros H. unfold try_catch. now rewrite H. Qed.

Lemma emit_run e w : emit e w = (Return tt, logged e w).
Proof. reflexivity. Qed.

Lemma set_this_run f w : set_this f w = (Return tt, updated f w).
Proof. reflexivity. Qed.

(** ** What token acquisition leaves alone *)

Section Acquisition.

Variable R : World -> World -> Prop.
Variable allowed : Event -> bool.
Hypothesis R_refl : forall w, R w w.
Hypothesis R_trans : forall a b c, R a b -> R b c -> R a c.
Hypothesis R_emit : forall e w, allowed e = true -> R w (logged e w).
Hypothesis R_jar : forall j w, R w (updated (with_jar j) w).
Hypothesis R_session : forall cs w,
  R w (mkWorld (this w) (stores w) cs (trace w)).

Lemma respects_ret {A} (a : A) : respects R (ret a).
Proof. intros w. apply R_refl. Qed.

Lemma respects_throw {A} e : respects R (@throw A e).
Proof. intros w. apply R_refl. Qed.

Lemma respects_lift {A} (r : Exn + A) : respects R (lift r).
Proof. destruct r; [apply respects_throw | apply respects_ret]. Qed.

Lemma respects_bind {A B} (m : M A) (k : A -> M B) :
  respects R m -> (forall a, respects R (k a)) -> respects R (bind m k).
Proof.
  intros Hm Hk w. specialize (Hm w). unfold bind.
  destruct (m w) as [[a|e|] w1]; simpl in *; trivial.
  eapply R_trans; [exact Hm | apply Hk].
Qed.

Lemma respects_try_catch {A} (m : M A) h :
  respects R m -> (forall e, respects R (h e)) -> respects R (try_catch m h).
Proof.
  intros Hm Hh w. specialize (Hm w). unfold try_catch.
  destruct (m w) as [[a|e|] w1]; simpl in *; trivial.
  eapply R_trans; [exact Hm | apply Hh].
Qed.

Lemma respects_emit e : allowed e = true -> respects R (emit e).
Proof. intros H w. now apply R_emit. Qed.

Lemma respects_get_this : respects R get_this.
Proof. intros w. apply R_refl. Qed.

Lemma respects_set_jar j : respects R (set_this (with_jar j)).
Proof. intros w. apply R_jar. Qed.

Lemma respects_fetch {A} now site (r : Reply A) :
  respects R (fetch now site r).
Proof.
  intros w. unfold fetch, bind. simpl.
  apply (R_jar (storeResponseCookies site (set_cookies r)
                  (snd (getCookies now site (jar (this w))))) w).
Qed.

Lemma respects_keepCookies cs : respects R (keepCookies cs).
Proof.
  induction cs as [|c rest IH]; simpl; [apply respects_ret|].
  destruct (Electron.session c); [exact IH|].
  apply respects_bind; [apply respects_get_this | intros p].
  apply respects_bind; [apply respects_lift | intros j].
  apply respects_bind; [apply respects_set_jar | intros _; exact IH].
Qed.

Lemma respects_hasLoginCookie env : respects R (hasLoginCookie env).
Proof.
  apply respects_bind; [apply respects_get_this | intros p].
  destruct (getCookiesSync (cookieTime env) (jar p)) as [found kept].
  apply respects_bind; [apply respects_set_jar | intros _; apply respects_ret].
Qed.

Section Window.

Hypothesis allowed_window : forall e, window_event e = true -> allowed e = true.

Lemma respects_windowEvents events env : respects R (windowEvents events env).
Proof.
  induction events as [|[url|] rest IH]; simpl.
  - intros w. apply R_refl.
  - apply respects_bind; [now apply respects_emit, allowed_window | intros _].
    destruct (startsWith url callbackUrl); [|exact IH].
    apply respects_bind; [now apply respects_emit, allowed_window | intros _].
    destruct (getTokenDataFromURL (Some url)); [exact IH|].
    apply respects_bind; [|intros; apply respects_ret].
    intros w. apply R_session.
  - apply respects_bind; [now apply respects_emit, allowed_window | intros _].
    apply respects_throw.
Qed.

Lemma respects_showSignIn env : respects R (showSignIn env).
Proof.
  apply respects_bind; [now apply respects_emit, allowed_window | intros _].
  apply respects_windowEvents.
Qed.

(** [logIn] after its first line. *)
Lemma respects_signedIn env :
  respects R (bind (showSignIn env)
                (fun data => bind (keepCookies (cookies data))
                               (fun _ => ret (tokenData data)))).
Proof.
  apply respects_bind; [apply respects_showSignIn | intros d].
  apply respects_bind; [apply respects_keepCookies | intros _].
  apply respects_ret.
Qed.

Lemma respects_logIn env :
  allowed (Info "Signing in...") = true -> respects R (logIn env).
Proof.
  intros H. apply respects_bind; [now apply respects_emit | intros _].
  apply respects_signedIn.
Qed.

End Window.

Hypothesis allowed_acquisition :
  forall e, acquisition_event e = true -> allowed e = true.

Lemma respects_reauthToken env : respects R (reauthToken env).
Proof.
  apply respects_bind; [now apply respects_emit, allowed_acquisition | intros _].
  apply respects_bind; [apply respects_fetch | intros u; apply respects_lift].
Qed.

Lemma respects_obtainToken env : respects R (obtainToken env).
Proof.
  assert (Hl : forall e, window_event e = true -> allowed e = true).
  { intros e H. apply allowed_acquisition.
    unfold acquisition_event, login_event. now rewrite H. }
  apply respects_bind; [apply respects_hasLoginCookie | intros [|]].
  - apply respects_bind; [now apply respects_emit, allowed_acquisition | intros _].
    apply respects_try_catch; [apply respects_reauthToken|].
    intros _. apply respects_logIn; [exact Hl | now apply allowed_acquisition].
  - apply respects_bind; [now apply respects_emit, allowed_acquisition | intros _].
    apply respects_logIn; [exact Hl | now apply allowed_acquisition].
Qed.

End Acquisition.

Lemma SameCredentials_refl w : SameCredentials w w.
Proof. now repeat split. Qed.

Lemma SameCredentials_trans a b c :
  SameCredentials a b -> SameCredentials b c -> SameCredentials a c.
Proof.
  unfold SameCredentials.
  intros (?&?&?&?&?&?) (?&?&?&?&?&?). repeat split; congruence.
Qed.

Lemma Adds_refl p w : Adds p w w.
Proof. exists []. split; [now rewrite app_nil_r | reflexivity]. Qed.

Lemma Adds_trans p a b c : Adds p a b -> Adds p b c -> Adds p a c.
Proof.
  intros (d1 & H1 & F1) (d2 & H2 & F2). exists (d1 ++ d2)%list. split.
  - now rewrite H2, H1, app_assoc.
  - rewrite forallb_app, F1, F2. reflexivity.
Qed.

Lemma Adds_logged (p : Event -> bool) e w : p e = true -> Adds p w (logged e w).
Proof. intros H. exists [e]. split; [reflexivity | simpl; now rewrite H]. Qed.

Lemma Adds_same_trace p w w' : trace w' = trace w -> Adds p w w'.
Proof. intros H. exists []. split; [now rewrite app_nil_r | reflexivity]. Qed.

(** Token acquisition touches the jar, the session's cookies and the
    trace, nothing else. *)
Lemma obtainToken_same env w : SameCredentials w (snd (obtainToken env w)).
Proof.
  apply (respects_obtainToken SameCredentials (fun _ => true)); clear.
  - apply SameCredentials_refl.
  - apply SameCredentials_trans.
  - intros. now repeat split.
  - intros. now repeat split.
  - intros. now repeat split.
  - reflexivity.
Qed.

(** Token acquisition adds acquisition events only. *)
Lemma obtainToken_adds env w :
  Adds acquisition_event w (snd (obtainToken env w)).
Proof.
  apply (respects_obtainToken (Adds acquisition_event) acquisition_event); clear.
  - apply Adds_refl.
  - apply Adds_trans.
  - intros. now apply Adds_logged.
  - intros. now apply Adds_same_trace.
  - intros. now apply Adds_same_trace.
  - trivial.
Qed.

(** An interactive login logs [Signing in...] and then window events only. *)
Lemma logIn_trace env w :
  exists d,
    trace (snd (logIn env w)) = (trace w ++ Info "Signing in..." :: d)%list
    /\ forallb window_event d = true.
Proof.
  unfold logIn, logger_info, bind at 1. rewrite emit_run.
  destruct (respects_signedIn (Adds window_event) window_event
              (Adds_refl _) (Adds_trans _)
              (fun e w H => Adds_logged window_event e w H)
              (fun j w => Adds_same_trace window_event w _ eq_refl)
              (fun cs w => Adds_same_trace window_event w _ eq_refl)
              (fun e H => H) env (logged (Info "Signing in...") w))
    as (d & Hd & Fd).
  exists d. split; [|exact Fd]. rewrite Hd. cbn [trace logged].
  now rewrite <- app_assoc.
Qed.

(** ** Counting *)

Lemma count_app p (a b : list Event) :
  count p (a ++ b)%list = (count p a + count p b)%nat.
Proof. unfold count. now rewrite List.filter_app, length_app. Qed.

Lemma count_none (p q : Event -> bool) (d : list Event) :
  forallb p d = true -> (forall e, p e = true -> q e = false) -> count q d = 0%nat.
Proof.
  intros F H. unfold count. induction d as [|e d IH]; [reflexivity|].
  simpl in *. apply andb_true_iff in F as [Fe Fd].
  rewrite (H e Fe). now apply IH.
Qed.

(** ** The store operations *)

Lemma hasItem_run s k w :
  hasItem s k w
  = (Return (bool_decide (is_Some (items s w !! k))), logged (HasItem s k) w).
Proof. reflexivity. Qed.

Lemma getItem_run s k w :
  getItem s k w = (Return (default Null (items s w !! k)), logged (GetItem s k) w).
Proof. reflexivity. Qed.

(** ** The promise shared by concurrent callers *)

Lemma calls_pending others : forall l p,
  pending l = Some p ->
  calls others l
  = mkLoop (world l) (Some p) (promises l)
      (awaiting l ++ map (fun cc => (fst cc, p)) others)%list (delivered l).
Proof.
  induction others as [|[c ctx] rest IH]; intros l p Hp; simpl.
  - rewrite app_nil_r. destruct l; simpl in *; now subst.
  - unfold calls in *. simpl. rewrite (IH _ p).
    + unfold call. rewrite Hp. simpl. now rewrite <- app_assoc.
    + unfold call. rewrite Hp. reflexivity.
Qed.

Lemma resumes_settled o p cs : forall l rest,
  promises l !! p = Some (Settled o) ->
  awaiting l = (map (fun c => (c, p)) cs ++ rest)%list ->
  cs <> [] ->
  resumes cs l
  = mkLoop (world l) None (promises l) rest
      (delivered l ++ map (fun c => (c, o)) cs)%list.
Proof.
  induction cs as [|c cs IH]; intros l rest Hp Ha Hne; [congruence|].
  unfold resumes in *. simpl.
  assert (Hr : resume c l
               = mkLoop (world l) None (promises l)
                   (map (fun c => (c, p)) cs ++ rest)%list
                   (delivered l ++ [(c, o)])%list).
  { unfold resume. rewrite Ha. simpl. rewrite Nat.eqb_refl. now rewrite Hp. }
  rewrite Hr. destruct cs as [|c' cs'].
  - reflexivity.
  - rewrite (IH _ rest); simpl; try congruence; trivial.
    now rewrite <- app_assoc.
Qed.

Lemma resumes_unsettled p cs : forall l,
  (forall o, promises l !! p <> Some (Settled o)) ->
  Forall (fun a => snd a = p) (awaiting l) ->
  resumes cs l = l.
Proof.
  induction cs as [|c cs IH]; intros l Hp Ha; [reflexivity|].
  unfold resumes in *. simpl.
  assert (Hr : resume c l = l).
  { unfold resume. destruct (suspension c (awaiting l)) as [[q r]|] eqn:E; trivial.
    assert (q = p) as ->.
    { clear -E Ha. revert q r E. induction Ha as [|[c' p'] a Hx Ha IH]; intros q r E.
      - discriminate.
      - simpl in *. destruct (Nat.eqb c' c).
        + now inversion E; subst.
        + destruct (suspension c a) as [[q' r']|]; [|discriminate].
          inversion E; subst. now apply (IH _ r'). }
    destruct (promises l !! p) as [[| |o]|] eqn:E'; trivial.
    now destruct (Hp o). }
  rewrite Hr. now apply IH.
Qed.

Lemma settled_or_stalled (o : Outcome Result.t) :
  match o with
  | Return r => Settled (inr r)
  | Throw e => Settled (inl e)
  | Never => Stalled
  end
  = match handed o with Some r => Settled r | None => Stalled end.
Proof. now destruct o. Qed.

(** However many callers join, the promise is made once, [_newInvoke] runs
    once, and every caller is handed its outcome. *)
Lemma concurrently_run l c context others env :
  quiescent l ->
  concurrently c context others env l
  = let p := length (promises l) in
    let '(o, w') := _newInvoke context env (world l) in
    match handed o with
    | Some r =>
        mkLoop w' None (promises l ++ [Settled r])%list []
          (delivered l ++ map (fun c => (c, r)) (c :: map fst others))%list
    | None =>
        mkLoop w' (Some p) (promises l ++ [Stalled])%list
          (map (fun c => (c, p)) (c :: map fst others)) (delivered l)
    end.
Proof.
  intros [Hp Ha]. unfold concurrently.
  set (p := length (promises l)).
  assert (Hc : call c context l
               = mkLoop (world l) (Some p) (promises l ++ [Running context])%list
                   [(c, p)] (delivered l)).
  { unfold call. now rewrite Hp, Ha. }
  rewrite Hc. rewrite (calls_pending others _ p) by reflexivity. simpl.
  unfold settle. simpl.
  rewrite (list_lookup_middle (promises l) [] (Running context) p) by reflexivity.
  destruct (_newInvoke context env (world l)) as [o w'].
  rewrite settled_or_stalled.
  assert (Hi : forall s, <[p := s]> (promises l ++ [Running context])%list
                      = (promises l ++ [s])%list).
  { intros s. replace p with (length (promises l) + 0)%nat by (subst p; lia).
    now rewrite insert_app_r. }
  rewrite Hi.
  assert (Hm : map (fun cc : Caller * Context => (fst cc, p)) others
               = map (fun c => (c, p)) (map fst others)).
  { now rewrite map_map. }
  rewrite Hm.
  destruct (handed o) as [r|].
  - rewrite (resumes_settled r p (c :: map fst others) _ []); simpl.
    + reflexivity.
    + apply (list_lookup_middle (promises l) [] (Settled r) p). reflexivity.
    + now rewrite app_nil_r.
    + discriminate.
  - rewrite (resumes_unsettled p); simpl; trivial.
    + intros o'. rewrite (list_lookup_middle (promises l) [] Stalled p) by reflexivity.
      discriminate.
    + constructor; [reflexivity|].
      clear. induction (map fst others); simpl; constructor; trivial.
Qed.

(** One caller alone. *)
Lemma invoke_alone l c context env :
  quiescent l -> invoke c context env l = concurrently c context [] env l.
Proof.
  intros [Hp Ha]. unfold invoke, concurrently, calls, resumes, call.
  rewrite Hp. reflexivity.
Qed.

(** ** The derivation, case by case *)

Lemma get_this_run w : get_this w = (Return (this w), w).
Proof. reflexivity. Qed.

Lemma getEntitlement_run env w :
  getEntitlement env w
  = (answer (entitlements env (token (this w))),
     updated (received (entitlementsTime env) entitlementsSite
                (entitlements env (token (this w))))
       (logged (Fetch entitlementsUrl (Some (token (this w)))) w)).
Proof. reflexivity. Qed.

Lemma getPUUID_run env w :
  getPUUID env w
  = (answer (userinfo env (token (this w))),
     updated (received (userinfoTime env) userinfoSite
                (userinfo env (token (this w))))
       (logged (Fetch userinfoUrl (Some (token (this w)))) w)).
Proof. reflexivity. Qed.

Lemma removeItem_run s k w :
  removeItem s k w
  = (Return tt,
     mkWorld (this w) (<[s := delete k (items s w)]> (stores w)) (session w)
       (trace w ++ [RemoveItem s k])%list).
Proof. reflexivity. Qed.

Lemma setItem_run s k v w :
  setItem s k v w
  = (Return tt,
     mkWorld (this w) (<[s := <[k := v]> (items s w)]> (stores w)) (session w)
       (trace w ++ [SetItem s k v])%list).
Proof. reflexivity. Qed.

(** One step of a computation at a time; the fields of the world are
    projected after each step, and the store's maps are left folded. *)
Ltac fields :=
  cbn [this stores session trace logged updated items fst snd received
       with_jar with_token with_entitlement with_puuid with_expiresAt with_store
       jar expiresAt token entitlement puuid store].

Ltac flat :=
  unfold logged, updated; fields; rewrite <- ?app_assoc; cbn [app].

Ltac exec :=
  repeat (cbv beta iota; unfold items, logged, updated; fields;
          first [ rewrite emit_run | rewrite set_this_run | rewrite get_this_run
                | rewrite getEntitlement_run | rewrite getPUUID_run
                | rewrite setItem_run | rewrite hasItem_run
                | rewrite getItem_run | rewrite removeItem_run ]);
  cbv beta iota; unfold items, logged, updated; fields.

Lemma derive_run context env td w :
  derive context env td w
  = match answer (entitlements env (accessToken td)) with
    | Throw e => (Throw e, afterLookup1 env td w)
    | Never => (Never, afterLookup1 env td w)
    | Return v =>
        match answer (userinfo env (accessToken td)) with
        | Throw e => (Throw e, afterLookup2 env td v w)
        | Never => (Never, afterLookup2 env td v w)
        | Return u =>
            match serializeSync (jar (derived env td v u (this w))) with
            | inr _ => (Return tt, afterSaving context env td v u w)
            | inl e => (Throw e, afterExpiry context env td v u w)
            end
        end
    end.
Proof.
  unfold derive, bind, logger_info, afterLookup1, afterLookup2, afterSaving,
    afterExpiry, lookup1, lookup2, saving, savingExpiry.
  exec.
  destruct (answer (entitlements env (accessToken td))) as [v|e|];
    [ | flat; reflexivity | flat; reflexivity ].
  exec.
  destruct (answer (userinfo env (accessToken td))) as [u|e|];
    [ | flat; reflexivity | flat; reflexivity ].
  exec. unfold derived, newExpiry. fields. unfold serializeSync.
  match goal with
  | |- context [existsb ?f ?j] => destruct (existsb f j)
  end; unfold lift, throw, ret; [flat; reflexivity|].
  exec. unfold saved. fields.
  rewrite !lookup_insert_eq. cbn [default from_option].
  rewrite !insert_insert_eq, <- !app_assoc.
  reflexivity.
Qed.

(** ** [_newInvoke], block by block *)

Lemma checkStore_run s w : checkStore s w = (Return tt, updated (checked s) w).
Proof.
  unfold checkStore, bind. rewrite get_this_run. cbv beta iota.
  destruct w as [p st se t]. unfold updated, checked. simpl.
  destruct (store p); reflexivity.
Qed.

Lemma prelude_run context w :
  prelude context w
  = if Number_eqb (expiresAt (this w)) (Num 0) then
      if bool_decide (is_Some (items (ctx_store context) w !! "expiresAt")) then
        match deserializeSync
                (default Null (items (ctx_store context) w !! "cookies")) with
        | inr j =>
            (Return tt,
             mkWorld (with_jar j (restored (ctx_store context) w)) (stores w)
               (session w) (trace w ++ loading (ctx_store context))%list)
        | inl e =>
            (Throw e,
             mkWorld (restored (ctx_store context) w) (stores w) (session w)
               (trace w ++ loading (ctx_store context))%list)
        end
      else (Return tt,
            logged (HasItem (ctx_store context) "expiresAt")
              (updated (checked (ctx_store context)) w))
    else (Return tt, updated (checked (ctx_store context)) w).
Proof.
  unfold prelude, bind. rewrite checkStore_run. cbv beta iota.
  unfold loadSaved, bind, logger_info. exec.
  assert (He : expiresAt (checked (ctx_store context) (this w))
               = expiresAt (this w)).
  { unfold checked. now destruct (store (this w)). }
  rewrite He.
  destruct (Number_eqb (expiresAt (this w)) (Num 0)); [|reflexivity].
  exec.
  destruct (bool_decide (is_Some (default ∅ (stores w !! ctx_store context)
                                  !! "expiresAt"))); [|reflexivity].
  exec. unfold restored, loading, items.
  destruct (deserializeSync
              (default Null (default ∅ (stores w !! ctx_store context)
                             !! "cookies"))) as [e|j];
    unfold lift, throw, ret; exec; flat; reflexivity.
Qed.

(** The three ways through the prelude. *)
Ltac prelude_cases :=
  rewrite prelude_run;
  repeat match goal with
         | |- context [if Number_eqb ?a ?b then _ else _] =>
             destruct (Number_eqb a b)
         | |- context [if bool_decide ?P then _ else _] =>
             destruct (bool_decide P)
         | |- context [match deserializeSync ?x with inl _ => _ | inr _ => _ end] =>
             destruct (deserializeSync x)
         end;
  cbn [fst snd].

Lemma prelude_not_Never context w : fst (prelude context w) <> Never.
Proof. prelude_cases; discriminate. Qed.

Lemma prelude_outside context w :
  stores (snd (prelude context w)) = stores w
  /\ session (snd (prelude context w)) = session w.
Proof. prelude_cases; now split. Qed.

Lemma prelude_adds context w : Adds load_event w (snd (prelude context w)).
Proof.
  prelude_cases.
  - now exists (loading (ctx_store context)).
  - now exists (loading (ctx_store context)).
  - now exists [HasItem (ctx_store context) "expiresAt"].
  - now apply Adds_same_trace.
Qed.

Lemma _newInvoke_prelude_Return context env w w1 :
  prelude context w = (Return tt, w1) ->
  _newInvoke context env w
  = if Number_leb (expiresAt (this w1)) (Num (currentTime env))
    then bind (renew context env) (fun _ => snapshot) w1
    else (Return (credentials (this w1)), w1).
Proof.
  unfold prelude, _newInvoke, bind. intros H.
  destruct (checkStore (ctx_store context) w) as [[[]|e|] wa]; try discriminate.
  destruct (loadSaved context wa) as [[[]|e|] wb]; try discriminate.
  inversion H; subst. simpl.
  destruct (Number_leb _ _); reflexivity.
Qed.

Lemma _newInvoke_prelude_Throw context env w e w1 :
  prelude context w = (Throw e, w1) ->
  _newInvoke context env w = (Throw e, w1).
Proof.
  unfold prelude, _newInvoke, bind. intros H.
  destruct (checkStore (ctx_store context) w) as [[[]|e'|] wa]; try discriminate.
  - destruct (loadSaved context wa) as [[[]|e'|] wb]; try discriminate.
    now inversion H.
  - now inversion H.
Qed.

Lemma renew_acquisition_fails context env w e w2 :
  obtainToken env (logged (Info "Token has expired") w) = (Throw e, w2) ->
  renew context env w
  = (Throw (Error "Riot login failed"),
     logged (LoggedError "Error while refreshing token" e) w2).
Proof.
  intros H. unfold renew, bind, try_catch, logger_info. rewrite emit_run.
  now rewrite H.
Qed.

Lemma renew_acquisition_stalls context env w w2 :
  obtainToken env (logged (Info "Token has expired") w) = (Never, w2) ->
  renew context env w = (Never, w2).
Proof.
  intros H. unfold renew, bind, try_catch, logger_info. rewrite emit_run.
  now rewrite H.
Qed.

Lemma renew_acquired context env w td w2 :
  obtainToken env (logged (Info "Token has expired") w) = (Return td, w2) ->
  renew context env w = derive context env td w2.
Proof.
  intros H. unfold renew, bind, try_catch, logger_info. rewrite emit_run.
  now rewrite H.
Qed.

Lemma snapshot_run w : snapshot w = (Return (credentials (this w)), w).
Proof. reflexivity. Qed.

(** ** The ways through [_newInvoke] *)

Lemma _newInvoke_fresh context env w w1 :
  prelude context w = (Return tt, w1) ->
  Number_leb (expiresAt (this w1)) (Num (currentTime env)) = false ->
  _newInvoke context env w = (Return (credentials (this w1)), w1).
Proof.
  intros Hp Hx. now rewrite (_newInvoke_prelude_Return _ _ _ _ Hp), Hx.
Qed.

Lemma _newInvoke_acquisition_fails context env w w1 e w2 :
  prelude context w = (Return tt, w1) ->
  Number_leb (expiresAt (this w1)) (Num (currentTime env)) = true ->
  obtainToken env (logged (Info "Token has expired") w1) = (Throw e, w2) ->
  _newInvoke context env w
  = (Throw (Error "Riot login failed"),
     logged (LoggedError "Error while refreshing token" e) w2).
Proof.
  intros Hp Hx Ho. rewrite (_newInvoke_prelude_Return _ _ _ _ Hp), Hx.
  unfold bind. now rewrite (renew_acquisition_fails _ _ _ _ _ Ho).
Qed.

Lemma _newInvoke_acquisition_stalls context env w w1 w2 :
  prelude context w = (Return tt, w1) ->
  Number_leb (expiresAt (this w1)) (Num (currentTime env)) = true ->
  obtainToken env (logged (Info "Token has expired") w1) = (Never, w2) ->
  _newInvoke context env w = (Never, w2).
Proof.
  intros Hp Hx Ho. rewrite (_newInvoke_prelude_Return _ _ _ _ Hp), Hx.
  unfold bind. now rewrite (renew_acquisition_stalls _ _ _ _ Ho).
Qed.

(** A renewal, by what the token acquisition yields. *)
Lemma renew_run context env w :
  renew context env w
  = match obtainToken env (logged (Info "Token has expired") w) with
    | (Return td, w2) => derive context env td w2
    | (Throw e, w2) =>
        (Throw (Error "Riot login failed"),
         logged (LoggedError "Error while refreshing token" e) w2)
    | (Never, w2) => (Never, w2)
    end.
Proof.
  unfold renew, bind, try_catch, logger_info. rewrite emit_run.
  now destruct (obtainToken env (logged (Info "Token has expired") w))
    as [[td|e|] w2].
Qed.

Lemma _newInvoke_entitlement_fails context env w w1 td w2 e :
  prelude context w = (Return tt, w1) ->
  Number_leb (expiresAt (this w1)) (Num (currentTime env)) = true ->
  obtainToken env (logged (Info "Token has expired") w1) = (Return td, w2) ->
  answer (entitlements env (accessToken td)) = Throw e ->
  _newInvoke context env w = (Throw e, afterLookup1 env td w2).
Proof.
  intros Hp Hx Ho He. rewrite (_newInvoke_prelude_Return _ _ _ _ Hp), Hx.
  unfold bind. rewrite (renew_acquired _ _ _ _ _ Ho), derive_run.
  now rewrite He.
Qed.

Lemma _newInvoke_puuid_fails context env w w1 td w2 v e :
  prelude context w = (Return tt, w1) ->
  Number_leb (expiresAt (this w1)) (Num (currentTime env)) = true ->
  obtainToken env (logged (Info "Token has expired") w1) = (Return td, w2) ->
  answer (entitlements env (accessToken td)) = Return v ->
  answer (userinfo env (accessToken td)) = Throw e ->
  _newInvoke context env w = (Throw e, afterLookup2 env td v w2).
Proof.
  intros Hp Hx Ho He Hu. rewrite (_newInvoke_prelude_Return _ _ _ _ Hp), Hx.
  unfold bind. rewrite (renew_acquired _ _ _ _ _ Ho), derive_run.
  now rewrite He, Hu.
Qed.

Lemma _newInvoke_save_fails context env w w1 td w2 v u e :
  prelude context w = (Return tt, w1) ->
  Number_leb (expiresAt (this w1)) (Num (currentTime env)) = true ->
  obtainToken env (logged (Info "Token has expired") w1) = (Return td, w2) ->
  answer (entitlements env (accessToken td)) = Return v ->
  answer (userinfo env (accessToken td)) = Return u ->
  serializeSync (jar (derived env td v u (this w2))) = inl e ->
  _newInvoke context env w = (Throw e, afterExpiry context env td v u w2).
Proof.
  intros Hp Hx Ho He Hu Hs. rewrite (_newInvoke_prelude_Return _ _ _ _ Hp), Hx.
  unfold bind. rewrite (renew_acquired _ _ _ _ _ Ho), derive_run.
  now rewrite He, Hu, Hs.
Qed.

Lemma _newInvoke_renewed context env w w1 td w2 v u text :
  prelude context w = (Return tt, w1) ->
  Number_leb (expiresAt (this w1)) (Num (currentTime env)) = true ->
  obtainToken env (logged (Info "Token has expired") w1) = (Return td, w2) ->
  answer (entitlements env (accessToken td)) = Return v ->
  answer (userinfo env (accessToken td)) = Return u ->
  serializeSync (jar (derived env td v u (this w2))) = inr text ->
  _newInvoke context env w
  = (Return (credentials (derived env td v u (this w2))),
     afterSaving context env td v u w2).
Proof.
  intros Hp Hx Ho He Hu Hs. rewrite (_newInvoke_prelude_Return _ _ _ _ Hp), Hx.
  unfold bind. rewrite (renew_acquired _ _ _ _ _ Ho), derive_run.
  now rewrite He, Hu, Hs.
Qed.

(** The trace up to the end of token acquisition. *)
Lemma trace_of_acquisition context env w w1 o w2 :
  prelude context w = (Return tt, w1) ->
  obtainToken env (logged (Info "Token has expired") w1) = (o, w2) ->
  exists d1 d2,
    trace w1 = (trace w ++ d1)%list
    /\ forallb load_event d1 = true
    /\ trace w2 = (trace w ++ d1 ++ Info "Token has expired" :: d2)%list
    /\ forallb acquisition_event d2 = true.
Proof.
  intros Hp Ho.
  destruct (prelude_adds context w) as (d1 & H1 & F1). rewrite Hp in H1.
  destruct (obtainToken_adds env (logged (Info "Token has expired") w1))
    as (d2 & H2 & F2).
  rewrite Ho in H2. cbn [snd trace logged] in H1, H2.
  exists d1, d2. repeat split; trivial.
  rewrite H2, H1, <- !app_assoc. reflexivity.
Qed.

(** The credentials before and after token acquisition. *)
Lemma credentials_of_acquisition env w1 o w2 :
  obtainToken env (logged (Info "Token has expired") w1) = (o, w2) ->
  SameCredentials w1 w2.
Proof.
  intros Ho.
  pose proof (obtainToken_same env (logged (Info "Token has expired") w1)) as H.
  now rewrite Ho in H.
Qed.

(** What the callers of a shared run get. *)
Lemma concurrently_outcome l c context others env o w' :
  quiescent l ->
  _newInvoke context env (world l) = (o, w') ->
  world (concurrently c context others env l) = w'
  /\ forall r, handed o = Some r ->
       delivered (concurrently c context others env l)
       = (delivered l ++ map (fun c => (c, r)) (c :: map fst others))%list
       /\ pending (concurrently c context others env l) = None
       /\ awaiting (concurrently c context others env l) = [].
Proof.
  intros Hq Hr. rewrite (concurrently_run _ _ _ _ _ Hq). cbv zeta.
  rewrite Hr. destruct (handed o) as [r|].
  - split; [reflexivity|]. intros r' [= <-]. now repeat split.
  - split; [reflexivity|]. discriminate.
Qed.

(** ** The trace of a renewal *)

Lemma counts_of_renewal d1 d2 d3 :
  forallb load_event d1 = true ->
  forallb acquisition_event d2 = true ->
  renewals (d1 ++ Info "Token has expired" :: d2 ++ d3)%list
  = S (renewals d3)
  /\ entitlementLookups (d1 ++ Info "Token has expired" :: d2 ++ d3)%list
     = entitlementLookups d3
  /\ puuidLookups (d1 ++ Info "Token has expired" :: d2 ++ d3)%list
     = puuidLookups d3.
Proof.
  intros F1 F2. unfold renewals, entitlementLookups, puuidLookups.
  change (Info "Token has expired" :: d2 ++ d3)%list
    with ([Info "Token has expired"] ++ d2 ++ d3)%list.
  rewrite !count_app.
  rewrite (count_none load_event (is_info "Token has expired") d1 F1)
    by (intros [m| | | | | | |]; try discriminate; try reflexivity; simpl;
        intros H; apply String.eqb_eq in H; now subst).
  rewrite (count_none load_event (is_fetch entitlementsUrl) d1 F1)
    by (now intros []).
  rewrite (count_none load_event (is_fetch userinfoUrl) d1 F1)
    by (now intros []).
  rewrite (count_none acquisition_event (is_info "Token has expired") d2 F2).
  2:{ intros [m| | | | | |u [b|]|u]; try discriminate; try reflexivity.
      unfold acquisition_event, login_event. simpl. intros H.
      destruct (String.eqb "Token has expired" m) eqn:E; trivial.
      apply String.eqb_eq in E. subst. discriminate. }
  rewrite (count_none acquisition_event (is_fetch entitlementsUrl) d2 F2).
  2:{ intros [m| | | | | |u [b|]|u]; try discriminate; try reflexivity.
      unfold acquisition_event, login_event. simpl. intros H.
      apply String.eqb_eq in H. now subst. }
  rewrite (count_none acquisition_event (is_fetch userinfoUrl) d2 F2).
  2:{ intros [m| | | | | |u [b|]|u]; try discriminate; try reflexivity.
      unfold acquisition_event, login_event. simpl. intros H.
      apply String.eqb_eq in H. now subst. }
  repeat split.
Qed.

(** In the run of a renewal the fallback chain is entered once; each
    lookup is made at most once, the second only after the first; both are
    made when the run returns, none when the token acquisition fails. *)
Lemma renewal_counts context env w w1 :
  prelude context w = (Return tt, w1) ->
  Number_leb (expiresAt (this w1)) (Num (currentTime env)) = true ->
  exists d,
    trace (snd (_newInvoke context env w)) = (trace w ++ d)%list
    /\ renewals d = 1%nat
    /\ (entitlementLookups d <= 1)%nat
    /\ (puuidLookups d <= entitlementLookups d)%nat
    /\ (forall r, fst (_newInvoke context env w) = Return r ->
          entitlementLookups d = 1%nat /\ puuidLookups d = 1%nat)
    /\ (forall e w2,
          obtainToken env (logged (Info "Token has expired") w1) = (Throw e, w2) ->
          entitlementLookups d = 0%nat /\ puuidLookups d = 0%nat).
Proof.
  intros Hp Hx.
  destruct (obtainToken env (logged (Info "Token has expired") w1))
    as [o w2] eqn:Ho.
  destruct (trace_of_acquisition _ _ _ _ _ _ Hp Ho) as (d1 & d2 & _ & F1 & H2 & F2).
  rewrite (_newInvoke_prelude_Return _ _ _ _ Hp), Hx.
  unfold bind. rewrite renew_run, Ho.
  assert (Hd : forall d3,
            (trace w2 ++ d3)%list
            = (trace w ++ d1 ++ Info "Token has expired" :: d2 ++ d3)%list).
  { intros d3. rewrite H2, <- !app_assoc. reflexivity. }
  destruct o as [td|e|].
  - rewrite derive_run.
    destruct (answer (entitlements env (accessToken td))) as [v|e|].
    + destruct (answer (userinfo env (accessToken td))) as [u|e|].
      * destruct (serializeSync (jar (derived env td v u (this w2))))
          as [e|serialized].
        -- cbn [fst snd].
           eexists. split; [unfold afterExpiry; cbn [trace]; apply Hd|].
           destruct (counts_of_renewal d1 d2
                       (savingExpiry (ctx_store context) env td)
                       F1 F2) as (-> & -> & ->).
           repeat split; try reflexivity; cbn; try lia; discriminate.
        -- rewrite snapshot_run. cbn [fst snd].
           eexists. split; [unfold afterSaving; cbn [trace]; apply Hd|].
           destruct (counts_of_renewal d1 d2
                       (saving (ctx_store context) (derived env td v u (this w2)))
                       F1 F2) as (-> & -> & ->).
           repeat split; try reflexivity; cbn; try lia; discriminate.
      * cbn [fst snd].
        eexists. split; [unfold afterLookup2; cbn [trace]; apply Hd|].
        destruct (counts_of_renewal d1 d2 (lookup2 (accessToken td)) F1 F2)
          as (-> & -> & ->).
        repeat split; try reflexivity; cbn; try lia; discriminate.
      * cbn [fst snd].
        eexists. split; [unfold afterLookup2; cbn [trace]; apply Hd|].
        destruct (counts_of_renewal d1 d2 (lookup2 (accessToken td)) F1 F2)
          as (-> & -> & ->).
        repeat split; try reflexivity; cbn; try lia; discriminate.
    + cbn [fst snd].
      eexists. split; [unfold afterLookup1; cbn [trace]; apply Hd|].
      destruct (counts_of_renewal d1 d2 (lookup1 (accessToken td)) F1 F2)
        as (-> & -> & ->).
      repeat split; try reflexivity; cbn; try lia; discriminate.
    + cbn [fst snd].
      eexists. split; [unfold afterLookup1; cbn [trace]; apply Hd|].
      destruct (counts_of_renewal d1 d2 (lookup1 (accessToken td)) F1 F2)
        as (-> & -> & ->).
      repeat split; try reflexivity; cbn; try lia; discriminate.
  - cbn [fst snd].
    eexists. split; [unfold logged; cbn [trace]; apply Hd|].
    destruct (counts_of_renewal d1 d2
                [LoggedError "Error while refreshing token" e] F1 F2)
      as (-> & -> & ->).
    repeat split; try reflexivity; cbn; try lia; discriminate.
  - cbn [fst snd].
    eexists. split; [rewrite <- (app_nil_r (trace w2)); apply Hd|].
    destruct (counts_of_renewal d1 d2 [] F1 F2) as (-> & -> & ->).
    repeat split; try reflexivity; cbn; try lia; discriminate.
Qed.

Lemma call_starts c context l :
  pending l = None ->
  call c context l
  = mkLoop (world l) (Some (length (promises l)))
      (promises l ++ [Running context])%list
      (awaiting l ++ [(c, length (promises l))])%list (delivered l).
Proof. intros H. unfold call. now rewrite H. Qed.

(** ** Freshness *)

Lemma Number_gtb_leb a b : Number_gtb a b = true -> Number_leb a b = false.
Proof.
  destruct a as [|x], b as [|y]; simpl; try discriminate.
  intros H. apply Z.ltb_lt in H. apply Z.leb_gt. exact H.
Qed.

Lemma updated_checked s w :
  store (this w) <> None -> updated (checked s) w = w.
Proof.
  destruct w as [[j x t e p [s'|]] st se tr]; unfold updated, checked; simpl.
  - reflexivity.
  - intros H. now destruct H.
Qed.

Lemma prelude_nonzero context w :
  Number_eqb (expiresAt (this w)) (Num 0) = false ->
  prelude context w = (Return tt, updated (checked (ctx_store context)) w).
Proof. intros H. now rewrite prelude_run, H. Qed.

Lemma store_checked s p : store (checked s p) <> None.
Proof. unfold checked. destruct (store p) eqn:E; simpl; congruence. Qed.

(** [invoke] changes the world by at most one run of [_newInvoke]. *)
Lemma invoke_world c context env l :
  world (invoke c context env l) = world l
  \/ exists context',
       world (invoke c context env l) = snd (_newInvoke context' env (world l)).
Proof.
  unfold invoke.
  assert (Hr : forall l', world (resume c l') = world l').
  { intros l'. unfold resume.
    destruct (suspension c (awaiting l')) as [[p r]|]; trivial.
    now destruct (promises l' !! p) as [[| |o]|]. }
  destruct (pending (call c context l)) as [p|] eqn:Ep.
  - rewrite Hr. unfold settle.
    destruct (promises (call c context l) !! p) as [[context'| |o]|].
    + right. exists context'.
      assert (Hw : world (call c context l) = world l).
      { unfold call. now destruct (pending l). }
      rewrite Hw. now destruct (_newInvoke context' env (world l)).
    + left. unfold call. now destruct (pending l).
    + left. unfold call. now destruct (pending l).
    + left. unfold call. now destruct (pending l).
  - left. unfold call. now destruct (pending l).
Qed.

Lemma prelude_store context w :
  store (this (snd (prelude context w)))
  = store (checked (ctx_store context) (this w)).
Proof. prelude_cases; reflexivity. Qed.

(** After [_newInvoke] the instance knows a store. *)
Lemma _newInvoke_store context env w :
  store (this (snd (_newInvoke context env w))) <> None.
Proof.
  assert (Hc : forall w', store (this w')
                          = store (checked (ctx_store context) (this w)) ->
                          store (this w') <> None).
  { intros w' ->. apply store_checked. }
  pose proof (prelude_store context w) as H1.
  destruct (prelude context w) as [[[]|e|] w1] eqn:Hp; cbn [snd] in H1.
  - rewrite (_newInvoke_prelude_Return _ _ _ _ Hp).
    destruct (Number_leb _ _); [|now apply Hc].
    unfold bind. rewrite renew_run.
    destruct (obtainToken env (logged (Info "Token has expired") w1))
      as [o w2] eqn:Ho.
    destruct (credentials_of_acquisition _ _ _ _ Ho) as (_&_&_&_&_&H2).
    destruct o as [td|e|]; [|apply Hc; cbn; congruence|apply Hc; cbn; congruence].
    rewrite derive_run.
    destruct (answer (entitlements env (accessToken td))) as [v|e|];
      [| apply Hc; cbn; congruence | apply Hc; cbn; congruence].
    destruct (answer (userinfo env (accessToken td))) as [u|e|];
      [destruct (serializeSync (jar (derived env td v u (this w2))))|..];
      apply Hc; cbn; congruence.
  - rewrite (_newInvoke_prelude_Throw _ _ _ _ _ Hp). now apply Hc.
  - now destruct (prelude_not_Never context w); rewrite Hp.
Qed.

Lemma clearAccount_run w : clearAccount w = (Return tt, cleared w).
Proof.
  unfold clearAccount, bind, logger_info, cleared. exec.
  destruct (store (this w)) as [s|] eqn:Es; unfold ret; exec.
  - rewrite !lookup_insert_eq. cbn [default from_option].
    rewrite !insert_insert_eq, <- !app_assoc.
    unfold with_puuid, with_entitlement, with_token, with_expiresAt, with_jar.
    fields. rewrite Es. cbn [id app]. reflexivity.
  - rewrite <- ?app_assoc.
    unfold with_puuid, with_entitlement, with_token, with_expiresAt, with_jar.
    fields. rewrite Es. cbn [id app]. reflexivity.
Qed.

(** An instance whose [expiresAt] is not 0 knows a store: [expiresAt] is
    only set by [_newInvoke], after [checkStore]. *)
Lemma store_known ops : forall l,
  (Number_eqb (expiresAt (this (world l))) (Num 0) = false ->
   store (this (world l)) <> None) ->
  Number_eqb (expiresAt (this (world (run ops l)))) (Num 0) = false ->
  store (this (world (run ops l))) <> None.
Proof.
  induction ops as [|op ops IH]; intros l Hl; [exact Hl|].
  unfold run in *. simpl. apply IH. clear IH.
  destruct op as [c context env|]; simpl.
  - destruct (invoke_world c context env l) as [-> | [context' ->]]; trivial.
    intros _. apply _newInvoke_store.
  - rewrite clearAccount_run. discriminate.
Qed.

(** ** A run with nothing else at work *)

Lemma deriveDuring_alone context env td w :
  deriveDuring context env td alone w = derive context env td w.
Proof.
  rewrite derive_run.
  unfold deriveDuring, fetchDuring, alone, aside, bind, logger_info,
    afterLookup1, afterLookup2, afterSaving, afterExpiry, lookup1, lookup2,
    saving, savingExpiry.
  exec. unfold ret. cbn [snd]. exec.
  destruct (answer (entitlements env (accessToken td))) as [v|e|];
    [ | flat; reflexivity | flat; reflexivity ].
  exec. cbn [snd]. exec.
  destruct (answer (userinfo env (accessToken td))) as [u|e|];
    [ | flat; reflexivity | flat; reflexivity ].
  exec. unfold derived, newExpiry. fields. unfold serializeSync.
  match goal with
  | |- context [existsb ?f ?j] => destruct (existsb f j)
  end; unfold lift, throw, ret; [flat; reflexivity|].
  exec. unfold saved. fields.
  rewrite !lookup_insert_eq. cbn [default from_option].
  rewrite !insert_insert_eq, <- !app_assoc.
  reflexivity.
Qed.

Lemma bind_ext {A B} (m : M A) (k k' : A -> M B) w :
  (forall a w', k a w' = k' a w') -> bind m k w = bind m k' w.
Proof. intros H. unfold bind. destruct (m w) as [[a|e|] w']; trivial. Qed.

Lemma bind_ext_l {A B} (m m' : M A) (k : A -> M B) w :
  m w = m' w -> bind m k w = bind m' k w.
Proof. intros H. unfold bind. now rewrite H. Qed.

(** With nothing else at work the run is the run of [_newInvoke]. *)
Lemma _newInvokeDuring_alone context env w :
  _newInvokeDuring context env alone w = _newInvoke context env w.
Proof.
  unfold _newInvokeDuring, _newInvoke, renew.
  apply bind_ext; intros _ w0. apply bind_ext; intros _ w1.
  apply bind_ext; intros p w2. apply bind_ext_l.
  destruct (Number_leb (expiresAt p) (Num (currentTime env))); [|reflexivity].
  apply bind_ext; intros _ w3. apply bind_ext; intros td w4.
  apply deriveDuring_alone.
Qed.

(** ** Urls that start with the callback url *)

Lemma prefix_app p r : String.prefix p (p ++ r) = true.
Proof.
  induction p as [|a p IH]; [now destruct r|].
  change (String a p ++ r) with (String a (p ++ r)). cbn [String.prefix].
  destruct (ascii_dec a a); [exact IH|contradiction].
Qed.

Lemma prefix_split p : forall s,
  String.prefix p s = true -> exists r, s = p ++ r.
Proof.
  induction p as [|a p IH]; intros s H.
  - exists s. reflexivity.
  - destruct s as [|b s]; [discriminate|]. cbn [String.prefix] in H.
    destruct (ascii_dec a b) as [->|]; [|discriminate].
    destruct (IH s H) as [r ->]. exists r. reflexivity.
Qed.

Lemma chars_app a b : chars (a ++ b) = (chars a ++ chars b)%list.
Proof.
  unfold chars. induction a as [|c a IH]; [reflexivity|].
  simpl. now rewrite IH.
Qed.

Lemma span_stop {A} (f : A -> bool) x b : forall a,
  f x = false ->
  exists a', snd (span f (a ++ x :: b)%list) = (a' ++ x :: b)%list.
Proof.
  induction a as [|y a IH]; intros H.
  - exists []. cbn. now rewrite H.
  - cbn. destruct (f y).
    + destruct (IH H) as [a' E]. exists a'.
      destruct (span f (a ++ x :: b)%list). exact E.
    + exists (y :: a). reflexivity.
Qed.

Lemma span_head {A} (f : A -> bool) x l :
  f x = false -> span f (x :: l) = ([], x :: l).
Proof. intros H. cbn. now rewrite H. Qed.

Lemma filter_all {A} (f : A -> bool) l :
  forallb f l = true -> List.filter f l = l.
Proof.
  induction l as [|x l IH]; [reflexivity|]. cbn.
  intros H. apply andb_true_iff in H as [-> H]. now rewrite IH.
Qed.

(** A text that starts and ends with a visible character and has no tab
    or newline inside keeps these characters when the [URL] parser strips
    its input; what follows them may lose some. *)
Lemma cleaned_prefix x P y R :
  is_c0_or_space x = false -> is_c0_or_space y = false ->
  forallb (fun c => negb (is_tab_or_newline c)) (x :: P ++ [y])%list = true ->
  exists R', cleaned ((x :: P ++ [y]) ++ R)%list = ((x :: P ++ [y]) ++ R')%list.
Proof.
  intros Hx Hy HP. unfold cleaned.
  change ((x :: P ++ [y]) ++ R)%list with (x :: ((P ++ [y]) ++ R))%list.
  rewrite (span_head _ _ _ Hx). cbn [snd].
  change (x :: ((P ++ [y]) ++ R))%list with ((x :: P ++ [y]) ++ R)%list.
  rewrite rev_app_distr.
  change (x :: P ++ [y])%list with ((x :: P) ++ [y])%list.
  rewrite (rev_app_distr (x :: P) [y]). cbn [rev app].
  destruct (span_stop is_c0_or_space y (rev P ++ [x])%list (rev R) Hy) as [a' ->].
  rewrite rev_app_distr. cbn [rev]. rewrite rev_app_distr, rev_involutive.
  cbn [rev app].
  change (x :: (P ++ [y]) ++ rev a')%list with ((x :: P ++ [y]) ++ rev a')%list.
  rewrite List.filter_app, (filter_all _ _ HP).
  now exists (List.filter (fun c => negb (is_tab_or_newline c)) (rev a')).
Qed.

Lemma URL_callback r :
  exists fragment, URL_hash_slice1 (callbackUrl ++ r) = Some fragment.
Proof.
  unfold URL_hash_slice1. rewrite chars_app.
  fold (cleaned (chars callbackUrl ++ chars r)).
  destruct (cleaned_prefix "h" (chars "ttps://playvalorant.com/opt_i") "n"
              (chars r)) as [R' E]; try reflexivity.
  change ("h"%char :: chars "ttps://playvalorant.com/opt_i" ++ ["n"%char])%list
    with (chars callbackUrl) in E.
  rewrite E. clear E. simpl.
  destruct (span (fun c => negb (ascii_eqb c "#")) R') as [F B]. simpl.
  eexists. reflexivity.
Qed.

(** A url that passes the test of line 39 is one the [URL] constructor
    accepts: the handler of [will-redirect] never throws. *)
Lemma callback_parses url :
  startsWith url callbackUrl = true ->
  exists td, getTokenDataFromURL (Some url) = inr td.
Proof.
  intros H. destruct (prefix_split _ _ H) as [r ->].
  unfold getTokenDataFromURL. cbn [url_text].
  destruct (URL_callback r) as [fragment ->]. eexists. reflexivity.
Qed.


(** ** The cookies the jar finds for the authorization url *)

Lemma text_chars s : text (chars s) = s.
Proof. apply string_of_list_ascii_of_string. Qed.

Lemma chars_text l : chars (text l) = l.
Proof. apply list_ascii_of_string_of_list_ascii. Qed.

Lemma dot_suffixes A D :
  chars authHost = (A ++ "."%char :: D)%list ->
  D = chars "riotgames.com" \/ D = chars "com".
Proof.
  cbn. intros H.
  repeat (destruct A as [|? A]; cbn in H;
          [ first [ discriminate H
                  | injection H as <-;
                    first [left; reflexivity | right; reflexivity] ]
          | injection H as _ H ]).
  destruct A; discriminate.
Qed.

Lemma permuted_auth d :
  permuted authHost d = true <-> d = authHost \/ d = "riotgames.com".
Proof.
  split.
  - unfold permuted, domainMatch. intros H.
    apply andb_true_iff in H as [H Hs].
    apply orb_true_iff in H as [H|H].
    + apply String.eqb_eq in H. now left.
    + unfold endsWith in H. apply prefix_split in H as [r H].
      apply (f_equal chars) in H. rewrite chars_app, !chars_text in H.
      apply (f_equal (@rev ascii)) in H.
      rewrite rev_involutive, rev_app_distr in H.
      change (chars ("." ++ d)) with ("."%char :: chars d) in H.
      rewrite rev_involutive in H.
      destruct (dot_suffixes _ _ H) as [E|E].
      * right. rewrite <- (text_chars d), E. reflexivity.
      * rewrite <- (text_chars d), E in Hs. discriminate.
  - intros [->| ->]; reflexivity.
Qed.

Lemma pathMatch_root p : pathMatch "/" p = true <-> p = "/" \/ p = "".
Proof.
  split.
  - destruct p as [|a [|b p]]; [now right| |].
    + destruct a as [[] [] [] [] [] [] [] []]; vm_compute;
        first [discriminate | intros _; now left].
    + unfold pathMatch.
      destruct a as [[] [] [] [] [] [] [] []]; cbn; discriminate.
  - intros [->| ->]; reflexivity.
Qed.

Lemma validLoginCookie_spec now c :
  validLoginCookie now c = true <->
  key c = "ssid"
  /\ (domain c = authHost \/ (domain c = "riotgames.com" /\ hostOnly c = false))
  /\ (path c = "/" \/ path c = "")
  /\ expiresAfter now c = true.
Proof.
  unfold validLoginCookie, matchesAuthUrl, matches.
  cbn [hostname pathname authSite].
  rewrite !andb_true_iff, String.eqb_eq, permuted_auth, pathMatch_root.
  split.
  - intros [[Hk [[Hd Hp] Hh]] He]. repeat split; trivial.
    destruct Hd as [Hd|Hd]; [now left|right]. split; [exact Hd|].
    destruct (hostOnly c); [|reflexivity].
    apply String.eqb_eq in Hh. rewrite Hd in Hh. discriminate.
  - intros (Hk & Hd & Hp & He). repeat split; trivial.
    + destruct Hd as [Hd|[Hd _]]; [now left|now right].
    + destruct Hd as [->|[-> ->]]; [|reflexivity].
      destruct (hostOnly c); reflexivity.
Qed.

(** * The claims *)

(** ** The new expiry (C5) *)




(** ** What a failed renewal leaves behind (C2) *)

(** C2, as the code has it.  A renewal fails in one of four ways.  When
    the token acquisition fails, the caller gets the umbrella error and
    [expiresAt], [token], [entitlement], [puuid] and the store are as
    before.  When a lookup fails, the store and [expiresAt] are as before,
    so the credentials still count as expired, but [token] is already the
    new access token: line 237 assigns it before the lookups, which read
    it; and when it is [getPUUID] that fails, [entitlement] is already the
    new one as well.  When both lookups answer and the jar cannot be
    serialized, which happens exactly when it holds a cookie whose expiry
    is an invalid date, the run fails with the [RangeError] of line 247:
    by then all four fields are new and the [expiresAt] item of the store
    is the new expiry, while the other items of the record are as
    before. *)
Theorem failed_renewal_state context env w w1 :
  prelude context w = (Return tt, w1) ->
  Number_leb (expiresAt (this w1)) (Num (currentTime env)) = true ->
  stores w1 = stores w
  /\ (forall e w2,
        obtainToken env (logged (Info "Token has expired") w1) = (Throw e, w2) ->
        fst (_newInvoke context env w) = Throw (Error "Riot login failed")
        /\ SameCredentials w1 (snd (_newInvoke context env w)))
  /\ (forall td w2 e,
        obtainToken env (logged (Info "Token has expired") w1) = (Return td, w2) ->
        answer (entitlements env (accessToken td)) = Throw e ->
        fst (_newInvoke context env w) = Throw e
        /\ stores (snd (_newInvoke context env w)) = stores w1
        /\ expiresAt (this (snd (_newInvoke context env w))) = expiresAt (this w1)
        /\ entitlement (this (snd (_newInvoke context env w))) = entitlement (this w1)
        /\ puuid (this (snd (_newInvoke context env w))) = puuid (this w1)
        /\ token (this (snd (_newInvoke context env w))) = accessToken td)
  /\ (forall td w2 v e,
        obtainToken env (logged (Info "Token has expired") w1) = (Return td, w2) ->
        answer (entitlements env (accessToken td)) = Return v ->
        answer (userinfo env (accessToken td)) = Throw e ->
        fst (_newInvoke context env w) = Throw e
        /\ stores (snd (_newInvoke context env w)) = stores w1
        /\ expiresAt (this (snd (_newInvoke context env w))) = expiresAt (this w1)
        /\ puuid (this (snd (_newInvoke context env w))) = puuid (this w1)
        /\ token (this (snd (_newInvoke context env w))) = accessToken td
        /\ entitlement (this (snd (_newInvoke context env w))) = v)
  /\ (forall td w2 v u,
        obtainToken env (logged (Info "Token has expired") w1) = (Return td, w2) ->
        answer (entitlements env (accessToken td)) = Return v ->
        answer (userinfo env (accessToken td)) = Return u ->
        existsb (fun c => match expiryTime c with
                          | Time NaN => true
                          | _ => false
                          end) (jar (derived env td v u (this w2))) = true ->
        fst (_newInvoke context env w) = Throw (RangeError "Invalid time value")
        /\ token (this (snd (_newInvoke context env w))) = accessToken td
        /\ entitlement (this (snd (_newInvoke context env w))) = v
        /\ puuid (this (snd (_newInvoke context env w))) = u
        /\ items (ctx_store context) (snd (_newInvoke context env w)) !! "expiresAt"
           = Some (Numeric (expiresAt (this (snd (_newInvoke context env w)))))
        /\ (forall E, ToNumber (expiresIn td) = Num E ->
              expiresAt (this (snd (_newInvoke context env w)))
              = Num (renewedTime env + E * 1000 - 300000))
        /\ (forall k, k <> "expiresAt" ->
              items (ctx_store context) (snd (_newInvoke context env w)) !! k
              = items (ctx_store context) w1 !! k)
        /\ (forall s, s <> ctx_store context ->
              stores (snd (_newInvoke context env w)) !! s = stores w1 !! s))
  /\ (forall td w2 v u,
        obtainToken env (logged (Info "Token has expired") w1) = (Return td, w2) ->
        answer (entitlements env (accessToken td)) = Return v ->
        answer (userinfo env (accessToken td)) = Return u ->
        existsb (fun c => match expiryTime c with
                          | Time NaN => true
                          | _ => false
                          end) (jar (derived env td v u (this w2))) = false ->
        fst (_newInvoke context env w)
        = Return (credentials (derived env td v u (this w2)))).
Proof.
  intros Hp Hx. split.
  { pose proof (prelude_outside context w) as [H _]. now rewrite Hp in H. }
  split; [|split; [|split; [|split]]].
  - intros e w2 Ho.
    rewrite (_newInvoke_acquisition_fails _ _ _ _ _ _ Hp Hx Ho).
    split; [reflexivity|].
    destruct (credentials_of_acquisition _ _ _ _ Ho) as (?&?&?&?&?&?).
    now repeat split.
  - intros td w2 e Ho He.
    rewrite (_newInvoke_entitlement_fails _ _ _ _ _ _ _ Hp Hx Ho He).
    destruct (credentials_of_acquisition _ _ _ _ Ho) as (?&?&?&?&?&?).
    now repeat split.
  - intros td w2 v e Ho He Hu.
    rewrite (_newInvoke_puuid_fails _ _ _ _ _ _ _ _ Hp Hx Ho He Hu).
    destruct (credentials_of_acquisition _ _ _ _ Ho) as (?&?&?&?&?&?).
    now repeat split.
  - intros td w2 v u Ho He Hu Hj.
    assert (Hs : serializeSync (jar (derived env td v u (this w2)))
                 = inl (RangeError "Invalid time value")).
    { unfold serializeSync. now rewrite Hj. }
    rewrite (_newInvoke_save_fails _ _ _ _ _ _ _ _ _ Hp Hx Ho He Hu Hs).
    destruct (credentials_of_acquisition _ _ _ _ Ho) as (Hst&_).
    cbn [logged stores] in Hst.
    cbn [fst snd]. unfold afterExpiry, items. cbn [this stores].
    repeat split.
    + rewrite lookup_insert_eq. cbv beta iota delta [from_option id].
      now rewrite lookup_insert_eq.
    + intros E HE. unfold derived, newExpiry. fields. now rewrite HE.
    + intros k Hk. rewrite lookup_insert_eq.
      cbv beta iota delta [from_option id].
      rewrite lookup_insert_ne by congruence. now rewrite Hst.
    + intros s Hs'. rewrite lookup_insert_ne by congruence. now rewrite Hst.
  - intros td w2 v u Ho He Hu Hj.
    assert (Hs : serializeSync (jar (derived env td v u (this w2)))
                 = inr (JarText (jar (derived env td v u (this w2))))).
    { unfold serializeSync. now rewrite Hj. }
    now rewrite (_newInvoke_renewed _ _ _ _ _ _ _ _ _ Hp Hx Ho He Hu Hs).
Qed.

(** The second login of the scenario fails in [getEntitlement]: the store
    and [expiresAt] are as before, and [token] is the new one. *)
Lemma failed_renewal_state_witness :
  prelude context0 (world loggedIn) = (Return tt, world loggedIn)
  /\ Number_leb (expiresAt (this (world loggedIn)))
       (Num (currentTime entitlementsDown)) = true
  /\ fst (_newInvoke context0 entitlementsDown (world loggedIn))
     = Throw (FetchError "ECONNRESET")
  /\ stores (snd (_newInvoke context0 entitlementsDown (world loggedIn)))
     = stores (world loggedIn)
  /\ expiresAt (this (snd (_newInvoke context0 entitlementsDown (world loggedIn))))
     = expiresAt (this (world loggedIn))
  /\ entitlement (this (snd (_newInvoke context0 entitlementsDown (world loggedIn))))
     = entitlement (this (world loggedIn))
  /\ puuid (this (snd (_newInvoke context0 entitlementsDown (world loggedIn))))
     = puuid (this (world loggedIn))
  /\ token (this (snd (_newInvoke context0 entitlementsDown (world loggedIn))))
     = Str "tok2".
Proof.
  split; [vm_compute; reflexivity|]. split; [vm_compute; reflexivity|].
  refine (proj1 (proj2 (proj2
    (failed_renewal_state context0 entitlementsDown (world loggedIn)
       (world loggedIn) _ _)))
    {| accessToken := Str "tok2"; expiresIn := Str "3600" |}
    (snd (obtainToken entitlementsDown
            (logged (Info "Token has expired") (world loggedIn))))
    (FetchError "ECONNRESET") _ _);
    vm_compute; reflexivity.
Defined.

(** C2 fails as stated: the second login of the scenario fails in
    [getEntitlement], and the instance that held [tok1] before the attempt
    holds [tok2] after it. *)
Lemma failed_derivation_keeps_new_token :
  token (this (world loggedIn)) = Str "tok1"
  /\ delivered (invoke 2%nat context0 entitlementsDown loggedIn)
     = (delivered loggedIn ++ [(2%nat, inl (FetchError "ECONNRESET"))])%list
  /\ token (this (world (invoke 2%nat context0 entitlementsDown loggedIn)))
     = Str "tok2"
  /\ token (this (world (invoke 2%nat context0 entitlementsDown loggedIn)))
     <> token (this (world loggedIn)).
Proof. vm_compute. repeat split. discriminate. Qed.

(** The fourth way.  The login window leaves an [ssid] cookie whose
    expiration date is beyond the range of [Date]; the login and both
    lookups succeed, and line 247 throws.  The caller gets the
    [RangeError]; the store now holds the new expiry next to the old
    token, and a new instance started on it before that expiry hands out
    the old token without renewing it. *)
Lemma invalid_cookie_date_breaks_the_save :
  delivered (invoke 1%nat context0 invalidCookieDate (boot zeroRecord []))
  = [(1%nat, inl (RangeError "Invalid time value"))]
  /\ token (this (world (invoke 1%nat context0 invalidCookieDate
                            (boot zeroRecord [])))) = Str "tok1"
  /\ items 0%nat (world (invoke 1%nat context0 invalidCookieDate
                           (boot zeroRecord []))) !! "expiresAt"
     = Some (Numeric (Num 4360000))
  /\ items 0%nat (world (invoke 1%nat context0 invalidCookieDate
                           (boot zeroRecord []))) !! "token"
     = Some (Str "tok0")
  /\ delivered
       (invoke 2%nat context0 firstLogin
          (boot (stores (world (invoke 1%nat context0 invalidCookieDate
                                  (boot zeroRecord [])))) []))
     = [(2%nat, inr {| Result.entitlement := Str "ent0";
                       Result.token := Str "tok0";
                       Result.puuid := Str "u0" |})].
Proof. vm_compute. repeat split. Qed.

(** ** The error the callers get (C3) *)

(** C3, as the code has it.  Only the token acquisition sits inside the
    [try] of lines 211-235: when it fails, every caller waiting on the
    shared promise gets [Error "Riot login failed"] and the cause is logged
    with [logger.error].  When [getEntitlement] or [getPUUID] fails, every
    waiting caller gets the error of that lookup itself, and nothing is
    logged as an error. *)
Theorem renewal_errors l c context others env w1 :
  quiescent l ->
  prelude context (world l) = (Return tt, w1) ->
  Number_leb (expiresAt (this w1)) (Num (currentTime env)) = true ->
  (forall e w2,
     obtainToken env (logged (Info "Token has expired") w1) = (Throw e, w2) ->
     delivered (concurrently c context others env l)
     = (delivered l
        ++ map (fun c => (c, inl (Error "Riot login failed")))
             (c :: map fst others))%list
     /\ trace (world (concurrently c context others env l))
        = (trace w2 ++ [LoggedError "Error while refreshing token" e])%list)
  /\ (forall td w2 e,
        obtainToken env (logged (Info "Token has expired") w1) = (Return td, w2) ->
        answer (entitlements env (accessToken td)) = Throw e ->
        delivered (concurrently c context others env l)
        = (delivered l ++ map (fun c => (c, inl e)) (c :: map fst others))%list
        /\ count is_logged_error (trace (world (concurrently c context others env l)))
           = count is_logged_error (trace (world l)))
  /\ (forall td w2 v e,
        obtainToken env (logged (Info "Token has expired") w1) = (Return td, w2) ->
        answer (entitlements env (accessToken td)) = Return v ->
        answer (userinfo env (accessToken td)) = Throw e ->
        delivered (concurrently c context others env l)
        = (delivered l ++ map (fun c => (c, inl e)) (c :: map fst others))%list
        /\ count is_logged_error (trace (world (concurrently c context others env l)))
           = count is_logged_error (trace (world l))).
Proof.
  intros Hq Hp Hx.
  assert (Hquiet : forall o w2 d,
            obtainToken env (logged (Info "Token has expired") w1) = (o, w2) ->
            forallb (fun e => negb (is_logged_error e)) d = true ->
            count is_logged_error (trace w2 ++ d)%list
            = count is_logged_error (trace (world l))).
  { intros o w2 d Ho Hd.
    destruct (trace_of_acquisition _ _ _ _ _ _ Hp Ho) as (d1 & d2 & _ & F1 & -> & F2).
    rewrite !count_app.
    rewrite (count_none load_event is_logged_error d1 F1)
      by (now intros [] H).
    change (Info "Token has expired" :: d2)
      with ([Info "Token has expired"] ++ d2)%list.
    rewrite count_app.
    rewrite (count_none acquisition_event is_logged_error d2 F2)
      by (now intros [] H).
    rewrite (count_none (fun e => negb (is_logged_error e)) is_logged_error d Hd)
      by (intros x H; now destruct (is_logged_error x)).
    cbn. lia. }
  split; [|split].
  - intros e w2 Ho.
    destruct (concurrently_outcome l c context others env _ _ Hq
                (_newInvoke_acquisition_fails _ _ _ _ _ _ Hp Hx Ho)) as [Hw Hd].
    destruct (Hd _ eq_refl) as (-> & _). rewrite Hw. now split.
  - intros td w2 e Ho He.
    destruct (concurrently_outcome l c context others env _ _ Hq
                (_newInvoke_entitlement_fails _ _ _ _ _ _ _ Hp Hx Ho He))
      as [Hw Hd].
    destruct (Hd _ eq_refl) as (-> & _). rewrite Hw. split; [reflexivity|].
    cbn [trace]. now apply (Hquiet _ _ _ Ho).
  - intros td w2 v e Ho He Hu.
    destruct (concurrently_outcome l c context others env _ _ Hq
                (_newInvoke_puuid_fails _ _ _ _ _ _ _ _ Hp Hx Ho He Hu))
      as [Hw Hd].
    destruct (Hd _ eq_refl) as (-> & _). rewrite Hw. split; [reflexivity|].
    cbn [trace]. now apply (Hquiet _ _ _ Ho).
Qed.

(** Three callers share the login whose window the user closes: each gets
    the umbrella error, and the cause is the last thing logged. *)
Lemma renewal_errors_witness :
  quiescent (boot ∅ [])
  /\ delivered (concurrently 1%nat context0 [(2%nat, context0); (3%nat, context0)]
                  windowClosed (boot ∅ []))
     = [(1%nat, inl (Error "Riot login failed"));
        (2%nat, inl (Error "Riot login failed"));
        (3%nat, inl (Error "Riot login failed"))]
  /\ trace (world (concurrently 1%nat context0
                     [(2%nat, context0); (3%nat, context0)]
                     windowClosed (boot ∅ [])))
     = (trace (snd (obtainToken windowClosed
                      (logged (Info "Token has expired")
                         (logged (HasItem 0%nat "expiresAt")
                            (updated (checked 0%nat) (world (boot ∅ [])))))))
        ++ [LoggedError "Error while refreshing token" (Reason "window closed")])%list.
Proof.
  split; [now split|].
  refine (proj1
    (renewal_errors (boot ∅ []) 1%nat context0
       [(2%nat, context0); (3%nat, context0)] windowClosed
       (logged (HasItem 0%nat "expiresAt")
          (updated (checked 0%nat) (world (boot ∅ []))))
       _ _ _)
    (Reason "window closed")
    (snd (obtainToken windowClosed
            (logged (Info "Token has expired")
               (logged (HasItem 0%nat "expiresAt")
                  (updated (checked 0%nat) (world (boot ∅ [])))))))
    _);
    first [ now split | vm_compute; reflexivity ].
Defined.

(** C3 fails as stated: when the entitlements endpoint is down, the caller
    gets the error of the request, not [Error "Riot login failed"], and the
    trace holds no logged error. *)
Lemma derivation_error_is_not_the_umbrella :
  delivered (invoke 2%nat context0 entitlementsDown loggedIn)
  = (delivered loggedIn ++ [(2%nat, inl (FetchError "ECONNRESET"))])%list
  /\ FetchError "ECONNRESET" <> Error "Riot login failed"
  /\ count is_logged_error
       (trace (world (invoke 2%nat context0 entitlementsDown loggedIn))) = 0%nat.
Proof. vm_compute. repeat split. discriminate. Qed.

(** ** Concurrent callers (C1) *)

(** C1, as the code has it.  When nobody is inside [invoke] ([this.pending]
    is null and no caller is suspended) and a call starts a renewal, any
    number of further calls made before its promise settles join that
    promise: [_newInvoke] runs once, so the fallback chain is entered
    exactly once and each lookup of the derivation is made at most once:
    once each when the shared run returns, not at all when the token
    acquisition fails.  When the promise settles every caller is handed the
    same result or the same error, and [this.pending] is null again, so
    that the next call makes a new promise. *)
Theorem shared_renewal l c context others env w1 :
  quiescent l ->
  prelude context (world l) = (Return tt, w1) ->
  Number_leb (expiresAt (this w1)) (Num (currentTime env)) = true ->
  world (concurrently c context others env l)
  = snd (_newInvoke context env (world l))
  /\ (exists d,
        trace (world (concurrently c context others env l))
        = (trace (world l) ++ d)%list
        /\ renewals d = 1%nat
        /\ (entitlementLookups d <= 1)%nat
        /\ (puuidLookups d <= entitlementLookups d)%nat
        /\ (forall r, fst (_newInvoke context env (world l)) = Return r ->
              entitlementLookups d = 1%nat /\ puuidLookups d = 1%nat)
        /\ (forall e w2,
              obtainToken env (logged (Info "Token has expired") w1)
              = (Throw e, w2) ->
              entitlementLookups d = 0%nat /\ puuidLookups d = 0%nat))
  /\ (forall r, handed (fst (_newInvoke context env (world l))) = Some r ->
        delivered (concurrently c context others env l)
        = (delivered l ++ map (fun c => (c, r)) (c :: map fst others))%list
        /\ pending (concurrently c context others env l) = None
        /\ forall c' context',
             promises (call c' context' (concurrently c context others env l))
             = (promises (concurrently c context others env l)
                ++ [Running context'])%list).
Proof.
  intros Hq Hp Hx.
  destruct (_newInvoke context env (world l)) as [o w'] eqn:Hr.
  destruct (concurrently_outcome l c context others env o w' Hq Hr) as [Hw Hd].
  split; [exact Hw|]. split.
  - destruct (renewal_counts context env (world l) w1 Hp Hx)
      as (d & Ht & Hc). rewrite Hr in Ht, Hc. cbn [fst snd] in Ht, Hc.
    exists d. rewrite Hw. now split.
  - cbn [fst]. intros r Ho. destruct (Hd r Ho) as (Hdel & Hpen & _).
    repeat split; trivial.
    intros c' context'. now rewrite (call_starts _ _ _ Hpen).
Qed.

(** Three callers share the first login: each is handed the same
    credentials, and [pending] is clear afterwards. *)
Lemma shared_renewal_witness :
  quiescent (boot ∅ [])
  /\ delivered (concurrently 1%nat context0
                  [(2%nat, context0); (3%nat, context0)] firstLogin (boot ∅ []))
     = map (fun c => (c, inr {| Result.entitlement := Str "ent1";
                                Result.token := Str "tok1";
                                Result.puuid := Str "u1" |}))
         [1%nat; 2%nat; 3%nat]
  /\ pending (concurrently 1%nat context0
                [(2%nat, context0); (3%nat, context0)] firstLogin (boot ∅ []))
     = None.
Proof.
  split; [now split|].
  assert (Hp : prelude context0 (world (boot ∅ []))
               = (Return tt,
                  logged (HasItem 0%nat "expiresAt")
                    (updated (checked 0%nat) (world (boot ∅ []))))).
  { vm_compute. reflexivity. }
  assert (Hx : Number_leb
                 (expiresAt (this (logged (HasItem 0%nat "expiresAt")
                                     (updated (checked 0%nat)
                                        (world (boot ∅ []))))))
                 (Num (currentTime firstLogin)) = true).
  { vm_compute. reflexivity. }
  destruct (proj2 (proj2
    (shared_renewal (boot ∅ []) 1%nat context0
       [(2%nat, context0); (3%nat, context0)] firstLogin _
       (conj eq_refl eq_refl) Hp Hx))
    (inr {| Result.entitlement := Str "ent1";
            Result.token := Str "tok1";
            Result.puuid := Str "u1" |}))
    as (Hd & Hq & _).
  - vm_compute. reflexivity.
  - split; [exact Hd | exact Hq].
Defined.

(** C1 fails as stated, in two ways.  Three callers share a renewal whose
    login window the user closes: all three are handed the same error and
    the fallback chain was entered once, but neither lookup of the
    derivation was made, let alone exactly once.  And a call made while a
    renewal is in flight does not always join it: after the late join of
    [lateJoin] the run of the third caller is in flight while
    [this.pending] is null, so the call of a fourth caller starts a second
    run next to it; when the user closes the window of the one and logs in
    through the window of the other, the two callers are handed different
    outcomes, and the fallback chain has been entered once per run. *)
Lemma renewal_derives_nothing_or_runs_twice :
  delivered (concurrently 1%nat context0
               [(2%nat, context0); (3%nat, context0)] windowClosed (boot ∅ []))
  = map (fun c => (c, inl (Error "Riot login failed"))) [1%nat; 2%nat; 3%nat]
  /\ renewals (trace (world (concurrently 1%nat context0
                               [(2%nat, context0); (3%nat, context0)]
                               windowClosed (boot ∅ [])))) = 1%nat
  /\ entitlementLookups
       (trace (world (concurrently 1%nat context0
                        [(2%nat, context0); (3%nat, context0)]
                        windowClosed (boot ∅ [])))) = 0%nat
  /\ puuidLookups
       (trace (world (concurrently 1%nat context0
                        [(2%nat, context0); (3%nat, context0)]
                        windowClosed (boot ∅ [])))) = 0%nat
  /\ promises (call 4%nat context0
                 (lateJoin 1%nat 2%nat 3%nat context0 context0 context0
                    windowClosed (boot ∅ [])))
     = [Settled (inl (Error "Riot login failed"));
        Running context0; Running context0]
  /\ awaiting (call 4%nat context0
                 (lateJoin 1%nat 2%nat 3%nat context0 context0 context0
                    windowClosed (boot ∅ [])))
     = [(3%nat, 1%nat); (4%nat, 2%nat)]
  /\ delivered
       (resume 4%nat
          (resume 3%nat
             (settle 1%nat firstLogin
                (settle 2%nat windowClosed
                   (call 4%nat context0
                      (lateJoin 1%nat 2%nat 3%nat context0 context0 context0
                         windowClosed (boot ∅ [])))))))
     = [(1%nat, inl (Error "Riot login failed"));
        (2%nat, inl (Error "Riot login failed"));
        (3%nat, inr {| Result.entitlement := Str "ent1";
                       Result.token := Str "tok1";
                       Result.puuid := Str "u1" |});
        (4%nat, inl (Error "Riot login failed"))]
  /\ renewals
       (trace (world
          (settle 1%nat firstLogin
             (settle 2%nat windowClosed
                (call 4%nat context0
                   (lateJoin 1%nat 2%nat 3%nat context0 context0 context0
                      windowClosed (boot ∅ [])))))))
     = S (S (renewals
               (trace (world
                  (lateJoin 1%nat 2%nat 3%nat context0 context0 context0
                     windowClosed (boot ∅ [])))))).
Proof. vm_compute. repeat split. Qed.

(** ** The fast path (C6) *)

(** C6: when [expiresAt] is later than the clock reading of line 205,
    [invoke] hands the caller the three fields as they are and leaves the
    world exactly as it was when the check was made: no field of the
    instance, no item of a store, no cookie and no event is added after the
    prelude, and [pending] is null again.  What the prelude itself did is
    read the saved record, at most: it writes to no store, and when
    [expiresAt] was not 0 on entry it reads nothing and assigns nothing but
    a [store] still unset, which in an instance that has run before is
    never the case. *)
Theorem fast_path l c context env w1 :
  quiescent l ->
  prelude context (world l) = (Return tt, w1) ->
  Number_gtb (expiresAt (this w1)) (Num (currentTime env)) = true ->
  invoke c context env l
  = mkLoop w1 None
      (promises l ++ [Settled (inr (credentials (this w1)))])%list []
      (delivered l ++ [(c, inr (credentials (this w1)))])%list
  /\ stores w1 = stores (world l)
  /\ session w1 = session (world l)
  /\ (exists d,
        trace w1 = (trace (world l) ++ d)%list /\ forallb load_event d = true)
  /\ (Number_eqb (expiresAt (this (world l))) (Num 0) = false ->
      w1 = updated (checked (ctx_store context)) (world l)
      /\ forall ops saved cookies,
           l = run ops (boot saved cookies) -> w1 = world l).
Proof.
  intros Hq Hp Hx.
  pose proof (prelude_outside context (world l)) as [Hs Hc].
  pose proof (prelude_adds context (world l)) as Ha.
  rewrite Hp in Hs, Hc, Ha. cbn [snd] in Hs, Hc, Ha.
  split; [|repeat split; trivial].
  - rewrite (invoke_alone _ _ _ _ Hq), (concurrently_run _ _ _ _ _ Hq).
    cbv zeta.
    rewrite (_newInvoke_fresh _ _ _ _ Hp (Number_gtb_leb _ _ Hx)).
    reflexivity.
  - rewrite (prelude_nonzero _ _ H) in Hp. now inversion Hp.
  - intros ops saved cookies ->.
    rewrite (prelude_nonzero _ _ H) in Hp. inversion Hp.
    apply updated_checked. apply store_known; [discriminate | exact H].
Qed.

(** A fresh process finds a saved record that is still good: the caller
    gets the saved values, and the world is the one the load left. *)
Lemma fast_path_witness :
  quiescent (boot freshRecord [])
  /\ invoke 1%nat context0 firstLogin (boot freshRecord [])
     = mkLoop (snd (prelude context0 (world (boot freshRecord [])))) None
         [Settled (inr {| Result.entitlement := Str "ent0";
                          Result.token := Str "tok0";
                          Result.puuid := Str "u0" |})] []
         [(1%nat, inr {| Result.entitlement := Str "ent0";
                         Result.token := Str "tok0";
                         Result.puuid := Str "u0" |})].
Proof.
  split; [now split|].
  refine (proj1
    (fast_path (boot freshRecord []) 1%nat context0 firstLogin
       (snd (prelude context0 (world (boot freshRecord [])))) _ _ _)).
  - now split.
  - vm_compute. reflexivity.
  - vm_compute. reflexivity.
Defined.

(** ** A saved expiry that is not a number (C10) *)





(** ** The fallback chain (C7) *)

Lemma expiresAfter_not_expired now c :
  expiresAfter now c = true -> expiredAt now c = false.
Proof.
  unfold expiresAfter, expiredAt. destruct (expiryTime c) as [|t]; trivial.
  apply Number_gtb_leb.
Qed.

Lemma existsb_found now (j : list Cookie) :
  existsb (fun cookie => String.eqb (key cookie) "ssid" && expiresAfter now cookie)
    (List.filter (fun c => matches authSite c && negb (expiredAt now c)) j)
  = holdsLoginCookie now j.
Proof.
  unfold holdsLoginCookie, validLoginCookie, matchesAuthUrl.
  induction j as [|c j IH]; [reflexivity|]. simpl.
  destruct (matches authSite c); simpl.
  - destruct (expiresAfter now c) eqn:E.
    + rewrite (expiresAfter_not_expired _ _ E). simpl. rewrite E, IH.
      now rewrite !andb_true_r.
    + destruct (expiredAt now c); simpl; rewrite ?E, IH, ?andb_false_r;
        reflexivity.
  - rewrite IH, andb_false_r. reflexivity.
Qed.

Lemma hasLoginCookie_run env w :
  hasLoginCookie env w
  = (Return (holdsLoginCookie (cookieTime env) (jar (this w))),
     pruned (cookieTime env) w).
Proof.
  unfold hasLoginCookie, bind. rewrite get_this_run. cbv beta iota.
  unfold pruned, getCookiesSync, getCookies. cbv beta iota zeta.
  rewrite set_this_run. cbv beta iota. unfold ret, updated. cbn [snd].
  now rewrite existsb_found.
Qed.

Lemma reauthToken_run env w :
  reauthToken env w
  = (reauthOutcome (authorize env),
     updated (received (authorizeTime env) signInSite (authorize env))
       (logged (Fetch signInUrl None) w)).
Proof.
  unfold reauthToken, bind, fetch, bind, reauthOutcome.
  rewrite emit_run. cbv beta iota. rewrite set_this_run. cbv beta iota.
  destruct (answer (authorize env)) as [u|e|]; trivial.
  now destruct (getTokenDataFromURL u).
Qed.

Lemma obtainToken_run env w :
  obtainToken env w
  = if holdsLoginCookie (cookieTime env) (jar (this w)) then
      try_catch (reauthToken env) (fun _ => logIn env)
        (logged (Info "Trying to re-auth with login cookie")
           (pruned (cookieTime env) w))
    else
      logIn env (logged (Info "Requesting login") (pruned (cookieTime env) w)).
Proof.
  unfold obtainToken, bind at 1. rewrite hasLoginCookie_run.
  destruct (holdsLoginCookie (cookieTime env) (jar (this w)));
    unfold bind, logger_info; now rewrite emit_run.
Qed.

Lemma window_counts d :
  forallb window_event d = true ->
  silentAttempts d = 0%nat /\ logins d = 0%nat.
Proof.
  intros F. split.
  - apply (count_none window_event _ d F). now intros [].
  - apply (count_none window_event _ d F).
    intros [m| | | | | | |]; try discriminate; try reflexivity. simpl.
    destruct (String.eqb "Signing in..." m) eqn:E; trivial.
    apply String.eqb_eq in E. now subst.
Qed.

(** What an interactive login adds to the counts. *)
Lemma logIn_counts env w :
  silentAttempts (trace (snd (logIn env w))) = silentAttempts (trace w)
  /\ logins (trace (snd (logIn env w))) = S (logins (trace w)).
Proof.
  destruct (logIn_trace env w) as (d & -> & F).
  destruct (window_counts d F) as [Hs Hl].
  unfold silentAttempts, logins in *.
  change (Info "Signing in..." :: d) with ([Info "Signing in..."] ++ d)%list.
  rewrite !count_app, Hs, Hl. cbn. lia.
Qed.

(** With a valid login cookie in the jar a silent attempt is made. *)
Lemma silent_attempt_made env w :
  holdsLoginCookie (cookieTime env) (jar (this w)) = true ->
  silentAttempts (trace (snd (obtainToken env w)))
  = S (silentAttempts (trace w)).
Proof.
  intros H. rewrite obtainToken_run, H. unfold try_catch.
  rewrite reauthToken_run.
  destruct (reauthOutcome (authorize env)) as [td|e|]; cbn [snd].
  - cbn [trace logged updated pruned]. unfold silentAttempts.
    rewrite !count_app. cbn. lia.
  - rewrite (proj1 (logIn_counts env _)).
    cbn [trace logged updated pruned]. unfold silentAttempts.
    rewrite !count_app. cbn. lia.
  - cbn [trace logged updated pruned]. unfold silentAttempts.
    rewrite !count_app. cbn. lia.
Qed.

Lemma reauthOutcome_parsed env location td :
  answer (authorize env) = Return location ->
  getTokenDataFromURL location = inr td ->
  reauthOutcome (authorize env) = Return td.
Proof. intros Ha Hg. unfold reauthOutcome. now rewrite Ha, Hg. Qed.

(** A silent attempt that returns is the end of the acquisition. *)
Lemma silent_attempt_final env w td :
  holdsLoginCookie (cookieTime env) (jar (this w)) = true ->
  reauthOutcome (authorize env) = Return td ->
  obtainToken env w
  = (Return td,
     updated (received (authorizeTime env) signInSite (authorize env))
       (logged (Fetch signInUrl None)
          (logged (Info "Trying to re-auth with login cookie")
             (pruned (cookieTime env) w))))
  /\ logins (trace (snd (obtainToken env w))) = logins (trace w).
Proof.
  intros H Hr. rewrite obtainToken_run, H. unfold try_catch.
  rewrite reauthToken_run, Hr. split; [reflexivity|]. cbn [snd].
  cbn [trace logged updated pruned]. unfold logins.
  rewrite !count_app. cbn. lia.
Qed.

(** C7, as the code has it.  A silent re-authentication is attempted exactly
    when the lookup of [hasLoginCookie] finds an [ssid] cookie that expires
    after its clock reading.  The jar finds a cookie under the domain it
    was stored with, as written: the cookie counts when that domain is
    [auth.riotgames.com], or [riotgames.com] for a cookie that is not
    host-only, and its path is [/]; a cookie stored under another spelling
    of the host (a leading dot, capitals) is not found.  Otherwise the
    interactive login is started directly.  An attempt that throws (the
    request is rejected, or the [location] header is missing or is not a
    url) is followed by the interactive login, whose outcome becomes the
    outcome of the acquisition.  An attempt that does not throw is final:
    the redirect's token data is taken as it is, also when it holds no
    token, and no interactive login takes place; a redirect to the callback
    url never throws. *)
Theorem fallback_chain env w :
  (forall now c,
     validLoginCookie now c = true <->
     key c = "ssid"
     /\ (domain c = authHost
         \/ (domain c = "riotgames.com" /\ hostOnly c = false))
     /\ (path c = "/" \/ path c = "")
     /\ expiresAfter now c = true)
  /\ (holdsLoginCookie (cookieTime env) (jar (this w)) = false ->
      obtainToken env w
      = logIn env (logged (Info "Requesting login") (pruned (cookieTime env) w))
      /\ silentAttempts (trace (snd (obtainToken env w)))
         = silentAttempts (trace w)
      /\ logins (trace (snd (obtainToken env w))) = S (logins (trace w)))
  /\ (holdsLoginCookie (cookieTime env) (jar (this w)) = true ->
      silentAttempts (trace (snd (obtainToken env w)))
      = S (silentAttempts (trace w))
      /\ (forall e,
            reauthOutcome (authorize env) = Throw e ->
            obtainToken env w
            = logIn env
                (updated (received (authorizeTime env) signInSite (authorize env))
                   (logged (Fetch signInUrl None)
                      (logged (Info "Trying to re-auth with login cookie")
                         (pruned (cookieTime env) w))))
            /\ logins (trace (snd (obtainToken env w))) = S (logins (trace w)))
      /\ (forall location td,
            answer (authorize env) = Return (Some location) ->
            plainUrl location = true ->
            getTokenDataFromURL (Some location) = inr td ->
            fst (obtainToken env w) = Return td
            /\ logins (trace (snd (obtainToken env w))) = logins (trace w))
      /\ (forall rest,
            answer (authorize env) = Return (Some (callbackUrl ++ rest)) ->
            exists td,
              getTokenDataFromURL (Some (callbackUrl ++ rest)) = inr td
              /\ fst (obtainToken env w) = Return td
              /\ logins (trace (snd (obtainToken env w))) = logins (trace w)))
  /\ (forall e, reauthOutcome (authorize env) = Throw e <->
        answer (authorize env) = Throw e
        \/ exists location,
             answer (authorize env) = Return location
             /\ getTokenDataFromURL location = inl e)
  /\ (answer (authorize env) = Return None ->
      reauthOutcome (authorize env)
      = Throw (Error ("Bad url: " ++ dquote ++ "null" ++ dquote))).
Proof.
  split; [apply validLoginCookie_spec|]. split; [|split; [|split]].
  - intros H. rewrite obtainToken_run, H. split; [reflexivity|].
    destruct (logIn_counts env
                (logged (Info "Requesting login") (pruned (cookieTime env) w)))
      as [-> ->].
    cbn [trace logged pruned]. unfold silentAttempts, logins.
    rewrite !count_app. cbn. split; lia.
  - intros H. split; [now apply silent_attempt_made|]. split; [|split].
    + intros e He. rewrite obtainToken_run, H. unfold try_catch.
      rewrite reauthToken_run, He. split; [reflexivity|].
      rewrite (proj2 (logIn_counts env _)).
      cbn [trace logged updated pruned]. unfold logins.
      rewrite !count_app. cbn. lia.
    + intros location td Ha _ Hg.
      destruct (silent_attempt_final env w td H
                  (reauthOutcome_parsed _ _ _ Ha Hg)) as [-> Hl].
      now split.
    + intros rest Ha.
      destruct (callback_parses (callbackUrl ++ rest)) as [td Hg].
      { apply prefix_app. }
      exists td. split; [exact Hg|].
      destruct (silent_attempt_final env w td H
                  (reauthOutcome_parsed _ _ _ Ha Hg)) as [-> Hl].
      now split.
  - intros e. unfold reauthOutcome.
    destruct (answer (authorize env)) as [u|e'|].
    + destruct (getTokenDataFromURL u) as [e'|td] eqn:E; split.
      * intros [= ->]. right. now exists u.
      * intros [H | (u' & [= <-] & H)]; [discriminate|]. congruence.
      * discriminate.
      * intros [H | (u' & [= <-] & H)]; [discriminate|]. congruence.
    + split.
      * intros [= ->]. now left.
      * intros [[= ->] | (u' & H & _)]; [reflexivity | discriminate].
    + split; [discriminate|].
      intros [H | (u' & H & _)]; discriminate.
  - intros Ha. unfold reauthOutcome. rewrite Ha. reflexivity.
Qed.

(** The login cookie is good and the response carries no [location]
    header: the attempt throws [Bad url] and the interactive login follows. *)
Lemma fallback_chain_witness :
  holdsLoginCookie (cookieTime notRedirected) (jar (this (world loggedIn))) = true
  /\ reauthOutcome (authorize notRedirected)
     = Throw (Error ("Bad url: " ++ dquote ++ "null" ++ dquote))
  /\ logins (trace (snd (obtainToken notRedirected (world loggedIn))))
     = S (logins (trace (world loggedIn))).
Proof.
  assert (H : holdsLoginCookie (cookieTime notRedirected)
                (jar (this (world loggedIn))) = true).
  { vm_compute. reflexivity. }
  assert (E : reauthOutcome (authorize notRedirected)
              = Throw (Error ("Bad url: " ++ dquote ++ "null" ++ dquote))).
  { vm_compute. reflexivity. }
  split; [exact H|]. split; [exact E|].
  exact (proj2 (proj1 (proj2 (proj1 (proj2 (proj2
           (fallback_chain notRedirected (world loggedIn)))) H)) _ E)).
Defined.

(** C7 fails as stated: the jar holds a login cookie that has not expired,
    the silent attempt is made, and the authorization endpoint redirects to
    a url without a fragment.  The attempt has obtained no token, yet there
    is no interactive login and the renewal does not fail either: the
    caller gets a [null] token.  And a jar that holds an [ssid] cookie with
    a future expiry under the domain [.auth.riotgames.com] does not count
    as holding a login cookie: no silent attempt is made with it. *)
Lemma silent_attempt_without_token_is_final :
  holdsLoginCookie (cookieTime fragmentMissing) (jar (this (world loggedIn)))
  = true
  /\ reauthOutcome (authorize fragmentMissing)
     = Return {| accessToken := Null; expiresIn := Null |}
  /\ silentAttempts (trace (world (invoke 2%nat context0 fragmentMissing loggedIn)))
     = S (silentAttempts (trace (world loggedIn)))
  /\ logins (trace (world (invoke 2%nat context0 fragmentMissing loggedIn)))
     = logins (trace (world loggedIn))
  /\ delivered (invoke 2%nat context0 fragmentMissing loggedIn)
     = (delivered loggedIn
        ++ [(2%nat, inr {| Result.entitlement := Undefined;
                           Result.token := Null;
                           Result.puuid := Undefined |})])%list
  /\ holdsLoginCookie 5000000
       [mkCookie "ssid" "s1" (Time (Num 9000000)) ".auth.riotgames.com" "/"
          true true false]
     = false.
Proof. vm_compute. repeat split. Qed.

(** ** Reading the saved record (C8) *)

Lemma Adds_weaken (p q : Event -> bool) w w' :
  (forall e, p e = true -> q e = true) -> Adds p w w' -> Adds q w w'.
Proof.
  intros H (d & Hd & F). exists d. split; [exact Hd|].
  induction d as [|e d IH] in F |- *; [reflexivity|]. simpl in *.
  apply andb_true_iff in F as [Fe Fd]. now rewrite (H e Fe), IH.
Qed.

Lemma acquisition_is_renewal e :
  acquisition_event e = true -> renewal_event e = true.
Proof.
  destruct e as [m| | | | | | |]; try discriminate; try reflexivity.
  unfold acquisition_event, login_event, window_event, is_info, renewal_event.
  destruct (String.eqb m "Loading saved Riot data from store") eqn:E; trivial.
  apply String.eqb_eq in E. subst. discriminate.
Qed.

Lemma Adds_more (p : Event -> bool) w w' d :
  Adds p w w' -> forallb p d = true ->
  forall w'', trace w'' = (trace w' ++ d)%list -> Adds p w w''.
Proof.
  intros H F w'' Ht. apply (Adds_trans p w w' w''); trivial. now exists d.
Qed.

(** A renewal adds renewal events only: it reads nothing from the store. *)
Lemma renew_adds context env w :
  Adds renewal_event w (snd (renew context env w)).
Proof.
  rewrite renew_run.
  pose proof (obtainToken_adds env (logged (Info "Token has expired") w)) as Ha.
  apply (Adds_weaken _ _ _ _ acquisition_is_renewal) in Ha.
  assert (H0 : Adds renewal_event w (logged (Info "Token has expired") w)).
  { now apply Adds_logged. }
  destruct (obtainToken env (logged (Info "Token has expired") w))
    as [[td|e|] w2]; cbn [snd] in *.
  - assert (H2 : Adds renewal_event w w2) by (eapply Adds_trans; eauto).
    rewrite derive_run.
    destruct (answer (entitlements env (accessToken td))) as [v|e|].
    + destruct (answer (userinfo env (accessToken td))) as [u|e|]; cbn [snd].
      * destruct (serializeSync (jar (derived env td v u (this w2))));
          cbn [snd].
        -- now apply (Adds_more _ _ _
                        (savingExpiry (ctx_store context) env td) H2).
        -- now apply (Adds_more _ _ _
                        (saving (ctx_store context)
                           (derived env td v u (this w2))) H2).
      * now apply (Adds_more _ _ _ (lookup2 (accessToken td)) H2).
      * now apply (Adds_more _ _ _ (lookup2 (accessToken td)) H2).
    + now apply (Adds_more _ _ _ (lookup1 (accessToken td)) H2).
    + now apply (Adds_more _ _ _ (lookup1 (accessToken td)) H2).
  - eapply Adds_trans; [exact H0|]. eapply Adds_trans; [exact Ha|].
    now apply Adds_logged.
  - eapply Adds_trans; eauto.
Qed.

Lemma renewal_reads_nothing d :
  forallb renewal_event d = true ->
  loads d = 0%nat /\ count is_store_read d = 0%nat.
Proof.
  intros F. split.
  - apply (count_none renewal_event _ d F).
    intros [m| | | | | | |]; try discriminate; try reflexivity. simpl.
    intros H. apply negb_true_iff in H.
    destruct (String.eqb "Loading saved Riot data from store" m) eqn:E; trivial.
    apply String.eqb_eq in E. subst. discriminate.
  - apply (count_none renewal_event _ d F). now intros [].
Qed.

(** One run of [_newInvoke] reads the store only if it starts with
    [expiresAt] at 0, and then loads the record at most once. *)
Lemma _newInvoke_reads context env w :
  exists d,
    trace (snd (_newInvoke context env w)) = (trace w ++ d)%list
    /\ (loads d
        <= if Number_eqb (expiresAt (this w)) (Num 0) then 1 else 0)%nat
    /\ (count is_store_read d
        <= 6 * if Number_eqb (expiresAt (this w)) (Num 0) then 1 else 0)%nat.
Proof.
  assert (Hpre : exists d1,
            trace (snd (prelude context w)) = (trace w ++ d1)%list
            /\ (loads d1
                <= if Number_eqb (expiresAt (this w)) (Num 0) then 1 else 0)%nat
            /\ (count is_store_read d1
                <= 6 * if Number_eqb (expiresAt (this w)) (Num 0) then 1 else 0)%nat).
  { rewrite prelude_run.
    destruct (Number_eqb (expiresAt (this w)) (Num 0)).
    - destruct (bool_decide _).
      + destruct (deserializeSync _); cbn [snd trace];
          exists (loading (ctx_store context)); (split; [reflexivity|]);
          cbn; lia.
      + exists [HasItem (ctx_store context) "expiresAt"].
        split; [reflexivity|]. cbn. lia.
    - exists []. split; [cbn; now rewrite app_nil_r|]. cbn. lia. }
  destruct Hpre as (d1 & H1 & L1 & R1).
  destruct (prelude context w) as [[[]|e|] w1] eqn:Hp; cbn [snd] in H1.
  - rewrite (_newInvoke_prelude_Return _ _ _ _ Hp).
    destruct (Number_leb _ _).
    + unfold bind. destruct (renew_adds context env w1) as (d2 & H2 & F2).
      destruct (renew context env w1) as [[[]|e|] w3]; cbn [snd] in *;
        rewrite ?snapshot_run; cbn [snd];
        destruct (renewal_reads_nothing d2 F2) as [Hl Hr];
        exists (d1 ++ d2)%list; rewrite H2, H1, <- app_assoc;
        (split; [reflexivity|]); unfold loads in *; rewrite !count_app; lia.
    + exists d1. cbn [snd]. now repeat split.
  - rewrite (_newInvoke_prelude_Throw _ _ _ _ _ Hp). exists d1. now repeat split.
  - now destruct (prelude_not_Never context w); rewrite Hp.
Qed.

(** C8, as the code has it.  The load is guarded by [expiresAt === 0]
    alone: in any sequence of operations the saved record is loaded at most
    once by each invocation that starts while [expiresAt] is 0, and an
    invocation that starts with any other [expiresAt], [NaN] included, reads
    nothing from the store.  The record is thus read once for the life of
    the process only as long as [expiresAt] does not come back to 0. *)
Theorem record_reads_bounded ops : forall l,
  (loads (trace (world (run ops l)))
   <= loads (trace (world l)) + startsAtZero ops l)%nat
  /\ (count is_store_read (trace (world (run ops l)))
      <= count is_store_read (trace (world l)) + 6 * startsAtZero ops l)%nat.
Proof.
  induction ops as [|op ops IH]; intros l; [cbn; lia|].
  unfold run in *. cbn [fold_left startsAtZero].
  destruct (IH (perform l op)) as [IHl IHr]. clear IH.
  assert (Hstep :
    (loads (trace (world (perform l op)))
     <= loads (trace (world l))
        + match op with
          | Invoke _ _ _ =>
              if Number_eqb (expiresAt (this (world l))) (Num 0) then 1 else 0
          | ClearAccount => 0
          end)%nat
    /\ (count is_store_read (trace (world (perform l op)))
        <= count is_store_read (trace (world l))
           + 6 * match op with
                 | Invoke _ _ _ =>
                     if Number_eqb (expiresAt (this (world l))) (Num 0)
                     then 1 else 0
                 | ClearAccount => 0
                 end)%nat).
  { destruct op as [c context env|]; cbn [perform world].
    - destruct (invoke_world c context env l) as [-> | [context' ->]]; [lia|].
      destruct (_newInvoke_reads context' env (world l)) as (d & -> & Hl & Hr).
      unfold loads in *. rewrite !count_app. lia.
    - rewrite clearAccount_run. unfold cleared. cbn [snd trace].
      unfold loads. rewrite !count_app.
      destruct (store (this (world l))); cbn; lia. }
  lia.
Qed.

(** C8 fails as stated: the saved [expiresAt] reads as 0 and the user
    closes the login window twice.  Both invocations load the record. *)
Lemma record_with_zero_expiry_is_read_twice :
  loads (trace (world (invoke 1%nat context0 windowClosed (boot zeroRecord []))))
  = 1%nat
  /\ expiresAt (this (world (invoke 1%nat context0 windowClosed
                               (boot zeroRecord [])))) = Num 0
  /\ loads (trace (world (run [Invoke 1%nat context0 windowClosed;
                               Invoke 2%nat context0 windowClosed]
                            (boot zeroRecord [])))) = 2%nat.
Proof. vm_compute. repeat split. Qed.

(** ** Generations of credentials (C4) *)

Lemma Number_leb_later a T T' :
  Number_leb a (Num T) = true -> T <= T' -> Number_leb a (Num T') = true.
Proof.
  destruct a as [|x]; cbn; [discriminate|].
  intros H Hle. apply Z.leb_le in H. apply Z.leb_le. lia.
Qed.

Section Generations.

Variables issuedE issuedP : Value -> Value -> Prop.

Abbreviation sameGen := (sameGeneration issuedE issuedP).
Abbreviation providerGen := (providerGeneration issuedE issuedP).
Abbreviation savedGen := (savedGeneration issuedE issuedP).
Abbreviation settledGen := (settledGeneration issuedE issuedP).

Lemma savedGeneration_saved s p st :
  savedGen st -> providerGen p -> savedGen (saved s p st).
Proof.
  intros Hst Hp s' m. unfold saved.
  destruct (decide (s' = s)) as [->|Hne].
  - rewrite lookup_insert_eq. intros [= <-].
    rewrite lookup_insert_ne by discriminate.
    rewrite lookup_insert_ne by discriminate.
    rewrite lookup_insert_eq.
    rewrite (lookup_insert_ne _ "puuid" "entitlement") by discriminate.
    rewrite lookup_insert_eq.
    rewrite lookup_insert_eq.
    exact Hp.
  - rewrite lookup_insert_ne by congruence. apply Hst.
Qed.

Lemma savedGeneration_expiry s x st :
  savedGen st ->
  savedGen (<[s := <["expiresAt" := x]> (default ∅ (st !! s))]> st).
Proof.
  intros Hst s' m.
  destruct (decide (s' = s)) as [->|Hne].
  - rewrite lookup_insert_eq. intros [= <-].
    rewrite !lookup_insert_ne by discriminate.
    destruct (st !! s) as [m0|] eqn:E.
    + cbn [default from_option]. exact (Hst s m0 E).
    + left. cbn [default from_option]. rewrite !lookup_empty.
      now repeat split.
  - rewrite lookup_insert_ne by congruence. apply Hst.
Qed.

Lemma savedGeneration_cleared w :
  savedGen (stores w) -> savedGen (stores (cleared w)).
Proof.
  intros Hst. unfold cleared. cbn [stores].
  destruct (store (this w)) as [s|]; [|exact Hst].
  intros s' m. destruct (decide (s' = s)) as [->|Hne].
  - rewrite lookup_insert_eq. intros [= <-]. left.
    rewrite (lookup_delete_ne _ "cookies" "token") by discriminate.
    rewrite (lookup_delete_ne _ "puuid" "token") by discriminate.
    rewrite (lookup_delete_ne _ "entitlement" "token") by discriminate.
    rewrite (lookup_delete_eq _ "token").
    rewrite (lookup_delete_ne _ "cookies" "entitlement") by discriminate.
    rewrite (lookup_delete_ne _ "puuid" "entitlement") by discriminate.
    rewrite (lookup_delete_eq _ "entitlement").
    rewrite (lookup_delete_ne _ "cookies" "puuid") by discriminate.
    rewrite (lookup_delete_eq _ "puuid").
    now repeat split.
  - rewrite lookup_insert_ne by congruence. apply Hst.
Qed.

Lemma providerGeneration_restored s w :
  savedGen (stores w) -> providerGen (restored s w).
Proof.
  intros Hst. unfold providerGeneration, restored, items. cbn.
  destruct (stores w !! s) as [m|] eqn:E.
  - cbn [default from_option]. exact (Hst s m E).
  - left. cbn [default from_option]. rewrite !lookup_empty. now repeat split.
Qed.

(** The prelude leaves a state of one generation, or the credentials as
    they were. *)
Lemma prelude_generation context w :
  savedGen (stores w) ->
  providerGen (this (snd (prelude context w)))
  \/ (expiresAt (this (snd (prelude context w))) = expiresAt (this w)
      /\ token (this (snd (prelude context w))) = token (this w)
      /\ entitlement (this (snd (prelude context w))) = entitlement (this w)
      /\ puuid (this (snd (prelude context w))) = puuid (this w)).
Proof.
  intros Hst.
  pose proof (providerGeneration_restored (ctx_store context) w Hst) as Hr.
  prelude_cases.
  - left. exact Hr.
  - left. exact Hr.
  - right. cbn. unfold checked. now destruct (store (this w)).
  - right. cbn. unfold checked. now destruct (store (this w)).
Qed.

(** One run of [_newInvoke] under honest answers, at a clock reading not
    earlier than [T]. *)
Lemma _newInvoke_generation context env w T :
  settledGen T w ->
  T <= currentTime env ->
  honest issuedE issuedP env ->
  settledGen (currentTime env) (snd (_newInvoke context env w))
  /\ forall r, fst (_newInvoke context env w) = Return r ->
       resultGeneration issuedE issuedP r.
Proof.
  intros [Hst Hg] HT [HE HP].
  pose proof (prelude_outside context w) as [Hs1 _].
  pose proof (prelude_generation context w Hst) as Hg1.
  destruct (prelude context w) as [[[]|e|] w1] eqn:Hp; cbn [snd] in *.
  - (* the prelude returns *)
    assert (Hst1 : savedGen (stores w1)) by now rewrite Hs1.
    assert (Hg1' : providerGen (this w1)
                   \/ Number_leb (expiresAt (this w1)) (Num (currentTime env))
                      = true).
    { destruct Hg1 as [H | (He & Ht & Hen & Hpu)]; [now left|].
      destruct Hg as [H | H].
      - left. unfold providerGeneration in *. now rewrite Ht, Hen, Hpu.
      - right. rewrite He. now apply (Number_leb_later _ T). }
    rewrite (_newInvoke_prelude_Return _ _ _ _ Hp).
    destruct (Number_leb (expiresAt (this w1)) (Num (currentTime env))) eqn:Hx.
    + (* renewal *)
      unfold bind. rewrite renew_run.
      destruct (obtainToken env (logged (Info "Token has expired") w1))
        as [o w2] eqn:Ho.
      destruct (credentials_of_acquisition _ _ _ _ Ho)
        as (Hs2 & He2 & Ht2 & Hen2 & Hpu2 & _).
      assert (Hst2 : savedGen (stores w2)) by now rewrite Hs2.
      assert (Hx2 : Number_leb (expiresAt (this w2)) (Num (currentTime env))
                    = true) by now rewrite He2.
      destruct o as [td|e|].
      * rewrite derive_run.
        destruct (answer (entitlements env (accessToken td))) as [v|e|] eqn:Ee;
          [| split; [split; [exact Hst2 | right; exact Hx2] | discriminate]
           | split; [split; [exact Hst2 | right; exact Hx2] | discriminate] ].
        destruct (answer (userinfo env (accessToken td))) as [u|e|] eqn:Eu;
          [| split; [split; [exact Hst2 | right; exact Hx2] | discriminate]
           | split; [split; [exact Hst2 | right; exact Hx2] | discriminate] ].
        assert (Hd : providerGen (derived env td v u (this w2))).
        { right. split; [apply HE, Ee | apply HP, Eu]. }
        destruct (serializeSync (jar (derived env td v u (this w2))))
          as [e|serialized].
        { cbn [fst snd]. split; [|discriminate].
          split; [|left; exact Hd].
          unfold afterExpiry. cbn [stores].
          now apply savedGeneration_expiry. }
        rewrite snapshot_run. cbn [fst snd].
        split.
        -- split; [|left; exact Hd].
           unfold afterSaving. cbn [stores].
           now apply savedGeneration_saved.
        -- intros r [= <-]. exact Hd.
      * split; [|discriminate]. split; [exact Hst2|]. right. exact Hx2.
      * split; [|discriminate]. split; [exact Hst2|]. right. exact Hx2.
    + (* fresh *)
      cbn [fst snd]. destruct Hg1' as [H | H]; [|discriminate].
      split; [split; [exact Hst1 | now left]|].
      intros r [= <-]. exact H.
  - (* the prelude throws: the fields were loaded *)
    rewrite (_newInvoke_prelude_Throw _ _ _ _ _ Hp). cbn [fst snd].
    split; [|discriminate]. split; [now rewrite Hs1|].
    destruct Hg1 as [H | (He & Ht & Hen & Hpu)]; [now left|].
    destruct Hg as [H | H].
    + left. unfold providerGeneration in *. now rewrite Ht, Hen, Hpu.
    + right. rewrite He. now apply (Number_leb_later _ T).
  - now destruct (prelude_not_Never context w); rewrite Hp.
Qed.

Lemma consistent_later T T' l :
  consistent issuedE issuedP T l -> T <= T' -> consistent issuedE issuedP T' l.
Proof.
  intros ((Hst & Hg) & Hp & Hd) Hle. repeat split; trivial.
  destruct Hg as [H | H]; [now left | right].
  now apply (Number_leb_later _ T).
Qed.

Lemma call_consistent T c context l :
  consistent issuedE issuedP T l ->
  consistent issuedE issuedP T (call c context l).
Proof.
  intros (Hw & Hp & Hd). unfold call.
  destruct (pending l); repeat split; trivial; cbn [promises];
    try apply Hw.
  apply Forall_app. split; [exact Hp|]. now repeat constructor.
Qed.

Lemma settle_consistent T p env l :
  consistent issuedE issuedP T l ->
  T <= currentTime env ->
  honest issuedE issuedP env ->
  consistent issuedE issuedP (currentTime env) (settle p env l).
Proof.
  intros Hc HT Hh. unfold settle.
  destruct (promises l !! p) as [[context| |o]|];
    try (now apply (consistent_later T)).
  destruct Hc as (Hw & Hp & Hd).
  destruct (_newInvoke_generation context env (world l) T Hw HT Hh) as [Hw' Hr].
  destruct (_newInvoke context env (world l)) as [o w']. cbn [fst snd] in *.
  repeat split; cbn [world promises delivered]; trivial; try apply Hw'.
  apply Forall_insert; [exact Hp|].
  destruct o as [r|e|]; cbn; trivial. now apply Hr.
Qed.

Lemma resume_consistent T c l :
  consistent issuedE issuedP T l -> consistent issuedE issuedP T (resume c l).
Proof.
  intros Hc. unfold resume.
  destruct (suspension c (awaiting l)) as [[p rest]|]; [|exact Hc].
  destruct (promises l !! p) as [[| |o]|] eqn:E; try exact Hc.
  destruct Hc as (Hw & Hp & Hd).
  repeat split; cbn [world promises delivered]; trivial; try apply Hw.
  apply Forall_app. split; [exact Hd|]. repeat constructor.
  exact (Forall_lookup_1 _ _ _ _ Hp E).
Qed.

Lemma perform_consistent T op l :
  consistent issuedE issuedP T l ->
  chronological T [op] ->
  honestOp issuedE issuedP op ->
  consistent issuedE issuedP (clockAfter T [op]) (perform l op).
Proof.
  intros Hc Hch Hh.
  destruct op as [c context env|];
    cbn [perform chronological clockAfter honestOp] in *.
  - destruct Hch as [HT _]. unfold invoke.
    pose proof (call_consistent T c context l Hc) as H1.
    destruct (pending (call c context l)) as [p|].
    + apply resume_consistent. now apply (settle_consistent T).
    + now apply (consistent_later T).
  - destruct Hc as ((Hst & Hg) & Hp & Hd). rewrite clearAccount_run.
    repeat split; cbn [world promises delivered snd]; trivial.
    + now apply savedGeneration_cleared.
    + left. left. now repeat split.
Qed.

(** C4, as the code has it.  Starting from saved records and an instance
    of one generation, under answers the provider has issued and clock
    readings that do not go backwards, after every sequence of [invoke] and
    [clearAccount] operations issued one after the other, each over before
    the next begins, the saved records are of one generation, and so is
    every result a caller was handed.  The instance itself is of one
    generation too, unless a renewal failed or stalled during derivation:
    then [token] (and [entitlement], when it was [getPUUID] that failed) is
    of a newer generation than the rest, and [expiresAt] is still the old
    one, not later than the clock reading of that renewal.  A
    [clearAccount] that runs while a renewal waits for a lookup is not such
    a sequence: see [_newInvokeDuring]. *)
Theorem generations_kept ops : forall l T,
  consistent issuedE issuedP T l ->
  chronological T ops ->
  Forall (honestOp issuedE issuedP) ops ->
  consistent issuedE issuedP (clockAfter T ops) (run ops l).
Proof.
  induction ops as [|op ops IH]; intros l T Hc Hch Hh; [exact Hc|].
  unfold run in *. cbn [fold_left].
  inversion Hh as [|? ? Hop Hops]; subst.
  assert (H1 : consistent issuedE issuedP (clockAfter T [op]) (perform l op)).
  { apply perform_consistent; trivial.
    destruct op; cbn [chronological] in *;
      [split; [apply Hch | trivial] | trivial]. }
  destruct op as [c context env|]; cbn [chronological clockAfter] in *.
  - apply IH; trivial. apply Hch.
  - apply IH; trivial.
Qed.

End Generations.

(** Two logins of the scenario, the second with the entitlements endpoint
    down: the invariant holds at the end. *)
Lemma generations_kept_witness :
  consistent riotIssuedE riotIssuedP 0 (boot ∅ [])
  /\ chronological 0 [Invoke 1%nat context0 firstLogin;
                      Invoke 2%nat context0 entitlementsDown]
  /\ consistent riotIssuedE riotIssuedP (currentTime entitlementsDown)
       (run [Invoke 1%nat context0 firstLogin;
             Invoke 2%nat context0 entitlementsDown] (boot ∅ [])).
Proof.
  assert (H0 : consistent riotIssuedE riotIssuedP 0 (boot ∅ [])).
  { split; [split|split].
    - intros s' m' H. cbn [boot world stores] in H.
      rewrite lookup_empty in H. discriminate.
    - left. left. now repeat split.
    - constructor.
    - constructor. }
  assert (Hc : chronological 0 [Invoke 1%nat context0 firstLogin;
                                Invoke 2%nat context0 entitlementsDown]).
  { cbn. lia. }
  split; [exact H0|]. split; [exact Hc|].
  apply (generations_kept riotIssuedE riotIssuedP
           [Invoke 1%nat context0 firstLogin;
            Invoke 2%nat context0 entitlementsDown] (boot ∅ []) 0 H0 Hc).
  repeat constructor; try (intros t v H; exact H); intros t v H; discriminate.
Defined.

(** C4 fails as stated, in two ways.  After the first login the instance
    holds [tok1] with the entitlement issued for it; the second login
    obtains [tok2] and fails in [getEntitlement].  The state it leaves
    holds [tok2] next to the entitlement that was issued for [tok1].  And
    when the user signs out while a renewal waits for the entitlement, the
    run goes on with the token that [clearAccount] has set to null: it
    asks for the player id bearing null, hands the caller the entitlement
    of [tok2] next to a null token, and saves that record. *)
Lemma generations_mix :
  honest riotIssuedE riotIssuedP firstLogin
  /\ honest riotIssuedE riotIssuedP entitlementsDown
  /\ token (this (world (run [Invoke 1%nat context0 firstLogin;
                              Invoke 2%nat context0 entitlementsDown]
                           (boot ∅ [])))) = Str "tok2"
  /\ entitlement (this (world (run [Invoke 1%nat context0 firstLogin;
                                    Invoke 2%nat context0 entitlementsDown]
                                 (boot ∅ [])))) = Str "ent1"
  /\ riotIssuedE (Str "tok1") (Str "ent1")
  /\ ~ providerGeneration riotIssuedE riotIssuedP
         (this (world (run [Invoke 1%nat context0 firstLogin;
                            Invoke 2%nat context0 entitlementsDown]
                         (boot ∅ []))))
  /\ honest riotIssuedE riotIssuedP notRedirected
  /\ fst (_newInvokeDuring context0 notRedirected signOutDuringLookup
            (world loggedIn))
     = Return {| Result.entitlement := Str "ent2";
                 Result.token := Null;
                 Result.puuid := Undefined |}
  /\ ~ resultGeneration riotIssuedE riotIssuedP
         {| Result.entitlement := Str "ent2";
            Result.token := Null;
            Result.puuid := Undefined |}
  /\ items 0%nat
       (snd (_newInvokeDuring context0 notRedirected signOutDuringLookup
               (world loggedIn))) !! "token" = Some Null
  /\ items 0%nat
       (snd (_newInvokeDuring context0 notRedirected signOutDuringLookup
               (world loggedIn))) !! "entitlement" = Some (Str "ent2")
  /\ In (Fetch userinfoUrl (Some Null))
       (trace (snd (_newInvokeDuring context0 notRedirected signOutDuringLookup
                      (world loggedIn)))).
Proof.
  split; [split; intros t v H; exact H|].
  split; [split; [intros t v H; discriminate | intros t v H; exact H]|].
  split; [vm_compute; reflexivity|]. split; [vm_compute; reflexivity|].
  split; [reflexivity|].
  split; [intros [(H & _) | (H & _)]; vm_compute in H; discriminate|].
  split; [split; intros t v H; exact H|].
  split; [vm_compute; reflexivity|].
  split; [intros [(_ & H & _) | (H & _)]; vm_compute in H; discriminate|].
  split; [vm_compute; reflexivity|]. split; [vm_compute; reflexivity|].
  vm_compute. repeat (first [left; reflexivity | right]).
Qed.

(** ** Fragment parsing (C9) *)





(** * The methods one by one *)

(** ** The store handle ([checkStore]) *)

Lemma _newInvoke_keeps_store context env w :
  store (this (snd (_newInvoke context env w)))
  = store (checked (ctx_store context) (this w)).
Proof.
  pose proof (prelude_store context w) as H1.
  destruct (prelude context w) as [[[]|e|] w1] eqn:Hp; cbn [snd] in H1.
  - rewrite (_newInvoke_prelude_Return _ _ _ _ Hp).
    destruct (Number_leb _ _); [|exact H1].
    unfold bind. rewrite renew_run.
    destruct (obtainToken env (logged (Info "Token has expired") w1))
      as [o w2] eqn:Ho.
    destruct (credentials_of_acquisition _ _ _ _ Ho) as (_&_&_&_&_&H2).
    destruct o as [td|e|]; [|cbn; congruence|cbn; congruence].
    rewrite derive_run.
    destruct (answer (entitlements env (accessToken td))) as [v|e|];
      [| cbn; congruence | cbn; congruence].
    destruct (answer (userinfo env (accessToken td))) as [u|e|];
      [destruct (serializeSync (jar (derived env td v u (this w2))))|..];
      cbn; congruence.
  - rewrite (_newInvoke_prelude_Throw _ _ _ _ _ Hp). exact H1.
  - now destruct (prelude_not_Never context w); rewrite Hp.
Qed.

(** X1: [this.store] is assigned once.  Once the instance knows a store,
    no sequence of [invoke] and [clearAccount] calls, whatever the contexts
    they are made with, makes it refer to another one. *)
Theorem store_is_set_once ops : forall l s,
  store (this (world l)) = Some s ->
  store (this (world (run ops l))) = Some s.
Proof.
  induction ops as [|op ops IH]; intros l s Hs; [exact Hs|].
  unfold run in *. cbn [fold_left]. apply IH. clear IH.
  destruct op as [c context env|]; cbn [perform world].
  - destruct (invoke_world c context env l) as [-> | [context' ->]]; trivial.
    rewrite _newInvoke_keeps_store. unfold checked. now rewrite Hs.
  - rewrite clearAccount_run. exact Hs.
Qed.

Lemma store_is_set_once_witness :
  store (this (world loggedIn)) = Some 0%nat
  /\ store (this (world (run [ClearAccount;
                              Invoke 2%nat (mkContext 1%nat) firstLogin]
                           loggedIn))) = Some 0%nat.
Proof.
  assert (H : store (this (world loggedIn)) = Some 0%nat).
  { vm_compute. reflexivity. }
  split; [exact H|]. apply (store_is_set_once _ loggedIn 0%nat H).
Defined.

(** ** Signing out ([clearAccount]) *)

Lemma delete_record (m : gmap string Value) k :
  In k recordKeys ->
  delete "cookies"
    (delete "puuid"
       (delete "entitlement" (delete "token" (delete "expiresAt" m)))) !! k
  = None.
Proof.
  intros H. rewrite !lookup_delete. repeat case_decide; trivial.
  unfold recordKeys in H. cbn [In] in H.
  destruct H as [H|[H|[H|[H|[H|[]]]]]]; congruence.
Qed.

(** X2: [clearAccount] puts the instance back where the constructor left
    it, its store handle apart: the jar and the session's cookies are
    empty, none of the five items is left in the store the instance
    knows, and a second [clearAccount] changes nothing any more. *)
Theorem clearAccount_idempotent w :
  let w1 := snd (clearAccount w) in
  let w2 := snd (clearAccount w1) in
  this w1 = with_store (store (this w)) constructor
  /\ session w1 = []
  /\ (forall s k, store (this w) = Some s -> In k recordKeys ->
        items s w1 !! k = None)
  /\ this w2 = this w1 /\ stores w2 = stores w1 /\ session w2 = session w1.
Proof.
  cbv zeta. rewrite !clearAccount_run. cbn [snd].
  split; [reflexivity|]. split; [reflexivity|]. split.
  - intros s k Hs Hk. unfold items, cleared. cbn [stores]. rewrite Hs.
    rewrite lookup_insert_eq. cbv beta iota delta [from_option id].
    now apply delete_record.
  - split; [reflexivity|]. split; [|reflexivity].
    unfold cleared. cbn [stores this store].
    destruct (store (this w)) as [s|]; [|reflexivity].
    rewrite lookup_insert_eq. cbv beta iota delta [from_option id].
    rewrite insert_insert_eq. f_equal.
    apply map_eq. intros k. rewrite !lookup_delete.
    repeat case_decide; trivial.
Qed.

(** ** From nothing to the login window *)

Lemma renew_tail context env w :
  exists d,
    trace (snd (renew context env w))
    = (trace (snd (obtainToken env (logged (Info "Token has expired") w)))
       ++ d)%list
    /\ forallb derivation_event d = true.
Proof.
  rewrite renew_run.
  destruct (obtainToken env (logged (Info "Token has expired") w))
    as [[td|e|] w2]; cbn [snd].
  - rewrite derive_run.
    destruct (answer (entitlements env (accessToken td))) as [v|e|].
    + destruct (answer (userinfo env (accessToken td))) as [u|e|];
        [destruct (serializeSync (jar (derived env td v u (this w2))))|..];
        cbn [snd afterSaving afterExpiry afterLookup2 trace]; eexists;
        (split; [reflexivity|vm_compute; reflexivity]).
    + cbn [snd afterLookup1 trace]. eexists.
      split; [reflexivity|vm_compute; reflexivity].
    + cbn [snd afterLookup1 trace]. eexists.
      split; [reflexivity|vm_compute; reflexivity].
  - exists [LoggedError "Error while refreshing token" e]. now split.
  - exists []. now rewrite app_nil_r.
Qed.

Lemma derivation_counts d :
  forallb derivation_event d = true ->
  loads d = 0%nat /\ renewals d = 0%nat
  /\ silentAttempts d = 0%nat /\ logins d = 0%nat
  /\ count is_store_read d = 0%nat.
Proof.
  intros F. repeat split; apply (count_none derivation_event _ d F);
    intros [m| | | | | |u [b|]|u]; try discriminate; try reflexivity;
    cbn [derivation_event is_info is_fetch]; intros H.
  - apply String.eqb_eq in H. now subst.
  - apply String.eqb_eq in H. now subst.
  - apply orb_true_iff in H as [H|H]; apply String.eqb_eq in H; now subst.
  - apply String.eqb_eq in H. now subst.
Qed.

Lemma window_reads_nothing d :
  forallb window_event d = true ->
  loads d = 0%nat /\ renewals d = 0%nat /\ count is_store_read d = 0%nat.
Proof.
  intros F. repeat split; apply (count_none window_event _ d F);
    intros [m| | | | | |u [b|]|u]; try discriminate; try reflexivity;
    cbn [window_event is_info]; intros H;
    repeat (apply orb_true_iff in H as [H|H]);
    apply String.eqb_eq in H; now subst.
Qed.

Lemma checked_fields s p :
  expiresAt (checked s p) = expiresAt p /\ jar (checked s p) = jar p.
Proof. unfold checked. now destruct (store p). Qed.

(** An instance that holds no account, over a store without a record:
    the run reads the store once, finds nothing, and opens the login
    window without a silent attempt. *)
Lemma login_from_scratch context env w :
  expiresAt (this w) = Num 0 ->
  jar (this w) = [] ->
  items (ctx_store context) w !! "expiresAt" = None ->
  0 <= currentTime env ->
  exists d,
    trace (snd (_newInvoke context env w)) = (trace w ++ d)%list
    /\ loads d = 0%nat /\ renewals d = 1%nat
    /\ silentAttempts d = 0%nat /\ logins d = 1%nat
    /\ count is_store_read d = 1%nat.
Proof.
  intros Hx Hj Hi Hn.
  destruct (checked_fields (ctx_store context) (this w)) as [Cx Cj].
  set (w1 := logged (HasItem (ctx_store context) "expiresAt")
               (updated (checked (ctx_store context)) w)).
  assert (Hp : prelude context w = (Return tt, w1)).
  { rewrite prelude_run, Hx, Hi. cbn [Number_eqb]. rewrite Z.eqb_refl.
    rewrite bool_decide_eq_false_2; [reflexivity|]. apply is_Some_None. }
  rewrite (_newInvoke_prelude_Return _ _ _ _ Hp).
  assert (Hl : Number_leb (expiresAt (this w1)) (Num (currentTime env)) = true).
  { subst w1. cbn [logged updated this]. rewrite Cx, Hx. cbn [Number_leb].
    now apply Z.leb_le. }
  rewrite Hl.
  assert (Ht : trace (snd (bind (renew context env) (fun _ => snapshot) w1))
               = trace (snd (renew context env w1))).
  { unfold bind. destruct (renew context env w1) as [[[]|e|] w3]; trivial. }
  rewrite Ht. destruct (renew_tail context env w1) as (d3 & -> & F3).
  rewrite obtainToken_run.
  assert (Hh : holdsLoginCookie (cookieTime env)
                 (jar (this (logged (Info "Token has expired") w1))) = false).
  { subst w1. cbn [logged updated this]. now rewrite Cj, Hj. }
  rewrite Hh.
  destruct (logIn_trace env
              (logged (Info "Requesting login")
                 (pruned (cookieTime env)
                    (logged (Info "Token has expired") w1))))
    as (d2 & -> & F2).
  subst w1. cbn [logged updated pruned trace].
  exists ([HasItem (ctx_store context) "expiresAt"; Info "Token has expired";
           Info "Requesting login"; Info "Signing in..."] ++ d2 ++ d3)%list.
  split; [now rewrite <- !app_assoc|].
  destruct (derivation_counts d3 F3) as (L3 & R3 & S3 & G3 & X3).
  destruct (window_reads_nothing d2 F2) as (L2 & R2 & X2).
  destruct (window_counts d2 F2) as (S2 & G2).
  unfold loads, renewals, silentAttempts, logins in *.
  rewrite !count_app, L2, L3, R2, R3, S2, S3, G2, G3, X2, X3.
  repeat split; reflexivity.
Qed.

(** X3: the first [invoke] on a new instance whose store holds no
    [expiresAt] item reads the store once, loads nothing, and goes straight
    to the interactive login: the constructor's empty jar holds no login
    cookie, so no silent re-authentication is attempted. *)
Theorem first_invoke_without_record st cs context env :
  default ∅ (st !! ctx_store context) !! "expiresAt" = None ->
  0 <= currentTime env ->
  forall c,
    let t := trace (world (invoke c context env (boot st cs))) in
    count is_store_read t = 1%nat /\ loads t = 0%nat /\ renewals t = 1%nat
    /\ silentAttempts t = 0%nat /\ logins t = 1%nat.
Proof.
  intros Hi Hn c. cbv zeta.
  rewrite invoke_alone by (split; reflexivity).
  destruct (_newInvoke context env (world (boot st cs))) as [o w'] eqn:Hr.
  destruct (concurrently_outcome (boot st cs) c context [] env o w'
              (conj eq_refl eq_refl) Hr) as [-> _].
  destruct (login_from_scratch context env (world (boot st cs))
              eq_refl eq_refl Hi Hn) as (d & Ht & L & R & S & G & X).
  rewrite Hr in Ht. cbn [snd boot world trace app] in Ht. rewrite Ht.
  repeat split; trivial.
Qed.

Lemma first_invoke_without_record_witness :
  default ∅ ((∅ : gmap StoreId (gmap string Value)) !! ctx_store context0)
    !! "expiresAt" = None
  /\ 0 <= currentTime firstLogin
  /\ logins (trace (world loggedIn)) = 1%nat
  /\ silentAttempts (trace (world loggedIn)) = 0%nat.
Proof.
  assert (Hi : default ∅ ((∅ : gmap StoreId (gmap string Value))
                            !! ctx_store context0) !! "expiresAt" = None).
  { vm_compute. reflexivity. }
  assert (Hn : 0 <= currentTime firstLogin) by (vm_compute; discriminate).
  split; [exact Hi|]. split; [exact Hn|].
  destruct (first_invoke_without_record ∅ [] context0 firstLogin Hi Hn
              1%nat) as (_ & _ & _ & S & G).
  split; [exact G|exact S].
Defined.

(** X4: after [clearAccount] the next [invoke] with the context whose
    store the instance knows finds no record, loads nothing, and opens the
    login window without a silent attempt: signing out really asks for a new
    login. *)
Theorem signout_forces_login w context env :
  store (this w) = Some (ctx_store context) ->
  0 <= currentTime env ->
  let w1 := snd (clearAccount w) in
  exists d,
    trace (snd (_newInvoke context env w1)) = (trace w1 ++ d)%list
    /\ loads d = 0%nat /\ renewals d = 1%nat
    /\ silentAttempts d = 0%nat /\ logins d = 1%nat.
Proof.
  intros Hs Hn. cbv zeta. rewrite clearAccount_run. cbn [snd].
  destruct (login_from_scratch context env (cleared w))
    as (d & Ht & L & R & S & G & _); trivial.
  - unfold items, cleared. cbn [stores]. rewrite Hs, lookup_insert_eq.
    cbv beta iota delta [from_option id].
    apply delete_record. unfold recordKeys. cbn [In]. now left.
  - exists d. repeat split; trivial.
Qed.

Lemma signout_forces_login_witness :
  store (this (world loggedIn)) = Some (ctx_store context0)
  /\ 0 <= currentTime windowClosed
  /\ exists d,
       trace (snd (_newInvoke context0 windowClosed
                     (snd (clearAccount (world loggedIn)))))
       = (trace (snd (clearAccount (world loggedIn))) ++ d)%list
       /\ logins d = 1%nat.
Proof.
  assert (Hs : store (this (world loggedIn)) = Some (ctx_store context0)).
  { vm_compute. reflexivity. }
  assert (Hn : 0 <= currentTime windowClosed) by (vm_compute; discriminate).
  split; [exact Hs|]. split; [exact Hn|].
  destruct (signout_forces_login (world loggedIn) context0 windowClosed Hs Hn)
    as (d & Ht & _ & _ & _ & G).
  exists d. split; [exact Ht|exact G].
Defined.

(** X5: on an instance that has not run [invoke] yet, [this.store] is
    still null and [clearAccount] removes nothing from the plugin store: a
    record saved by an earlier process survives the sign-out, and the next
    [invoke] loads it and hands out the saved credentials when they are
    still good, without asking for a login. *)
Theorem signout_before_first_invoke st cs c context env j :
  let record := default ∅ (st !! ctx_store context) in
  is_Some (record !! "expiresAt") ->
  deserializeSync (default Null (record !! "cookies")) = inr j ->
  Number_gtb (parseInt (default Null (record !! "expiresAt")))
    (Num (currentTime env)) = true ->
  let l := invoke c context env (perform (boot st cs) ClearAccount) in
  stores (world l) = st
  /\ delivered l
     = [(c, inr {| Result.entitlement := default Null (record !! "entitlement");
                   Result.token := default Null (record !! "token");
                   Result.puuid := default Null (record !! "puuid") |})]
  /\ loads (trace (world l)) = 1%nat
  /\ logins (trace (world l)) = 0%nat
  /\ count is_store_write (trace (world l)) = 0%nat.
Proof.
  cbv zeta. intros Hi Hj Hx.
  set (l0 := perform (boot st cs) ClearAccount).
  assert (Hq : quiescent l0) by (split; reflexivity).
  assert (Hw : world l0
               = mkWorld constructor st [] [Info "Clearing account"]).
  { subst l0. cbn [perform world boot]. now rewrite clearAccount_run. }
  set (s := ctx_store context) in *.
  set (w1 := mkWorld (with_jar j (restored s (world l0))) st []
               ([Info "Clearing account"] ++ loading s)%list).
  assert (Hp : prelude context (world l0) = (Return tt, w1)).
  { rewrite prelude_run. fold s. rewrite Hw.
    cbn [this constructor expiresAt Number_eqb Z.eqb]. unfold items.
    cbn [stores]. rewrite (bool_decide_eq_true_2 _ Hi), Hj.
    subst w1. now rewrite Hw. }
  assert (Hf : Number_leb (expiresAt (this w1)) (Num (currentTime env)) = false).
  { apply Number_gtb_leb. subst w1. cbn [this]. unfold restored, items.
    rewrite Hw. cbn [stores with_jar with_puuid with_entitlement with_token
                     with_expiresAt expiresAt]. exact Hx. }
  rewrite (invoke_alone _ _ _ _ Hq).
  destruct (concurrently_outcome l0 c context [] env _ _ Hq
              (_newInvoke_fresh _ _ _ _ Hp Hf)) as [-> Hd].
  destruct (Hd _ eq_refl) as (-> & _).
  subst w1. cbn [stores trace this].
  split; [reflexivity|]. split; [|now vm_compute].
  assert (Hd0 : delivered l0 = []) by reflexivity.
  rewrite Hd0. cbn [app map]. unfold credentials, restored.
  rewrite Hw. unfold items. cbn [stores]. reflexivity.
Qed.

Lemma signout_before_first_invoke_witness :
  is_Some (default ∅ (freshRecord !! ctx_store context0) !! "expiresAt")
  /\ Number_gtb
       (parseInt (default Null (default ∅ (freshRecord !! ctx_store context0)
                                  !! "expiresAt")))
       (Num (currentTime windowClosed)) = true
  /\ stores (world (invoke 1%nat context0 windowClosed
                      (perform (boot freshRecord []) ClearAccount)))
     = freshRecord.
Proof.
  assert (Hi : is_Some (default ∅ (freshRecord !! ctx_store context0)
                          !! "expiresAt")).
  { vm_compute. eexists. reflexivity. }
  assert (Hj : deserializeSync
                 (default Null (default ∅ (freshRecord !! ctx_store context0)
                                  !! "cookies")) = inr []).
  { vm_compute. reflexivity. }
  assert (Hx : Number_gtb
                 (parseInt (default Null
                              (default ∅ (freshRecord !! ctx_store context0)
                                 !! "expiresAt")))
                 (Num (currentTime windowClosed)) = true).
  { vm_compute. reflexivity. }
  split; [exact Hi|]. split; [exact Hx|].
  exact (proj1 (signout_before_first_invoke freshRecord [] 1%nat context0
                  windowClosed [] Hi Hj Hx)).
Defined.

(** ** What the provider leaves alone in the plugin store *)

Lemma stores_of_newInvoke context env w :
  stores (snd (_newInvoke context env w)) = stores w
  \/ (exists p,
        stores (snd (_newInvoke context env w))
        = saved (ctx_store context) p (stores w))
  \/ (exists x,
        stores (snd (_newInvoke context env w))
        = <[ctx_store context :=
              <["expiresAt" := x]>
                (default ∅ (stores w !! ctx_store context))]> (stores w)).
Proof.
  destruct (prelude_outside context w) as [H1 _].
  destruct (prelude context w) as [[[]|e|] w1] eqn:Hp; cbn [snd] in H1.
  - rewrite (_newInvoke_prelude_Return _ _ _ _ Hp).
    destruct (Number_leb _ _); [|now left].
    unfold bind. rewrite renew_run.
    destruct (obtainToken env (logged (Info "Token has expired") w1))
      as [o w2] eqn:Ho.
    destruct (credentials_of_acquisition _ _ _ _ Ho) as (H2&_).
    cbn [logged stores] in H2.
    destruct o as [td|e|]; [|left; cbn; congruence|left; cbn; congruence].
    rewrite derive_run.
    destruct (answer (entitlements env (accessToken td))) as [v|e|];
      [| left; cbn; congruence | left; cbn; congruence].
    destruct (answer (userinfo env (accessToken td))) as [u|e|];
      [| left; cbn; congruence | left; cbn; congruence].
    destruct (serializeSync (jar (derived env td v u (this w2))))
      as [e|serialized].
    { right. right. exists (Numeric (newExpiry env td)).
      cbn [snd afterExpiry stores]. congruence. }
    right. left. exists (derived env td v u (this w2)).
    rewrite snapshot_run. cbn [snd afterSaving stores]. congruence.
  - rewrite (_newInvoke_prelude_Throw _ _ _ _ _ Hp). now left.
  - now destruct (prelude_not_Never context w); rewrite Hp.
Qed.

(** X6: whatever is called, in whatever order and with whatever contexts,
    the provider sets and removes only the five keys of its record: an item
    under any other key, in any store, is as it was. *)
Theorem other_items_untouched ops : forall l s k,
  ~ In k recordKeys ->
  items s (world (run ops l)) !! k = items s (world l) !! k.
Proof.
  induction ops as [|op ops IH]; intros l s k Hk; [reflexivity|].
  unfold run in *. cbn [fold_left]. rewrite IH by exact Hk. clear IH.
  assert (K : "expiresAt" <> k /\ "token" <> k /\ "entitlement" <> k
              /\ "puuid" <> k /\ "cookies" <> k).
  { unfold recordKeys in Hk. cbn [In] in Hk. repeat split; intros E; subst k; apply Hk; auto 10. }
  destruct K as (K1 & K2 & K3 & K4 & K5).
  destruct op as [c context env|]; cbn [perform world].
  - destruct (invoke_world c context env l) as [-> | [context' ->]]; trivial.
    unfold items.
    destruct (stores_of_newInvoke context' env (world l))
      as [-> | [[p ->] | [x ->]]]; trivial.
    + unfold saved. destruct (decide (ctx_store context' = s)) as [->|Hne].
      * rewrite lookup_insert_eq. cbv beta iota delta [from_option id].
        now rewrite !lookup_insert_ne.
      * now rewrite lookup_insert_ne.
    + destruct (decide (ctx_store context' = s)) as [->|Hne].
      * rewrite lookup_insert_eq. cbv beta iota delta [from_option id].
        now rewrite !lookup_insert_ne.
      * now rewrite lookup_insert_ne.
  - rewrite clearAccount_run. unfold items, cleared. cbn [snd stores].
    destruct (store (this (world l))) as [s'|]; trivial.
    destruct (decide (s' = s)) as [->|Hne].
    + rewrite lookup_insert_eq. cbv beta iota delta [from_option id].
      now rewrite !lookup_delete_ne.
    + now rewrite lookup_insert_ne.
Qed.

Lemma other_items_untouched_witness :
  ~ In "theme" recordKeys
  /\ items 0%nat
       (world (run [Invoke 1%nat context0 firstLogin; ClearAccount]
                 (boot sharedStore []))) !! "theme"
     = Some (Str "dark").
Proof.
  assert (H : ~ In "theme" recordKeys).
  { unfold recordKeys. cbn [In]. intros [H|[H|[H|[H|[H|[]]]]]]; discriminate. }
  split; [exact H|].
  rewrite (other_items_untouched _ (boot sharedStore []) 0%nat "theme" H).
  vm_compute. reflexivity.
Defined.

(** ** The shared promise ([invoke]) *)

Lemma resume_unsettled c p l :
  (forall o, promises l !! p <> Some (Settled o)) ->
  Forall (fun a => snd a = p) (awaiting l) ->
  resume c l = l.
Proof. intros H F. exact (resumes_unsettled p [c] l H F). Qed.

(** Once [this.pending] refers to a promise that never settles, nothing
    that is called changes that. *)
Lemma stalled_for_ever p ops : forall l1,
  pending l1 = Some p ->
  promises l1 !! p = Some Stalled ->
  Forall (fun a => snd a = p) (awaiting l1) ->
  pending (run ops l1) = Some p
  /\ delivered (run ops l1) = delivered l1
  /\ renewals (trace (world (run ops l1))) = renewals (trace (world l1)).
Proof.
  induction ops as [|op ops IH]; intros l1 Ip Is Ia; [now repeat split|].
  unfold run in *. cbn [fold_left].
  assert (S : pending (perform l1 op) = Some p
              /\ promises (perform l1 op) !! p = Some Stalled
              /\ Forall (fun a => snd a = p) (awaiting (perform l1 op))
              /\ delivered (perform l1 op) = delivered l1
              /\ renewals (trace (world (perform l1 op)))
                 = renewals (trace (world l1))).
  { destruct op as [c' context' env'|]; cbn [perform].
    - assert (E : invoke c' context' env' l1
                  = mkLoop (world l1) (Some p) (promises l1)
                      (awaiting l1 ++ [(c', p)])%list (delivered l1)).
      { unfold invoke, call. rewrite Ip. cbn [pending].
        unfold settle. cbn [promises]. rewrite Is.
        apply (resume_unsettled c' p).
        - cbn [promises]. rewrite Is. discriminate.
        - cbn [awaiting]. apply Forall_app. split; [exact Ia|].
          now repeat constructor. }
      rewrite E. cbn [pending promises awaiting delivered world].
      repeat split; trivial. apply Forall_app. split; [exact Ia|].
      now repeat constructor.
    - cbn [pending promises awaiting delivered world].
      repeat split; trivial. rewrite clearAccount_run. cbn [snd].
      unfold cleared. cbn [trace]. unfold renewals. rewrite count_app.
      destruct (store (this (world l1))); cbn; lia. }
  destruct S as (Sp & Ss & Sa & Sd & Sr).
  destruct (IH _ Sp Ss Sa) as (H1 & H2 & H3).
  rewrite H1, H2, H3. repeat split; congruence.
Qed.

(** X7: [invoke] has no timeout.  When a run of [_newInvoke] never settles
    (a login window nobody uses or closes, a request nobody answers),
    [this.pending] keeps referring to its promise: every later call of
    [invoke] joins that promise, starts nothing and is never given a result
    or an error, and [clearAccount] does not free it either. *)
Theorem stalled_run_blocks_every_later_call l c context env :
  quiescent l ->
  fst (_newInvoke context env (world l)) = Never ->
  forall ops,
    let l1 := invoke c context env l in
    pending (run ops l1) = Some (length (promises l))
    /\ delivered (run ops l1) = delivered l
    /\ renewals (trace (world (run ops l1))) = renewals (trace (world l1)).
Proof.
  intros Hq Hn ops. cbv zeta.
  set (p := length (promises l)).
  assert (I : pending (invoke c context env l) = Some p
              /\ promises (invoke c context env l) !! p = Some Stalled
              /\ Forall (fun a => snd a = p) (awaiting (invoke c context env l))
              /\ delivered (invoke c context env l) = delivered l).
  { rewrite (invoke_alone _ _ _ _ Hq), (concurrently_run _ _ _ _ _ Hq).
    destruct (_newInvoke context env (world l)) as [o w']. cbn [fst] in Hn.
    subst o. cbn [handed pending promises awaiting delivered map].
    repeat split; trivial.
    - fold p. apply list_lookup_middle. reflexivity.
    - now repeat constructor. }
  destruct I as (Ip & Is & Ia & Id).
  destruct (stalled_for_ever p ops _ Ip Is Ia) as (H1 & H2 & H3).
  rewrite H1, H2, H3, Id. now repeat split.
Qed.

Lemma stalled_run_blocks_every_later_call_witness :
  quiescent (boot ∅ [])
  /\ fst (_newInvoke context0 windowLeftOpen (world (boot ∅ []))) = Never
  /\ delivered (run [Invoke 2%nat context0 firstLogin; ClearAccount;
                     Invoke 3%nat context0 firstLogin]
                  (invoke 1%nat context0 windowLeftOpen (boot ∅ [])))
     = [].
Proof.
  assert (Hq : quiescent (boot ∅ [])) by (split; reflexivity).
  assert (Hn : fst (_newInvoke context0 windowLeftOpen (world (boot ∅ [])))
               = Never).
  { vm_compute. reflexivity. }
  split; [exact Hq|]. split; [exact Hn|].
  exact (proj1 (proj2 (stalled_run_blocks_every_later_call
                         (boot ∅ []) 1%nat context0 windowLeftOpen
                         Hq Hn _))).
Defined.

(** X8: the [finally] block of [invoke] sets [this.pending] to null
    without looking at what it refers to.  When a caller joins a promise
    that has already settled and resumes after another call has started a
    new run, it clears the reference to that run although the run has not
    settled: the next call of [invoke] starts one more run of [_newInvoke]
    beside it. *)
Theorem late_resume_clears_a_running_promise
    l c1 c2 c3 context1 context2 context3 env r :
  quiescent l ->
  handed (fst (_newInvoke context1 env (world l))) = Some r ->
  let l' := lateJoin c1 c2 c3 context1 context2 context3 env l in
  pending l' = None
  /\ promises l' = (promises l ++ [Settled r; Running context3])%list
  /\ awaiting l' = [(c3, S (length (promises l)))]
  /\ delivered l' = (delivered l ++ [(c1, r); (c2, r)])%list
  /\ forall c4 context4,
       promises (call c4 context4 l')
       = (promises l ++ [Settled r; Running context3; Running context4])%list.
Proof.
  intros [Hp Ha] Hr. cbv zeta. unfold lateJoin.
  set (p := length (promises l)).
  assert (H1 : settle p env (call c1 context1 l)
               = mkLoop (snd (_newInvoke context1 env (world l))) (Some p)
                   (promises l ++ [Settled r])%list [(c1, p)] (delivered l)).
  { unfold call. rewrite Hp, Ha. fold p. unfold settle. cbn [promises world].
    rewrite (list_lookup_middle (promises l) [] (Running context1) p)
      by reflexivity.
    destruct (_newInvoke context1 env (world l)) as [o w'].
    rewrite settled_or_stalled. cbn [fst] in Hr. rewrite Hr.
    cbn [pending awaiting delivered snd app]. f_equal.
    replace p with (length (promises l) + 0)%nat by (subst p; lia).
    now rewrite insert_app_r. }
  rewrite H1. clear H1.
  assert (Hl : forall t, (promises l ++ Settled r :: t)%list !! p
                         = Some (Settled r)).
  { intros t. now apply list_lookup_middle. }
  set (w := snd (_newInvoke context1 env (world l))).
  assert (H2 : call c2 context2
                 (mkLoop w (Some p) (promises l ++ [Settled r])%list
                    [(c1, p)] (delivered l))
               = mkLoop w (Some p) (promises l ++ [Settled r])%list
                   [(c1, p); (c2, p)] (delivered l)) by reflexivity.
  rewrite H2. clear H2.
  assert (H3 : resume c1
                 (mkLoop w (Some p) (promises l ++ [Settled r])%list
                    [(c1, p); (c2, p)] (delivered l))
               = mkLoop w None (promises l ++ [Settled r])%list
                   [(c2, p)] (delivered l ++ [(c1, r)])%list).
  { unfold resume. cbn [awaiting suspension]. rewrite Nat.eqb_refl.
    cbn [promises]. now rewrite Hl. }
  rewrite H3. clear H3.
  assert (H4 : call c3 context3
                 (mkLoop w None (promises l ++ [Settled r])%list
                    [(c2, p)] (delivered l ++ [(c1, r)])%list)
               = mkLoop w (Some (S p))
                   (promises l ++ [Settled r; Running context3])%list
                   [(c2, p); (c3, S p)] (delivered l ++ [(c1, r)])%list).
  { unfold call. cbn [pending promises world awaiting delivered app].
    rewrite length_app, <- app_assoc. cbn [length app]. fold p.
    now replace (p + 1)%nat with (S p) by lia. }
  rewrite H4. clear H4.
  assert (H5 : resume c2
                 (mkLoop w (Some (S p))
                    (promises l ++ [Settled r; Running context3])%list
                    [(c2, p); (c3, S p)] (delivered l ++ [(c1, r)])%list)
               = mkLoop w None
                   (promises l ++ [Settled r; Running context3])%list
                   [(c3, S p)] (delivered l ++ [(c1, r); (c2, r)])%list).
  { unfold resume. cbn [awaiting suspension]. rewrite Nat.eqb_refl.
    cbn [promises]. rewrite Hl. cbn [world delivered].
    now rewrite <- app_assoc. }
  rewrite H5. clear H5. cbn [pending promises awaiting delivered].
  repeat split; trivial.
  intros c4 context4. unfold call. cbn [pending promises].
  now rewrite <- app_assoc.
Qed.

Lemma late_resume_clears_a_running_promise_witness :
  quiescent (boot ∅ [])
  /\ handed (fst (_newInvoke context0 windowClosed (world (boot ∅ []))))
     = Some (inl (Error "Riot login failed"))
  /\ pending (lateJoin 1%nat 2%nat 3%nat context0 context0 context0
                windowClosed (boot ∅ [])) = None
  /\ promises (call 4%nat context0
                 (lateJoin 1%nat 2%nat 3%nat context0 context0 context0
                    windowClosed (boot ∅ [])))
     = [Settled (inl (Error "Riot login failed"));
        Running context0; Running context0].
Proof.
  assert (Hq : quiescent (boot ∅ [])) by (split; reflexivity).
  assert (Hr : handed (fst (_newInvoke context0 windowClosed
                              (world (boot ∅ []))))
               = Some (inl (Error "Riot login failed"))).
  { vm_compute. reflexivity. }
  destruct (late_resume_clears_a_running_promise (boot ∅ []) 1%nat 2%nat 3%nat
              context0 context0 context0 windowClosed _ Hq Hr)
    as (H1 & _ & _ & _ & H5).
  split; [exact Hq|]. split; [exact Hr|]. split; [exact H1|].
  exact (H5 4%nat context0).
Defined.

(** X9: a caller that joins a pending run takes no part in it.  The run
    was started with the first caller's context: the outcome is the same
    whatever contexts the joining callers pass, and a store that is not the
    first caller's is left as it was, also when it is the store of a
    joining caller who is handed the new credentials. *)
Theorem joining_context_is_ignored l c context others others' env :
  quiescent l ->
  map fst others = map fst others' ->
  concurrently c context others env l = concurrently c context others' env l
  /\ forall s,
       s <> ctx_store context ->
       stores (world (concurrently c context others env l)) !! s
       = stores (world l) !! s.
Proof.
  intros Hq He. split.
  - rewrite !(concurrently_run _ _ _ _ _ Hq). now rewrite He.
  - intros s Hs.
    destruct (_newInvoke context env (world l)) as [o w'] eqn:Hr.
    destruct (concurrently_outcome l c context others env o w' Hq Hr)
      as [-> _].
    replace w' with (snd (_newInvoke context env (world l))) by now rewrite Hr.
    destruct (stores_of_newInvoke context env (world l))
      as [-> | [[p ->] | [x ->]]]; trivial.
    + unfold saved. now rewrite lookup_insert_ne by congruence.
    + now rewrite lookup_insert_ne by congruence.
Qed.

Lemma joining_context_is_ignored_witness :
  quiescent (boot ∅ [])
  /\ delivered (concurrently 1%nat context0 [(2%nat, mkContext 5%nat)]
                  firstLogin (boot ∅ []))
     = delivered (concurrently 1%nat context0 [(2%nat, context0)]
                    firstLogin (boot ∅ []))
  /\ stores (world (concurrently 1%nat context0 [(2%nat, mkContext 5%nat)]
                      firstLogin (boot ∅ []))) !! 5%nat
     = None.
Proof.
  assert (Hq : quiescent (boot ∅ [])) by (split; reflexivity).
  destruct (joining_context_is_ignored (boot ∅ []) 1%nat context0
              [(2%nat, mkContext 5%nat)] [(2%nat, context0)] firstLogin
              Hq eq_refl) as [H1 H2].
  split; [exact Hq|]. split; [now rewrite H1|].
  etransitivity; [apply (H2 5%nat); discriminate|reflexivity].
Defined.

(** ** Saving and loading the record *)

Lemma saved_items s p st :
  let record := default ∅ (saved s p st !! s) in
  record !! "expiresAt" = Some (Numeric (expiresAt p))
  /\ record !! "cookies" = Some (JarText (jar p))
  /\ record !! "token" = Some (token p)
  /\ record !! "entitlement" = Some (entitlement p)
  /\ record !! "puuid" = Some (puuid p).
Proof.
  cbv zeta. unfold saved. rewrite lookup_insert_eq.
  cbv beta iota delta [from_option id].
  repeat split;
    repeat first [ apply lookup_insert_eq
                 | rewrite lookup_insert_ne by discriminate ].
Qed.

Lemma div_half_even_1 y : div_half_even y 1 = y.
Proof.
  unfold div_half_even. rewrite Z.div_1_r, Z.mod_1_r. reflexivity.
Qed.

Lemma floor_log2_integer x : 0 < x -> floor_log2 x 1 = Z.log2 x.
Proof.
  intros H0. unfold floor_log2, scaled.
  change (Z.log2 1) with 0. rewrite Z.sub_0_r.
  rewrite (proj2 (Z.leb_le 0 (Z.log2 x)) (Z.log2_nonneg x)), Z.mul_1_l.
  now rewrite (proj2 (Z.ltb_ge x (2 ^ Z.log2 x)) (proj1 (Z.log2_spec x H0))).
Qed.

Lemma trunc_of_double_safe x :
  0 < x <= 2 ^ 53 -> trunc_of_double x 1 = x.
Proof.
  intros [H0 H1]. unfold trunc_of_double.
  rewrite (floor_log2_integer x H0).
  pose proof (Z.log2_nonneg x) as Hk0.
  pose proof (Z.log2_spec x H0) as [Hlo Hhi].
  assert (Hk : Z.log2 x <= 53).
  { change 53 with (Z.log2 (2 ^ 53)). now apply Z.log2_le_mono. }
  unfold scaled.
  destruct (0 <=? Z.log2 x - 52) eqn:E.
  - apply Z.leb_le in E.
    assert (Hc : Z.log2 x = 52 \/ Z.log2 x = 53) by lia.
    destruct Hc as [Hc | Hc]; rewrite Hc in *.
    + change (52 - 52) with 0. change (1 * 2 ^ 0) with 1.
      rewrite div_half_even_1. change (2 ^ 0) with 1. lia.
    + assert (x = 2 ^ 53) by (apply Z.le_antisymm; assumption).
      subst x. vm_compute. reflexivity.
  - apply Z.leb_gt in E.
    rewrite div_half_even_1.
    apply Z.div_mul. apply Z.pow_nonzero; lia.
Qed.

Lemma nearest_double_safe x : Z.abs x <= 2 ^ 53 -> nearest_double x = x.
Proof.
  intros H. destruct x as [|p|p]; [reflexivity| |]; unfold nearest_double.
  - apply trunc_of_double_safe. lia.
  - rewrite trunc_of_double_safe by lia. lia.
Qed.

(** An expiry that is a safe integer is read back as it was saved. *)
Lemma parseInt_safe n : safeInteger n = true -> parseInt (Numeric n) = n.
Proof.
  destruct n as [|x]; [discriminate|]. unfold safeInteger, parseInt.
  intros H. apply Z.leb_le in H.
  assert (Ho : overflows x = false).
  { unfold overflows. apply Z.leb_gt.
    apply Z.le_lt_trans with (m := 2 ^ 53); [exact H | reflexivity]. }
  rewrite Ho, (nearest_double_safe x H).
  assert (Hs : (Z.abs x <? 10 ^ 21) = true).
  { apply Z.ltb_lt.
    apply Z.le_lt_trans with (m := 2 ^ 53); [exact H | reflexivity]. }
  now rewrite Hs.
Qed.

(** X10: what a successful renewal saves is what a new instance loads.
    Started on the store a renewal has written, with the same context and
    before the saved expiry, a new provider takes over the expiry, the
    token, the entitlement, the player id and the jar as the old instance
    had them, and its first [invoke] hands out the same credentials after
    reading the store only.  The expiry is a safe integer, as every time
    of this age is: the text of a larger number does not read back as the
    number. *)
Theorem restart_round_trip context env w w' c cs env' :
  renew context env w = (Return tt, w') ->
  safeInteger (expiresAt (this w')) = true ->
  Number_gtb (expiresAt (this w')) (Num (currentTime env')) = true ->
  let l := invoke c context env' (boot (stores w') cs) in
  delivered l = [(c, inr (credentials (this w')))]
  /\ this (world l) = with_store (Some (ctx_store context)) (this w')
  /\ stores (world l) = stores w'
  /\ session (world l) = cs
  /\ trace (world l) = loading (ctx_store context).
Proof.
  intros Hr Hsafe Hx. cbv zeta.
  assert (Hs : exists st, stores w' = saved (ctx_store context) (this w') st).
  { rewrite renew_run in Hr.
    destruct (obtainToken env (logged (Info "Token has expired") w))
      as [[td|e|] w2]; try discriminate.
    rewrite derive_run in Hr.
    destruct (answer (entitlements env (accessToken td))) as [v|e|];
      try discriminate.
    destruct (answer (userinfo env (accessToken td))) as [u|e|];
      try discriminate.
    destruct (serializeSync (jar (derived env td v u (this w2))));
      try discriminate.
    injection Hr as <-. now exists (stores w2). }
  destruct Hs as [st Hs].
  set (s := ctx_store context) in *. set (p := this w') in *.
  set (l0 := boot (stores w') cs).
  assert (Hq : quiescent l0) by (split; reflexivity).
  destruct (saved_items s p st) as (Ix & Ic & It & Ie & Iu).
  set (w1 := mkWorld (with_store (Some s) p) (stores w') cs (loading s)).
  assert (Hp : prelude context (world l0) = (Return tt, w1)).
  { rewrite prelude_run. fold s. subst l0.
    cbn [boot world this constructor expiresAt Number_eqb Z.eqb].
    unfold restored, items. cbn [stores this]. rewrite Hs.
    rewrite Ix, Ic, It, Ie, Iu.
    rewrite bool_decide_eq_true_2 by (eexists; reflexivity).
    cbn [deserializeSync from_option id trace session app].
    rewrite (parseInt_safe _ Hsafe).
    subst w1. rewrite Hs. reflexivity. }
  assert (Hf : Number_leb (expiresAt (this w1)) (Num (currentTime env')) = false).
  { apply Number_gtb_leb. exact Hx. }
  rewrite (invoke_alone _ _ _ _ Hq).
  destruct (concurrently_outcome l0 c context [] env' _ _ Hq
              (_newInvoke_fresh _ _ _ _ Hp Hf)) as [-> Hd].
  destruct (Hd _ eq_refl) as (-> & _).
  subst w1. cbn [stores trace this session]. now repeat split.
Qed.

Lemma restart_round_trip_witness :
  renew context0 firstLogin (world (boot ∅ []))
  = (Return tt, snd (renew context0 firstLogin (world (boot ∅ []))))
  /\ safeInteger
       (expiresAt (this (snd (renew context0 firstLogin (world (boot ∅ []))))))
     = true
  /\ delivered
       (invoke 7%nat context0 firstLogin
          (boot (stores (snd (renew context0 firstLogin (world (boot ∅ [])))))
             []))
     = [(7%nat, inr {| Result.entitlement := Str "ent1";
                       Result.token := Str "tok1";
                       Result.puuid := Str "u1" |})].
Proof.
  assert (Hr : renew context0 firstLogin (world (boot ∅ []))
               = (Return tt,
                  snd (renew context0 firstLogin (world (boot ∅ []))))).
  { vm_compute. reflexivity. }
  assert (Hs : safeInteger
                 (expiresAt (this (snd (renew context0 firstLogin
                                          (world (boot ∅ []))))))
               = true).
  { vm_compute. reflexivity. }
  assert (Hx : Number_gtb
                 (expiresAt (this (snd (renew context0 firstLogin
                                          (world (boot ∅ []))))))
                 (Num (currentTime firstLogin)) = true).
  { vm_compute. reflexivity. }
  split; [exact Hr|]. split; [exact Hs|].
  rewrite (proj1 (restart_round_trip context0 firstLogin _ _ 7%nat []
                    firstLogin Hr Hs Hx)).
  vm_compute. reflexivity.
Defined.

(** X11: a record whose [cookies] item cannot be read back makes the first
    [invoke] fail with the error of [deserializeSync] as it is, before any
    renewal; by then the expiry, the token, the entitlement and the player
    id have been taken from the record while the jar is the old one.  When
    the loaded expiry is not 0 the record is not read again: a later call
    made before that expiry hands out the loaded credentials, the jar
    still not restored. *)
Theorem unreadable_cookies_item context env w e :
  Number_eqb (expiresAt (this w)) (Num 0) = true ->
  is_Some (items (ctx_store context) w !! "expiresAt") ->
  deserializeSync (default Null (items (ctx_store context) w !! "cookies"))
  = inl e ->
  let w1 := snd (_newInvoke context env w) in
  fst (_newInvoke context env w) = Throw e
  /\ this w1 = restored (ctx_store context) w
  /\ jar (this w1) = jar (this w)
  /\ stores w1 = stores w
  /\ renewals (trace w1) = renewals (trace w)
  /\ forall env',
       Number_gtb (expiresAt (this w1)) (Num (currentTime env')) = true ->
       Number_eqb (expiresAt (this w1)) (Num 0) = false ->
       _newInvoke context env' w1 = (Return (credentials (this w1)), w1).
Proof.
  intros Hz Hi Hd. cbv zeta.
  assert (Hp : prelude context w
               = (Throw e,
                  mkWorld (restored (ctx_store context) w) (stores w)
                    (session w) (trace w ++ loading (ctx_store context))%list)).
  { now rewrite prelude_run, Hz, (bool_decide_eq_true_2 _ Hi), Hd. }
  rewrite (_newInvoke_prelude_Throw _ _ _ _ _ Hp). cbn [fst snd this stores trace].
  split; [reflexivity|]. split; [reflexivity|]. split.
  { unfold restored, checked. now destruct (store (this w)). }
  split; [reflexivity|]. split.
  { unfold renewals. rewrite count_app. cbn. lia. }
  intros env' Hx Hn.
  set (w1 := mkWorld _ _ _ _) in *.
  assert (Hk : store (this w1) <> None).
  { subst w1. cbn [this]. unfold restored. cbn. apply store_checked. }
  apply (_newInvoke_fresh context env' w1 w1); [|now apply Number_gtb_leb].
  rewrite (prelude_nonzero context w1 Hn). now rewrite (updated_checked _ _ Hk).
Qed.

Lemma unreadable_cookies_item_witness :
  is_Some (items (ctx_store context0) (world (boot recordWithoutCookies []))
             !! "expiresAt")
  /\ fst (_newInvoke context0 firstLogin (world (boot recordWithoutCookies [])))
     = Throw (TypeError "Cannot read properties of the serialized jar")
  /\ fst (_newInvoke context0 firstLogin
            (snd (_newInvoke context0 firstLogin
                    (world (boot recordWithoutCookies [])))))
     = Return {| Result.entitlement := Str "ent0";
                 Result.token := Str "tok0";
                 Result.puuid := Str "u0" |}.
Proof.
  assert (Hi : is_Some (items (ctx_store context0)
                          (world (boot recordWithoutCookies []))
                          !! "expiresAt")).
  { vm_compute. eexists. reflexivity. }
  assert (Hd : deserializeSync
                 (default Null
                    (items (ctx_store context0)
                       (world (boot recordWithoutCookies [])) !! "cookies"))
               = inl (TypeError "Cannot read properties of the serialized jar")).
  { vm_compute. reflexivity. }
  destruct (unreadable_cookies_item context0 firstLogin
              (world (boot recordWithoutCookies [])) _ eq_refl Hi Hd)
    as (H1 & _ & _ & _ & _ & H6).
  split; [exact Hi|]. split; [exact H1|].
  rewrite (H6 firstLogin); vm_compute; reflexivity.
Defined.

(** ** The five-minute margin *)

(** X16: a token whose lifetime does not exceed the five minutes that line
    243 subtracts (a missing [expires_in] counts as 0) is never served from
    memory: the expiry saved with it is not later than the clock reading
    of the renewal, so the next [invoke] enters the renewal again. *)
Theorem short_lived_token_is_renewed_again context env td w w' E env' :
  derive context env td w = (Return tt, w') ->
  ToNumber (expiresIn td) = Num E ->
  E <= 300 ->
  renewedTime env <= currentTime env' ->
  exists d,
    trace (snd (_newInvoke context env' w')) = (trace w' ++ d)%list
    /\ renewals d = 1%nat.
Proof.
  intros Hd HE Hs Ht.
  assert (Hw : exists v u, w' = afterSaving context env td v u w).
  { rewrite derive_run in Hd.
    destruct (answer (entitlements env (accessToken td))) as [v|e|];
      try discriminate.
    destruct (answer (userinfo env (accessToken td))) as [u|e|];
      try discriminate.
    destruct (serializeSync (jar (derived env td v u (this w))));
      try discriminate.
    injection Hd as <-. now exists v, u. }
  destruct Hw as (v & u & ->).
  set (w' := afterSaving context env td v u w).
  set (x := renewedTime env + E * 1000 - 300000).
  assert (Hx : expiresAt (this w') = Num x).
  { subst w'. cbn [afterSaving this derived with_expiresAt expiresAt].
    unfold newExpiry. rewrite HE. reflexivity. }
  assert (Hp : exists w1,
             prelude context w' = (Return tt, w1)
             /\ expiresAt (this w1) = Num x).
  { destruct (Z.eq_dec x 0) as [Hz|Hz].
    - destruct (saved_items (ctx_store context) (this w') (stores w))
        as (Ix & Ic & _).
      eexists. split.
      + rewrite prelude_run, Hx, Hz. cbn [Number_eqb Z.eqb].
        unfold items.
        change (stores w') with (saved (ctx_store context) (this w') (stores w)).
        rewrite Ix, Ic.
        rewrite bool_decide_eq_true_2 by (eexists; reflexivity).
        cbn [deserializeSync from_option id]. reflexivity.
      + unfold restored, items.
        change (stores w') with (saved (ctx_store context) (this w') (stores w)).
        rewrite Ix. cbn [this with_jar with_puuid with_entitlement with_token
                         with_expiresAt expiresAt from_option id].
        rewrite Hx, Hz. reflexivity.
    - eexists. split.
      + apply prelude_nonzero. rewrite Hx. cbn [Number_eqb].
        now apply Z.eqb_neq.
      + cbn [updated this]. now rewrite (proj1 (checked_fields _ _)). }
  destruct Hp as (w1 & Hp & Hx1).
  assert (Hl : Number_leb (expiresAt (this w1)) (Num (currentTime env')) = true).
  { rewrite Hx1. cbn [Number_leb]. apply Z.leb_le. subst x. lia. }
  destruct (renewal_counts context env' w' w1 Hp Hl) as (d & Hd' & R & _).
  exists d. now split.
Qed.

Lemma short_lived_token_is_renewed_again_witness :
  ToNumber (Str "60") = Num 60
  /\ renewedTime firstLogin <= currentTime entitlementsDown
  /\ exists d,
       trace (snd (_newInvoke context0 entitlementsDown
                     (snd (derive context0 firstLogin
                             {| accessToken := Str "tok1";
                                expiresIn := Str "60" |}
                             (world (boot ∅ []))))))
       = (trace (snd (derive context0 firstLogin
                        {| accessToken := Str "tok1"; expiresIn := Str "60" |}
                        (world (boot ∅ [])))) ++ d)%list
       /\ renewals d = 1%nat.
Proof.
  assert (Hd : derive context0 firstLogin
                 {| accessToken := Str "tok1"; expiresIn := Str "60" |}
                 (world (boot ∅ []))
               = (Return tt,
                  snd (derive context0 firstLogin
                         {| accessToken := Str "tok1"; expiresIn := Str "60" |}
                         (world (boot ∅ []))))).
  { vm_compute. reflexivity. }
  assert (HE : ToNumber (Str "60") = Num 60) by (vm_compute; reflexivity).
  assert (Ht : renewedTime firstLogin <= currentTime entitlementsDown).
  { vm_compute. discriminate. }
  split; [exact HE|]. split; [exact Ht|].
  apply (short_lived_token_is_renewed_again context0 firstLogin _ _ _ 60
           entitlementsDown Hd HE); [lia|exact Ht].
Defined.

(** ** The cookies of the login window ([logIn]) *)

Lemma putCookie_In c x : forall j, In x (putCookie c j) -> x = c \/ In x j.
Proof.
  induction j as [|y j IH]; cbn [putCookie In].
  - intros [<-|[]]. now left.
  - destruct (same_cookie y c); cbn [In].
    + intros [<-|H]; [now left|right; now right].
    + intros [<-|H]; [right; now left|].
      destruct (IH H) as [->|H']; [now left|right; now right].
Qed.

Lemma setCookie_In site c j j' x :
  setCookie site c j = inr j' -> In x j' ->
  In x j \/ (key x = key c /\ value x = value c).
Proof.
  unfold setCookie.
  destruct (_ && isPublicSuffix _); [discriminate|].
  destruct (_ && negb (domainMatch _ _)); [discriminate|].
  destruct (prefixRulesMet _); intros [= <-] H; [|now left].
  destruct (putCookie_In _ _ _ H) as [->|H']; [right|left]; trivial.
  now split.
Qed.

Lemma setCookieSync_In c j j' x :
  setCookieSync c j = inr j' -> In x j' ->
  In x j \/ (key x = key c /\ value x = value c).
Proof. apply setCookie_In. Qed.

Lemma keepCookies_step e cs w :
  Electron.session e = false ->
  keepCookies (e :: cs) w
  = match setCookieSync (toughCookie e) (jar (this w)) with
    | inr j => keepCookies cs (updated (with_jar j) w)
    | inl err => (Throw err, w)
    end.
Proof.
  intros Es. cbn [keepCookies]. rewrite Es. unfold bind, get_this.
  now destruct (setCookieSync (toughCookie e) (jar (this w))).
Qed.

(** X12: [logIn] skips the session cookies of the login window: the jar,
    and with it the saved [cookies] item, only ever gains cookies made
    from the window's persistent cookies, with their names and values; a
    run of the loop is the run over the persistent cookies alone. *)
Theorem session_cookies_are_not_kept cs : forall w,
  keepCookies cs w
  = keepCookies (List.filter (fun c => negb (Electron.session c)) cs) w
  /\ forall c,
       In c (jar (this (snd (keepCookies cs w)))) ->
       In c (jar (this w))
       \/ exists e, In e cs /\ Electron.session e = false
                    /\ key c = Electron.name e /\ value c = Electron.value e.
Proof.
  induction cs as [|e cs IH]; intros w.
  - split; [reflexivity|]. intros c H. now left.
  - cbn [List.filter].
    destruct (Electron.session e) eqn:Es; cbn [negb].
    + cbn [keepCookies]. rewrite Es.
      destruct (IH w) as [H1 H2]. split; [exact H1|].
      intros c H. destruct (H2 c H) as [H'|(e' & Hi & H')]; [now left|].
      right. exists e'. split; [now right|exact H'].
    + rewrite !(keepCookies_step _ _ _ Es).
      destruct (setCookieSync (toughCookie e) (jar (this w))) as [err|j] eqn:Ej.
      * split; [reflexivity|]. intros c H. now left.
      * destruct (IH (updated (with_jar j) w)) as [H1 H2].
        split; [exact H1|]. intros c H.
        destruct (H2 c H) as [H'|(e' & Hi & H')].
        -- cbn [updated this with_jar jar] in H'.
           destruct (setCookieSync_In _ _ _ _ Ej H') as [Hj|[Hk Hv]];
             [now left|].
           right. exists e. split; [now left|]. now repeat split.
        -- right. exists e'. split; [now right|exact H'].
Qed.

(** ** The login window ([showSignIn]) *)

Lemma windowEvents_redirect url rest env w :
  windowEvents (WillRedirect url :: rest) env w
  = if startsWith url callbackUrl then
      match getTokenDataFromURL (Some url) with
      | inr td =>
          (Return {| tokenData := td;
                     cookies := (session w ++ windowCookies env)%list |},
           mkWorld (this w) (stores w) []
             ((trace w ++ [Info "Login window redirecting..."])
              ++ [Info "Redirecting to url with tokens"])%list)
      | inl _ =>
          windowEvents rest env
            (logged (Info "Redirecting to url with tokens")
               (logged (Info "Login window redirecting...") w))
      end
    else windowEvents rest env (logged (Info "Login window redirecting...") w).
Proof.
  cbn [windowEvents]. unfold bind at 1. unfold logger_info. rewrite emit_run.
  destruct (startsWith url callbackUrl); [|reflexivity].
  unfold bind at 1. rewrite emit_run.
  now destruct (getTokenDataFromURL (Some url)).
Qed.

Lemma windowEvents_outcome env events : forall w,
  this (snd (windowEvents events env w)) = this w
  /\ stores (snd (windowEvents events env w)) = stores w
  /\ match decisive events with
     | Some (WillRedirect url) =>
         exists td,
           getTokenDataFromURL (Some url) = inr td
           /\ fst (windowEvents events env w)
              = Return {| tokenData := td;
                          cookies := (session w ++ windowCookies env)%list |}
           /\ session (snd (windowEvents events env w)) = []
     | Some Close =>
         fst (windowEvents events env w) = Throw (Reason "window closed")
         /\ session (snd (windowEvents events env w)) = session w
     | None =>
         fst (windowEvents events env w) = Never
         /\ session (snd (windowEvents events env w)) = session w
     end.
Proof.
  induction events as [|[url|] rest IH]; intros w.
  - now repeat split.
  - rewrite windowEvents_redirect. cbn [decisive].
    destruct (startsWith url callbackUrl) eqn:E.
    + destruct (callback_parses url E) as [td Htd]. rewrite Htd.
      cbn [fst snd this stores session].
      split; [reflexivity|]. split; [reflexivity|].
      exists td. now repeat split.
    + exact (IH (logged (Info "Login window redirecting...") w)).
  - cbn [windowEvents decisive]. unfold bind, logger_info, throw.
    rewrite emit_run. now repeat split.
Qed.

(** X13: how the promise of [showSignIn] settles.  It is decided by the
    first event of the login window that is a redirect to the callback url
    or a [close]: on the redirect the promise resolves with the token data
    of that url (which always parses) and with the session's cookies, which
    are removed from the session; on [close] it rejects with
    ['window closed'] and the session keeps its cookies; with neither it
    stays pending.  Other redirects and all later events have no part in
    it, and neither the instance nor the store is touched. *)
Theorem showSignIn_outcome env w :
  this (snd (showSignIn env w)) = this w
  /\ stores (snd (showSignIn env w)) = stores w
  /\ match decisive (window env) with
     | Some (WillRedirect url) =>
         exists td,
           getTokenDataFromURL (Some url) = inr td
           /\ fst (showSignIn env w)
              = Return {| tokenData := td;
                          cookies := (session w ++ windowCookies env)%list |}
           /\ session (snd (showSignIn env w)) = []
     | Some Close =>
         fst (showSignIn env w) = Throw (Reason "window closed")
         /\ session (snd (showSignIn env w)) = session w
     | None =>
         fst (showSignIn env w) = Never
         /\ session (snd (showSignIn env w)) = session w
     end.
Proof.
  unfold showSignIn, bind. rewrite emit_run.
  exact (windowEvents_outcome env (window env) (logged (LoadURL signInUrl) w)).
Qed.

(** ** From the login window to the login cookie *)

Lemma keepCookies_session e cs w :
  Electron.session e = true -> keepCookies (e :: cs) w = keepCookies cs w.
Proof. intros Es. cbn [keepCookies]. now rewrite Es. Qed.

Lemma keepCookies_app b : forall a w,
  keepCookies (a ++ b) w
  = match keepCookies a w with
    | (Return _, w1) => keepCookies b w1
    | other => other
    end.
Proof.
  induction a as [|e a IH]; intros w; [reflexivity|]. cbn [app].
  destruct (Electron.session e) eqn:Es.
  - rewrite !(keepCookies_session _ _ _ Es). apply IH.
  - rewrite !(keepCookies_step _ _ _ Es).
    destruct (setCookieSync (toughCookie e) (jar (this w))); [reflexivity|].
    apply IH.
Qed.

Lemma putCookie_new c : forall j, In c (putCookie c j).
Proof.
  induction j as [|y j IH]; cbn [putCookie]; [now left|].
  destruct (same_cookie y c); [now left|now right].
Qed.

Lemma putCookie_keeps c x : forall j,
  same_cookie x c = false -> In x j -> In x (putCookie c j).
Proof.
  induction j as [|y j IH]; intros Hx Hi; [destruct Hi|].
  cbn [putCookie]. destruct (same_cookie y c) eqn:Ey.
  - destruct Hi as [->|Hi]; [congruence|now right].
  - destruct Hi as [->|Hi]; [now left|right; now apply IH].
Qed.

Lemma setCookie_keeps site c x j j' :
  setCookie site c j = inr j' -> key x <> key c -> In x j -> In x j'.
Proof.
  intros H Hk Hi.
  assert (Hs : forall d p s h o,
            same_cookie x (mkCookie (key c) (value c) (expiryTime c) d p s h o)
            = false).
  { intros. unfold same_cookie. cbn [key domain path].
    destruct (String.eqb (key x) (key c)) eqn:E;
      [apply String.eqb_eq in E; contradiction|].
    now rewrite andb_false_r. }
  unfold setCookie in H.
  destruct (_ && isPublicSuffix _); [discriminate|].
  destruct (_ && negb (domainMatch _ _)); [discriminate|].
  destruct (prefixRulesMet _); injection H as <-; [|exact Hi].
  now apply putCookie_keeps.
Qed.

Lemma setCookieSync_keeps c x j j' :
  setCookieSync c j = inr j' -> key x <> key c -> In x j -> In x j'.
Proof. apply setCookie_keeps. Qed.

Lemma keepCookies_keeps x : forall post w w',
  keepCookies post w = (Return tt, w') ->
  (forall e, In e post -> Electron.session e = false ->
     Electron.name e <> key x) ->
  In x (jar (this w)) -> In x (jar (this w')).
Proof.
  induction post as [|e post IH]; intros w w' H Hn Hi.
  - injection H as <-. exact Hi.
  - destruct (Electron.session e) eqn:Es.
    + rewrite (keepCookies_session _ _ _ Es) in H.
      apply (IH _ _ H); [|exact Hi]. intros e' He'. apply Hn. now right.
    + rewrite (keepCookies_step _ _ _ Es) in H.
      destruct (setCookieSync (toughCookie e) (jar (this w))) as [err|j] eqn:Ej;
        [discriminate|].
      apply (IH _ _ H); [intros e' He'; apply Hn; now right|].
      cbn [updated this with_jar jar].
      apply (setCookieSync_keeps _ _ _ _ Ej); [|exact Hi].
      cbn [toughCookie key]. intros E. symmetry in E. revert E.
      apply Hn; [now left|exact Es].
Qed.

Lemma keepCookies_found pre e post w w' t :
  keepCookies (pre ++ e :: post) w = (Return tt, w') ->
  Electron.session e = false ->
  Electron.name e = "ssid" ->
  Electron.domain e = authHost ->
  Electron.path e = "/" ->
  Date_of_seconds (Electron.expirationDate e) = Num t ->
  (forall e', In e' post -> Electron.session e' = false ->
     Electron.name e' <> "ssid") ->
  In (keptLoginCookie e t) (jar (this w')).
Proof.
  intros H Es Hn Hd Hp Ht Hlast.
  rewrite keepCookies_app in H.
  destruct (keepCookies pre w) as [[[]|err|] w1]; try discriminate.
  rewrite (keepCookies_step _ _ _ Es) in H.
  assert (Hj : setCookieSync (toughCookie e) (jar (this w1))
               = inr (putCookie (keptLoginCookie e t) (jar (this w1)))).
  { unfold setCookieSync, setCookie, toughCookie, keptLoginCookie.
    cbn [key value expiryTime domain path secure httpOnly hostOnly].
    rewrite Hn, Hd, Hp, Ht. reflexivity. }
  rewrite Hj in H.
  apply (keepCookies_keeps (keptLoginCookie e t) _ _ _ H); [exact Hlast|].
  cbn [updated this with_jar jar]. apply putCookie_new.
Qed.

Lemma keptLoginCookie_valid e t now :
  now < t -> validLoginCookie now (keptLoginCookie e t) = true.
Proof.
  intros Hlt. unfold validLoginCookie, expiresAfter, keptLoginCookie.
  cbn [key expiryTime Number_gtb].
  rewrite (proj2 (Z.ltb_lt _ _) Hlt). reflexivity.
Qed.

Lemma logIn_found env w td w' pre e post t :
  logIn env w = (Return td, w') ->
  (session w ++ windowCookies env)%list = (pre ++ e :: post)%list ->
  Electron.session e = false ->
  Electron.name e = "ssid" ->
  Electron.domain e = authHost ->
  Electron.path e = "/" ->
  Date_of_seconds (Electron.expirationDate e) = Num t ->
  (forall e', In e' post -> Electron.session e' = false ->
     Electron.name e' <> "ssid") ->
  In (keptLoginCookie e t) (jar (this w')).
Proof.
  intros H Hc Es Hn Hd Hp Ht Hlast.
  unfold logIn, logger_info, bind at 1 in H. rewrite emit_run in H.
  unfold bind at 1, showSignIn, bind at 1 in H. rewrite emit_run in H.
  set (w0 := logged (LoadURL signInUrl) (logged (Info "Signing in...") w)) in H.
  destruct (windowEvents_outcome env (window env) w0) as (_ & _ & Ho).
  destruct (windowEvents (window env) env w0) as [[data|err|] w1];
    try discriminate.
  assert (Hk : cookies data = (pre ++ e :: post)%list).
  { destruct (decisive (window env)) as [[url|]|]; cbn [fst snd] in Ho.
    - destruct Ho as (td' & _ & Hf & _). injection Hf as ->.
      cbn [cookies]. exact Hc.
    - now destruct Ho.
    - now destruct Ho. }
  unfold bind in H. rewrite Hk in H.
  destruct (keepCookies (pre ++ e :: post) w1) as [[[]|err|] w2] eqn:Ek;
    try discriminate.
  injection H as _ <-.
  exact (keepCookies_found pre e post w1 w2 t Ek Es Hn Hd Hp Ht Hlast).
Qed.

(** A request and its response leave in the jar a cookie that has not
    expired by then and whose name no cookie of the response bears. *)
Lemma storeResponseCookies_keeps site x : forall cs j,
  (forall c, In c cs -> key c <> key x) ->
  In x j -> In x (storeResponseCookies site cs j).
Proof.
  unfold storeResponseCookies.
  induction cs as [|c cs IH]; intros j Hn Hi; [exact Hi|].
  cbn [fold_left]. apply IH; [intros c' Hc'; apply Hn; now right|].
  destruct (setCookie site c j) as [err|j'] eqn:E; [exact Hi|].
  apply (setCookie_keeps _ _ _ _ _ E); [|exact Hi].
  intros Hk. symmetry in Hk. revert Hk. apply Hn. now left.
Qed.

Lemma received_keeps {A} now site (r : Reply A) x p :
  expiredAt now x = false ->
  (forall c, In c (set_cookies r) -> key c <> key x) ->
  In x (jar p) -> In x (jar (received now site r p)).
Proof.
  intros He Hn Hi. unfold received. cbn [with_jar jar].
  apply storeResponseCookies_keeps; [exact Hn|].
  unfold getCookies. cbn [snd]. apply filter_In. split; [exact Hi|].
  now rewrite He, andb_false_r.
Qed.

Lemma derive_keeps context env td w x :
  expiredAt (entitlementsTime env) x = false ->
  expiredAt (userinfoTime env) x = false ->
  (forall c, In c (set_cookies (entitlements env (accessToken td))) ->
     key c <> key x) ->
  (forall c, In c (set_cookies (userinfo env (accessToken td))) ->
     key c <> key x) ->
  In x (jar (this w)) ->
  In x (jar (this (snd (derive context env td w)))).
Proof.
  intros He Hu Hne Hnu Hi.
  assert (H1 : In x (jar (received (entitlementsTime env) entitlementsSite
                            (entitlements env (accessToken td))
                            (with_token (accessToken td) (this w))))).
  { now apply received_keeps. }
  assert (H2 : forall v,
            In x (jar (received (userinfoTime env) userinfoSite
                         (userinfo env (accessToken td))
                         (with_entitlement v
                            (received (entitlementsTime env) entitlementsSite
                               (entitlements env (accessToken td))
                               (with_token (accessToken td) (this w))))))).
  { intros v. now apply received_keeps. }
  rewrite derive_run.
  destruct (answer (entitlements env (accessToken td))) as [v|e|];
    [|exact H1|exact H1].
  destruct (answer (userinfo env (accessToken td))) as [u|e|];
    [|exact (H2 v)|exact (H2 v)].
  destruct (serializeSync (jar (derived env td v u (this w))));
    exact (H2 v).
Qed.

(** X17: the login cookie that [logIn] puts into the jar is one that
    [hasLoginCookie] finds, and it is still there after the derivation.
    When the login succeeds, the last persistent cookie named [ssid] among
    those of the window is one of [auth.riotgames.com] with path [/], the
    two lookups are sent before it expires and their responses set no
    cookie of that name, then, however the derivation ends, the jar holds
    a valid login cookie at any time before the cookie's expiry: a renewal
    that looks at such a time starts with the silent re-authentication. *)
Theorem login_cookie_is_found context env w td w1 pre e post t env' :
  logIn env w = (Return td, w1) ->
  (session w ++ windowCookies env)%list = (pre ++ e :: post)%list ->
  Electron.session e = false ->
  Electron.name e = "ssid" ->
  Electron.domain e = authHost ->
  Electron.path e = "/" ->
  Date_of_seconds (Electron.expirationDate e) = Num t ->
  (forall e', In e' post -> Electron.session e' = false ->
     Electron.name e' <> "ssid") ->
  (forall c, In c (set_cookies (entitlements env (accessToken td))) ->
     key c <> "ssid") ->
  (forall c, In c (set_cookies (userinfo env (accessToken td))) ->
     key c <> "ssid") ->
  entitlementsTime env < t ->
  userinfoTime env < t ->
  cookieTime env' < t ->
  holdsLoginCookie (cookieTime env') (jar (this w1)) = true
  /\ holdsLoginCookie (cookieTime env')
       (jar (this (snd (derive context env td w1)))) = true
  /\ silentAttempts
       (trace (snd (obtainToken env' (snd (derive context env td w1)))))
     = S (silentAttempts (trace (snd (derive context env td w1)))).
Proof.
  intros H Hc Es Hn Hd Hp Ht Hlast Hne Hnu Hte Htu Htc.
  pose proof (logIn_found env w td w1 pre e post t H Hc Es Hn Hd Hp Ht Hlast)
    as Hi.
  assert (Hx : forall now, now < t ->
            expiredAt now (keptLoginCookie e t) = false).
  { intros now Hlt. apply expiresAfter_not_expired.
    unfold expiresAfter, keptLoginCookie. cbn [expiryTime Number_gtb].
    now apply Z.ltb_lt. }
  assert (Hi2 : In (keptLoginCookie e t)
                  (jar (this (snd (derive context env td w1))))).
  { apply derive_keeps; trivial; now apply Hx. }
  assert (Hh : forall j, In (keptLoginCookie e t) j ->
            holdsLoginCookie (cookieTime env') j = true).
  { intros j Hj. unfold holdsLoginCookie. apply existsb_exists.
    exists (keptLoginCookie e t). split; [exact Hj|].
    now apply keptLoginCookie_valid. }
  split; [now apply Hh|]. split; [now apply Hh|].
  apply silent_attempt_made. now apply Hh.
Qed.

Lemma login_cookie_is_found_witness :
  logIn firstLogin (world (boot ∅ []))
  = (Return {| accessToken := Str "tok1"; expiresIn := Str "3600" |},
     snd (logIn firstLogin (world (boot ∅ []))))
  /\ silentAttempts
       (trace (snd (obtainToken loginRequired
                      (snd (derive context0 firstLogin
                              {| accessToken := Str "tok1";
                                 expiresIn := Str "3600" |}
                              (snd (logIn firstLogin (world (boot ∅ [])))))))))
     = 1%nat.
Proof.
  assert (H : logIn firstLogin (world (boot ∅ []))
              = (Return {| accessToken := Str "tok1"; expiresIn := Str "3600" |},
                 snd (logIn firstLogin (world (boot ∅ []))))).
  { vm_compute. reflexivity. }
  split; [exact H|].
  rewrite (proj2 (proj2
    (login_cookie_is_found context0 firstLogin _ _ _ [] (ssidCookie 9000) []
       9000000 loginRequired H eq_refl eq_refl eq_refl eq_refl eq_refl
       eq_refl (fun e' (F : In e' []) => match F with end)
       (fun c (F : In c []) => match F with end)
       (fun c (F : In c []) => match F with end)
       eq_refl eq_refl eq_refl))).
  vm_compute. reflexivity.
Defined.

(** ** The requests of the derivation ([getEntitlement], [getPUUID]) *)

Lemma no_bearer_in (p : Event -> bool) d url b :
  forallb p d = true -> p (Fetch url (Some b)) = false ->
  ~ In (Fetch url (Some b)) d.
Proof.
  intros F H Hi. rewrite forallb_forall in F. specialize (F _ Hi). congruence.
Qed.

(** X14: the only requests that carry an [Authorization] header are the
    two lookups of the derivation, and the bearer they carry is the access
    token that the token acquisition of this very run has returned, which
    line 237 has put into [this.token] and which is still there when the
    run is over: no request of a run is made with the token of an earlier
    renewal.  Nothing else works on the instance while the run waits. *)
Theorem lookups_bear_the_new_token context env w :
  exists d,
    trace (snd (_newInvoke context env w)) = (trace w ++ d)%list
    /\ forall url b,
         In (Fetch url (Some b)) d ->
         b = token (this (snd (_newInvoke context env w)))
         /\ (url = entitlementsUrl \/ url = userinfoUrl)
         /\ exists w1 td w2,
              prelude context w = (Return tt, w1)
              /\ obtainToken env (logged (Info "Token has expired") w1)
                 = (Return td, w2)
              /\ b = accessToken td.
Proof.
  destruct (prelude_adds context w) as (d1 & H1 & F1).
  assert (N1 : forall url b, ~ In (Fetch url (Some b)) d1).
  { intros url b. now apply (no_bearer_in load_event). }
  destruct (prelude context w) as [[[]|e|] w1] eqn:Hp; cbn [snd] in H1.
  - rewrite (_newInvoke_prelude_Return _ _ _ _ Hp).
    destruct (Number_leb _ _).
    2:{ exists d1. split; [exact H1|]. intros url b Hi. now destruct (N1 url b). }
    unfold bind. rewrite renew_run.
    destruct (obtainToken env (logged (Info "Token has expired") w1))
      as [o w2] eqn:Ho.
    destruct (trace_of_acquisition _ _ _ _ _ _ Hp Ho)
      as (d1' & d2 & E1 & _ & E2 & F2).
    assert (d1' = d1) as -> by (rewrite H1 in E1; now apply app_inv_head in E1).
    assert (N2 : forall url b, ~ In (Fetch url (Some b)) d2).
    { intros url b. now apply (no_bearer_in acquisition_event). }
    assert (Tail : forall (P : string -> Value -> Prop) tail,
              (forall url b, In (Fetch url (Some b)) tail -> P url b) ->
              forall url b,
                In (Fetch url (Some b))
                  (d1 ++ Info "Token has expired" :: d2 ++ tail)%list ->
                P url b).
    { intros P tail Ht url b Hi.
      apply in_app_or in Hi as [Hi|Hi]; [now destruct (N1 url b)|].
      destruct Hi as [Hi|Hi]; [discriminate|].
      apply in_app_or in Hi as [Hi|Hi]; [now destruct (N2 url b)|].
      now apply Ht. }
    destruct o as [td|e|].
    + assert (Ex : exists w1' td' w2',
                (Return tt, w1) = (Return tt, w1')
                /\ obtainToken env (logged (Info "Token has expired") w1')
                   = (Return td', w2')
                /\ accessToken td = accessToken td').
      { now exists w1, td, w2. }
      rewrite derive_run.
      destruct (answer (entitlements env (accessToken td))) as [v|e|].
      * destruct (answer (userinfo env (accessToken td))) as [u|e|].
        -- destruct (serializeSync (jar (derived env td v u (this w2))))
             as [e|serialized].
           ++ cbn [snd afterExpiry trace this]. eexists. split.
              { rewrite E2, <- !app_assoc. cbn [app]. reflexivity. }
              apply Tail. unfold savingExpiry. cbn [In derived token
                with_expiresAt with_puuid with_entitlement with_token
                received with_jar].
              intros url b [H|[[= <- <-]|[[= <- <-]|[H|[]]]]];
                try discriminate;
                (split; [reflexivity|]; split; [auto|exact Ex]).
           ++ rewrite snapshot_run. cbn [snd afterSaving trace this].
              eexists. split.
              { rewrite E2, <- !app_assoc. cbn [app]. reflexivity. }
              apply Tail. unfold saving. cbn [In derived token with_expiresAt
                with_puuid with_entitlement with_token received with_jar].
              intros url b [H|[[= <- <-]|[[= <- <-]|[H|[H|[H|[H|[H|[]]]]]]]]];
                try discriminate;
                (split; [reflexivity|]; split; [auto|exact Ex]).
        -- cbn [snd afterLookup2 trace this]. eexists. split.
           { rewrite E2, <- !app_assoc. cbn [app]. reflexivity. }
           apply Tail. unfold lookup2. cbn [In token with_entitlement
             with_token received with_jar].
           intros url b [H|[[= <- <-]|[[= <- <-]|[]]]];
             try discriminate;
                (split; [reflexivity|]; split; [auto|exact Ex]).
        -- cbn [snd afterLookup2 trace this]. eexists. split.
           { rewrite E2, <- !app_assoc. cbn [app]. reflexivity. }
           apply Tail. unfold lookup2. cbn [In token with_entitlement
             with_token received with_jar].
           intros url b [H|[[= <- <-]|[[= <- <-]|[]]]];
             try discriminate;
                (split; [reflexivity|]; split; [auto|exact Ex]).
      * cbn [snd afterLookup1 trace this]. eexists. split.
        { rewrite E2, <- !app_assoc. cbn [app]. reflexivity. }
        apply Tail. unfold lookup1. cbn [In token with_token received with_jar].
        intros url b [H|[[= <- <-]|[]]]; try discriminate;
                (split; [reflexivity|]; split; [auto|exact Ex]).
      * cbn [snd afterLookup1 trace this]. eexists. split.
        { rewrite E2, <- !app_assoc. cbn [app]. reflexivity. }
        apply Tail. unfold lookup1. cbn [In token with_token received with_jar].
        intros url b [H|[[= <- <-]|[]]]; try discriminate;
                (split; [reflexivity|]; split; [auto|exact Ex]).
    + cbn [snd logged trace this]. eexists. split.
      { rewrite E2, <- !app_assoc. cbn [app]. reflexivity. }
      apply Tail. cbn [In].
      intros url b [H|[]]; discriminate.
    + cbn [snd]. exists (d1 ++ Info "Token has expired" :: d2 ++ [])%list.
      split; [now rewrite app_nil_r|].
      apply Tail. intros url b [].
  - rewrite (_newInvoke_prelude_Throw _ _ _ _ _ Hp). cbn [snd].
    exists d1. split; [exact H1|]. intros url b Hi. now destruct (N1 url b).
  - now destruct (prelude_not_Never context w); rewrite Hp.
Qed.

(** ** Reading the callback url ([getTokenDataFromURL]) *)

Lemma param_char c :
  is_param_char c = true ->
  is_c0_or_space c = false /\ is_tab_or_newline c = false
  /\ ascii_eqb c "#" = false /\ ascii_eqb c "?" = false.
Proof.
  destruct c as [[] [] [] [] [] [] [] []]; vm_compute; intros H;
    try discriminate H; repeat split.
Qed.

Lemma unreserved_char c :
  is_unreserved c = true ->
  is_param_char c = true
  /\ ascii_eqb c "&" = false /\ ascii_eqb c "=" = false
  /\ ascii_eqb c "+" = false /\ ascii_eqb c "%" = false.
Proof.
  destruct c as [[] [] [] [] [] [] [] []]; vm_compute; intros H;
    try discriminate H; repeat split.
Qed.

Lemma forallb_impl {A} (f g : A -> bool) l :
  (forall x, f x = true -> g x = true) ->
  forallb f l = true -> forallb g l = true.
Proof.
  intros H. induction l as [|x l IH]; [reflexivity|]. cbn.
  intros F. apply andb_true_iff in F as [Fx Fl].
  now rewrite (H x Fx), IH.
Qed.

Lemma span_none {A} (f : A -> bool) l :
  forallb (fun c => negb (f c)) l = true -> span f l = ([], l).
Proof.
  destruct l as [|x l]; [reflexivity|]. cbn. intros H.
  apply andb_true_iff in H as [H _]. apply negb_true_iff in H. now rewrite H.
Qed.

Lemma span_all {A} (f : A -> bool) l :
  forallb f l = true -> forall x r, f x = false ->
  span f (l ++ x :: r)%list = (l, x :: r).
Proof.
  intros H x r Hx. induction l as [|y l IH].
  - cbn. now rewrite Hx.
  - cbn in *. apply andb_true_iff in H as [-> H]. now rewrite (IH H).
Qed.

Lemma forallb_rev {A} (f : A -> bool) l :
  forallb f l = true -> forallb f (rev l) = true.
Proof.
  rewrite !forallb_forall. intros H x Hx. apply H. now apply in_rev.
Qed.

Lemma cleaned_visible l :
  forallb (fun c => negb (is_c0_or_space c)) l = true -> cleaned l = l.
Proof.
  intros H. unfold cleaned.
  rewrite (span_none _ _ H). cbn [snd].
  rewrite (span_none _ _ (forallb_rev _ _ H)). cbn [snd].
  rewrite rev_involutive. apply filter_all.
  revert H. apply forallb_impl. intros c.
  destruct c as [[] [] [] [] [] [] [] []]; vm_compute; trivial.
Qed.

Lemma URL_fragment r :
  forallb (fun c => negb (is_c0_or_space c)) (chars r) = true ->
  URL_hash_slice1 (callbackUrl ++ "#" ++ r) = Some r.
Proof.
  intros H. unfold URL_hash_slice1. rewrite !chars_app.
  fold (cleaned (chars callbackUrl ++ chars "#" ++ chars r)).
  rewrite cleaned_visible.
  2:{ rewrite !forallb_app, H. reflexivity. }
  simpl. unfold text, chars. now rewrite string_of_list_ascii_of_string.
Qed.

Lemma split_on_cons sep l : exists h t, split_on sep l = h :: t.
Proof.
  destruct l as [|c l]; cbn; [now eexists; eexists|].
  destruct (ascii_eqb c sep); [now eexists; eexists|].
  destruct (split_on sep l); now eexists; eexists.
Qed.

Lemma split_on_app sep B : forall A,
  split_on sep (A ++ sep :: B)%list = (split_on sep A ++ split_on sep B)%list.
Proof.
  induction A as [|c A IH]; cbn [app split_on].
  - unfold ascii_eqb. now rewrite Z.eqb_refl.
  - destruct (ascii_eqb c sep); rewrite IH; [reflexivity|].
    destruct (split_on_cons sep A) as (h & t & ->). reflexivity.
Qed.

Lemma split_on_none sep A :
  forallb (fun c => negb (ascii_eqb c sep)) A = true -> split_on sep A = [A].
Proof.
  induction A as [|c A IH]; [reflexivity|]. cbn.
  intros H. apply andb_true_iff in H as [Hc H]. apply negb_true_iff in Hc.
  now rewrite Hc, (IH H).
Qed.

Lemma percent_decode_plain l :
  forallb (fun c => negb (ascii_eqb c "%")) l = true -> percent_decode l = l.
Proof.
  induction l as [|c l IH]; [reflexivity|]. cbn [forallb percent_decode].
  intros H. apply andb_true_iff in H as [Hc H]. apply negb_true_iff in Hc.
  rewrite Hc, (IH H). now destruct l as [|h [|k r]].
Qed.

Lemma plus_to_space_plain l :
  forallb (fun c => negb (ascii_eqb c "+")) l = true -> map plus_to_space l = l.
Proof.
  induction l as [|c l IH]; [reflexivity|]. cbn.
  intros H. apply andb_true_iff in H as [Hc H]. apply negb_true_iff in Hc.
  unfold plus_to_space at 1. now rewrite Hc, (IH H).
Qed.

Lemma searchParams_get_app name b : forall a,
  searchParams_get (a ++ b)%list name
  = match searchParams_get a name with
    | Null => searchParams_get b name
    | v => v
    end.
Proof.
  induction a as [|[n v] a IH]; [reflexivity|]. cbn.
  now destruct (String.eqb n name).
Qed.

Lemma unreserved_text l :
  forallb is_unreserved l = true ->
  forallb (fun c => negb (ascii_eqb c "&")) l = true
  /\ forallb (fun c => negb (ascii_eqb c "=")) l = true
  /\ percent_decode (map plus_to_space l) = l
  /\ forallb is_param_char l = true.
Proof.
  intros H.
  assert (P : forall (g : ascii -> bool),
            (forall c, is_unreserved c = true -> g c = true) ->
            forallb g l = true).
  { intros g Hg. revert H. now apply forallb_impl. }
  repeat split.
  - apply P. intros c Hc. now rewrite (proj1 (proj2 (unreserved_char c Hc))).
  - apply P. intros c Hc.
    now rewrite (proj1 (proj2 (proj2 (unreserved_char c Hc)))).
  - rewrite plus_to_space_plain, percent_decode_plain; trivial.
    + apply P. intros c Hc.
      now rewrite (proj2 (proj2 (proj2 (proj2 (unreserved_char c Hc))))).
    + apply P. intros c Hc.
      now rewrite (proj1 (proj2 (proj2 (proj2 (unreserved_char c Hc))))).
  - apply P. intros c Hc. apply (unreserved_char c Hc).
Qed.

Lemma parse_pair_plain name v :
  forallb is_unreserved name = true ->
  forallb is_unreserved v = true ->
  parse_pair (name ++ "="%char :: v)%list = (text name, text v).
Proof.
  intros Hn Hv.
  destruct (unreserved_text _ Hn) as (_ & Ne & Nd & _).
  destruct (unreserved_text _ Hv) as (_ & _ & Vd & _).
  unfold parse_pair. rewrite (span_all _ _ Ne) by reflexivity.
  now rewrite Nd, Vd.
Qed.

Lemma URLSearchParams_plain init :
  forallb is_param_char (chars init) = true ->
  URLSearchParams init
  = map parse_pair
      (List.filter (fun p => match p with [] => false | _ => true end)
         (split_on "&" (chars init))).
Proof.
  unfold URLSearchParams. destruct (chars init) as [|c l]; [reflexivity|].
  cbn [forallb]. intros H. apply andb_true_iff in H as [Hc _].
  destruct (param_char c Hc) as (_ & _ & _ & Hq).
  destruct c as [[] [] [] [] [] [] [] []]; try reflexivity. discriminate Hq.
Qed.

Lemma app_cons_assoc {A} (a : list A) x b c :
  (a ++ x :: b ++ c)%list = ((a ++ x :: b) ++ c)%list.
Proof. now rewrite <- app_assoc. Qed.

Lemma params_of_callback T M E :
  forallb is_unreserved (chars T) = true ->
  forallb is_unreserved (chars E) = true ->
  forallb is_param_char (chars M) = true ->
  URLSearchParams ("access_token=" ++ T ++ "&" ++ M ++ "&" ++ "expires_in=" ++ E)
  = (("access_token", T) :: URLSearchParams M ++ [("expires_in", E)])%list.
Proof.
  intros HT HE HM.
  destruct (unreserved_text _ HT) as (Ta & _ & _ & Tp).
  destruct (unreserved_text _ HE) as (Ea & _ & _ & Ep).
  rewrite (URLSearchParams_plain M HM), URLSearchParams_plain.
  2:{ rewrite !chars_app, !forallb_app, Tp, Ep, HM. reflexivity. }
  rewrite !chars_app.
  change (chars "&") with ["&"%char].
  change (chars "access_token=") with (chars "access_token" ++ ["="%char])%list.
  change (chars "expires_in=") with (chars "expires_in" ++ ["="%char])%list.
  rewrite <- !app_assoc. cbn [app].
  rewrite (app_cons_assoc (chars "access_token")).
  rewrite !split_on_app.
  rewrite (split_on_none "&" (chars "access_token" ++ "="%char :: chars T)).
  2:{ rewrite forallb_app. cbn [forallb]. rewrite Ta. reflexivity. }
  rewrite (split_on_none "&" (chars "expires_in" ++ "="%char :: chars E)).
  2:{ rewrite forallb_app. cbn [forallb]. rewrite Ea. reflexivity. }
  rewrite !List.filter_app, !map_app.
  assert (N : forall (a : list ascii) x b,
            match (a ++ x :: b)%list with [] => false | _ :: _ => true end
            = true) by (now intros [|]).
  cbn [List.filter]. rewrite !N. cbn [app map].
  rewrite !parse_pair_plain by (reflexivity || assumption).
  unfold text, chars. now rewrite !string_of_list_ascii_of_string.
Qed.

(** X15: [getTokenDataFromURL] gives back what the callback url was made
    from.  For a token and a lifetime written with unreserved characters,
    followed or not by other parameters between them, the url
    [https://playvalorant.com/opt_in#access_token=T&...&expires_in=E] is
    read as [accessToken = T] and [expiresIn = E], both as strings. *)
Theorem token_data_round_trip T M E :
  forallb is_unreserved (chars T) = true ->
  forallb is_unreserved (chars E) = true ->
  forallb is_param_char (chars M) = true ->
  searchParams_get (URLSearchParams M) "expires_in" = Null ->
  getTokenDataFromURL
    (Some (callbackUrl ++ "#access_token=" ++ T ++ "&" ++ M
           ++ "&expires_in=" ++ E))
  = inr {| accessToken := Str T; expiresIn := Str E |}.
Proof.
  intros HT HE HM Hget.
  change (callbackUrl ++ "#access_token=" ++ T ++ "&" ++ M
          ++ "&expires_in=" ++ E)
    with (callbackUrl ++ "#" ++ "access_token=" ++ T ++ "&" ++ M
          ++ "&" ++ "expires_in=" ++ E).
  destruct (unreserved_text _ HT) as (Ta & Te & Td & Tp).
  destruct (unreserved_text _ HE) as (Ea & Ee & Ed & Ep).
  assert (V : forall l, forallb is_param_char l = true ->
                forallb (fun c => negb (is_c0_or_space c)) l = true).
  { intros l. apply forallb_impl. intros c Hc.
    now rewrite (proj1 (param_char c Hc)). }
  unfold getTokenDataFromURL. cbn [url_text].
  rewrite URL_fragment.
  2:{ rewrite !chars_app, !forallb_app, (V _ Tp), (V _ Ep), (V _ HM).
      reflexivity. }
  rewrite (params_of_callback _ _ _ HT HE HM). cbn [searchParams_get].
  change (String.eqb "access_token" "access_token") with true.
  change (String.eqb "access_token" "expires_in") with false.
  cbv iota. rewrite searchParams_get_app, Hget. cbn [searchParams_get].
  change (String.eqb "expires_in" "expires_in") with true.
  reflexivity.
Qed.

Lemma token_data_round_trip_witness :
  searchParams_get (URLSearchParams "scope=openid&token_type=Bearer")
    "expires_in" = Null
  /\ getTokenDataFromURL
       (Some "https://playvalorant.com/opt_in#access_token=tok1&scope=openid&token_type=Bearer&expires_in=3600")
     = inr {| accessToken := Str "tok1"; expiresIn := Str "3600" |}.
Proof.
  assert (H : searchParams_get
                (URLSearchParams "scope=openid&token_type=Bearer")
                "expires_in" = Null) by (vm_compute; reflexivity).
  split; [exact H|].
  exact (token_data_round_trip "tok1" "scope=openid&token_type=Bearer" "3600"
           eq_refl eq_refl eq_refl H).
Defined.
